(** * A shallow embedding of [parse.py], the IPPcode24 scanner and statistics
      collector, and the properties of its specification.

    Python values are modelled as follows.
    - [str]: [string], a sequence of characters whose code points are below
      256 ([ascii]); the predicates [isspace] and [isdigit] are Python's on
      that range. The operand classifier is also given on text of every
      code point ([Uni]), where [\d] is any decimal digit of Unicode; the
      classifier on [string] is proved to be its restriction.
    - [int] counters (all are non-negative and only ever incremented): [nat].
    - [float]: binary64 ([PrimFloat]); a counter is converted through a
      63-bit integer, which is exact for the counts a run can reach.
    - [dict]: an association list in insertion order with unique keys, which
      is the order Python iterates in.
    - [set] of [str]: a list without repetition.
    - The globals [stats] and [order], the lines printed on the standard
      output and what is done to the statistics files: the state [World].
      The messages on the standard error and the closing of files are left
      out. [open] is taken to succeed: a run in which it raises [OSError]
      ends there, after a part of the run modelled here.
    - [sys.exit] and uncaught exceptions: the error component of the monad
      [M], which keeps the state reached when the run stopped.
    - [re.fullmatch]: a regular-expression matcher by derivatives, proved
      to decide the usual language semantics of the expression.

    The definitions come first: the source, function by function, then the
    notions of the specification the properties speak about. The lemmas
    follow, and the properties of the specification, in their order, end
    the file. *)

From Stdlib Require Import String Ascii List Bool Arith NArith ZArith Lia.
From Stdlib Require Import Sorting.Sorted Sorting.Permutation.
From Stdlib Require Import DecimalString PrimFloat Uint63.
Import ListNotations.
Local Open Scope string_scope.

(* ================================================================== *)
(** * Python string operations *)
(* ================================================================== *)

Module PyStr.

Definition code (c : ascii) : N := N_of_ascii c.

(** [str.isspace] on one character, for code points below 256. *)
Definition isspace (c : ascii) : bool :=
  let n := code c in
  ((9 <=? n) && (n <=? 13) || (28 <=? n) && (n <=? 32)
   || (n =? 133) || (n =? 160))%N.

(** [\d] of [re] on code points below 256: the digits 0 to 9. On the
    other code points see [Uni.isdecimal]. *)
Definition isdigit (c : ascii) : bool :=
  let n := code c in ((48 <=? n) && (n <=? 57))%N.

(** [s.startswith(p)] *)
Fixpoint startswith (p s : string) : bool :=
  match p with
  | EmptyString => true
  | String a p' =>
      match s with
      | EmptyString => false
      | String b s' => Ascii.eqb a b && startswith p' s'
      end
  end.

(** [s[n:]] *)
Fixpoint drop (n : nat) (s : string) : string :=
  match n with
  | O => s
  | S n' => match s with
            | EmptyString => EmptyString
            | String _ s' => drop n' s'
            end
  end.

(** [s.lstrip()] *)
Fixpoint lstrip (s : string) : string :=
  match s with
  | EmptyString => EmptyString
  | String c s' => if isspace c then lstrip s' else s
  end.

(** [s.rstrip()] *)
Fixpoint rstrip (s : string) : string :=
  match s with
  | EmptyString => EmptyString
  | String c s' =>
      match rstrip s' with
      | EmptyString => if isspace c then EmptyString else String c EmptyString
      | r => String c r
      end
  end.

(** [s.strip()] *)
Definition strip (s : string) : string := rstrip (lstrip s).

(** The text before the first occurrence of [sep], and the text after it
    when there is one. *)
Fixpoint cut (sep : ascii) (s : string) : string * option string :=
  match s with
  | EmptyString => (EmptyString, None)
  | String c s' =>
      if Ascii.eqb c sep then (EmptyString, Some s')
      else let (a, b) := cut sep s' in (String c a, b)
  end.

(** [s.split(sep, 1)] for a one-character separator *)
Definition split1 (sep : ascii) (s : string) : list string :=
  match cut sep s with
  | (a, None) => [a]
  | (a, Some b) => [a; b]
  end.

(** [s.split(sep)] for a one-character separator *)
Fixpoint split_on (sep : ascii) (s : string) : list string :=
  match s with
  | EmptyString => [EmptyString]
  | String c s' =>
      if Ascii.eqb c sep then EmptyString :: split_on sep s'
      else match split_on sep s' with
           | [] => [String c EmptyString]
           | w :: ws => String c w :: ws
           end
  end.

(** The longest prefix without white space, and what follows it. *)
Fixpoint word (s : string) : string * string :=
  match s with
  | EmptyString => (EmptyString, EmptyString)
  | String c s' =>
      if isspace c then (EmptyString, s)
      else let (w, r) := word s' in (String c w, r)
  end.

(** [s.split()]: the maximal runs of characters that are not white space.
    [cur] is the run being read. *)
Fixpoint split_ws_aux (cur : option string) (s : string) : list string :=
  match s with
  | EmptyString => match cur with None => [] | Some w => [w] end
  | String c s' =>
      if isspace c then
        match cur with
        | None => split_ws_aux None s'
        | Some w => w :: split_ws_aux None s'
        end
      else
        match cur with
        | None => split_ws_aux (Some (String c EmptyString)) s'
        | Some w => split_ws_aux (Some (w ++ String c EmptyString)) s'
        end
  end.

Definition split_ws (s : string) : list string := split_ws_aux None s.

(** [s.split(maxsplit=1)]: the first run, and the rest of the text
    without its leading white space when that is not empty. *)
Definition split_ws1 (s : string) : list string :=
  match lstrip s with
  | EmptyString => []
  | t => let (w, r) := word t in
         match lstrip r with
         | EmptyString => [w]
         | r' => [w; r']
         end
  end.

(** [str(n)] for a non-negative integer *)
Definition str_of_nat (n : nat) : string :=
  DecimalString.NilZero.string_of_uint (Nat.to_uint n).

(** [sep.join(l)] *)
Definition join (sep : string) (l : list string) : string :=
  String.concat sep l.

End PyStr.

(* ================================================================== *)
(** * Regular expressions and [re.fullmatch] *)
(* ================================================================== *)

Module Re.

(** One item of a bracket expression. *)
Inductive item : Type :=
| IChar (c : ascii)          (* a character *)
| IRange (lo hi : ascii)     (* lo-hi *)
| IDigit                     (* \d *)
| ISpace.                    (* \s *)

Inductive regex : Type :=
| Void                                      (* matches nothing *)
| Eps                                       (* the empty text *)
| Class (neg : bool) (items : list item)    (* [...] and [^...] *)
| Cat (r1 r2 : regex)
| Alt (r1 r2 : regex)                       (* r1|r2 *)
| Star (r : regex).                         (* r* *)

Definition in_item (c : ascii) (i : item) : bool :=
  match i with
  | IChar d => Ascii.eqb c d
  | IRange lo hi =>
      (PyStr.code lo <=? PyStr.code c)%N && (PyStr.code c <=? PyStr.code hi)%N
  | IDigit => PyStr.isdigit c
  | ISpace => PyStr.isspace c
  end.

Definition in_class (neg : bool) (items : list item) (c : ascii) : bool :=
  xorb neg (existsb (in_item c) items).

(** Derived forms. *)
Definition Chr (c : ascii) : regex := Class false [IChar c].

Fixpoint Lit (s : string) : regex :=
  match s with
  | EmptyString => Eps
  | String c s' => Cat (Chr c) (Lit s')
  end.

Definition Opt (r : regex) : regex := Alt r Eps.          (* r? *)
Definition Plus (r : regex) : regex := Cat r (Star r).     (* r+ *)
Fixpoint Rep (n : nat) (r : regex) : regex :=              (* r{n} *)
  match n with
  | O => Eps
  | S n' => Cat r (Rep n' r)
  end.

(** The language of an expression. *)
Inductive matches : regex -> string -> Prop :=
| MEps : matches Eps EmptyString
| MClass neg items c :
    in_class neg items c = true ->
    matches (Class neg items) (String c EmptyString)
| MCat r1 r2 s1 s2 :
    matches r1 s1 -> matches r2 s2 -> matches (Cat r1 r2) (s1 ++ s2)
| MAltL r1 r2 s : matches r1 s -> matches (Alt r1 r2) s
| MAltR r1 r2 s : matches r2 s -> matches (Alt r1 r2) s
| MStar0 r : matches (Star r) EmptyString
| MStarS r s1 s2 :
    matches r s1 -> matches (Star r) s2 -> matches (Star r) (s1 ++ s2).

Fixpoint nullable (r : regex) : bool :=
  match r with
  | Void => false
  | Eps => true
  | Class _ _ => false
  | Cat r1 r2 => nullable r1 && nullable r2
  | Alt r1 r2 => nullable r1 || nullable r2
  | Star _ => true
  end.

Fixpoint deriv (c : ascii) (r : regex) : regex :=
  match r with
  | Void => Void
  | Eps => Void
  | Class neg items => if in_class neg items c then Eps else Void
  | Cat r1 r2 =>
      if nullable r1 then Alt (Cat (deriv c r1) r2) (deriv c r2)
      else Cat (deriv c r1) r2
  | Alt r1 r2 => Alt (deriv c r1) (deriv c r2)
  | Star r1 => Cat (deriv c r1) (Star r1)
  end.

(** [re.fullmatch(r, s)] as a truth value: does the whole of [s] match? *)
Fixpoint fullmatch (r : regex) (s : string) : bool :=
  match s with
  | EmptyString => nullable r
  | String c s' => fullmatch (deriv c r) s'
  end.

End Re.

(* ================================================================== *)
(** * The data of [parse.py] *)
(* ================================================================== *)

(** The values of [Token.token_type]. *)
Inductive ttype : Type := Tconst | Ttype | Tvar | Tlabel.

Definition ttype_str (t : ttype) : string :=
  match t with
  | Tconst => "const" | Ttype => "type" | Tvar => "var" | Tlabel => "label"
  end.

(** [class Token] *)
Record Token : Type := mkToken { token_type : ttype; token_value : string }.

(** The entries of the lists of [instruction_dict]. *)
Inductive role : Type := Rvar | Rsymb | Rtype | Rlabel.

(** A Python [dict] from [str] to [int], in insertion order. *)
Definition dict : Type := list (string * nat).

Module Dict.

(** [d.get(k)] *)
Fixpoint lookup (k : string) (d : dict) : option nat :=
  match d with
  | [] => None
  | (k', v) :: d' => if String.eqb k k' then Some v else lookup k d'
  end.

(** [k in d] *)
Definition mem (k : string) (d : dict) : bool :=
  match lookup k d with Some _ => true | None => false end.

(** [d[k] = v]: an existing key keeps its place, a new key goes last. *)
Fixpoint set (k : string) (v : nat) (d : dict) : dict :=
  match d with
  | [] => [(k, v)]
  | (k', v') :: d' =>
      if String.eqb k k' then (k', v) :: d' else (k', v') :: set k v d'
  end.

(** [del d[k]] *)
Fixpoint del (k : string) (d : dict) : dict :=
  match d with
  | [] => []
  | (k', v') :: d' => if String.eqb k k' then d' else (k', v') :: del k d'
  end.

Definition keys (d : dict) : list string := map fst d.
Definition values (d : dict) : list nat := map snd d.

End Dict.

(** [class Stats] *)
Record Stats : Type := mkStats {
  loc : nat;                 (* number of instructions *)
  comments : nat;            (* number of comments *)
  labels : dict;             (* labels and their order *)
  jumps : dict;              (* jump labels and their order *)
  used_instructions : dict;  (* used instructions and their occurrences *)
  eol : nat                  (* number of EOL occurrences *)
}.

(** One call of [print] on the standard output. *)
Inductive out_line : Type :=
| XmlDecl                                           (* <?xml ...?> *)
| ProgramOpen                                       (* <program ...> *)
| InstructionOpen (order : nat) (opcode : string)   (* <instruction ...> *)
| ArgLine (n : nat) (type value : string)           (* <argN type=..>..</argN> *)
| InstructionClose                                  (* </instruction> *)
| ProgramClose                                      (* </program> *)
| DuplicateLabelText                                (* Error: Duplicate label. *)
| UsageText.                                        (* the --help text *)

(** What happens to the statistics files. *)
Inductive file_event : Type :=
| FOpen (filename : string)              (* open(filename, 'w') *)
| FWrite (filename : string) (text : string).

(** The ways a run stops early: the calls of [sys.exit], named after the
    errors of the specification, and the Python exceptions nothing catches. *)
Inductive error : Type :=
| HelpShown                 (* sys.exit(0) after the usage text *)
| HelpCombined              (* --help with other parameters *)
| StatsMissingFile          (* --stats without a file name *)
| UnknownArgument           (* unknown argument of a statistics group *)
| ConfigurationError        (* the same statistics file twice *)
| HeaderError               (* missing or incorrect .IPPcode24 *)
| UnknownOpcodeError        (* instruction_scan *)
| UnknownOpcodeInParse      (* parse_instruction *)
| PatternMismatchError      (* match_pattern *)
| ArityTooFew
| RoleMismatchError (argument : nat) (pattern : role)
| ArityTooMany
| DuplicateLabelError
| UnboundLocalError
| ValueError
| IndexError
| OutOfFuel.                (* of the model only, never reached *)

(** The exit status of the process. *)
Definition exit_status (e : error) : nat :=
  match e with
  | HelpShown => 0
  | HelpCombined | StatsMissingFile | UnknownArgument => 10
  | ConfigurationError => 12
  | HeaderError | UnknownOpcodeError => 22
  | UnknownOpcodeInParse | PatternMismatchError | ArityTooFew
  | RoleMismatchError _ _ | ArityTooMany | DuplicateLabelError => 23
  | UnboundLocalError | ValueError | IndexError | OutOfFuel => 1
  end.

(** The globals [stats] and [order], what was printed, and the files. *)
Record World : Type := mkWorld {
  stats : Stats;
  order : nat;
  stdout : list out_line;
  files : list file_event
}.

(** The state of the process when it starts. *)
Definition init_stats : Stats := mkStats 0 0 [] [] [] 0.
Definition init_world : World := mkWorld init_stats 0 [] [].

(* ================================================================== *)
(** * The monad of state and errors *)
(* ================================================================== *)

Inductive result (A : Type) : Type :=
| Ok (a : A)
| Raise (e : error).
Arguments Ok {A} a.
Arguments Raise {A} e.

Definition M (A : Type) : Type := World -> result A * World.

Definition ret {A} (a : A) : M A := fun w => (Ok a, w).

Definition bind {A B} (c : M A) (k : A -> M B) : M B :=
  fun w => match c w with
           | (Ok a, w') => k a w'
           | (Raise e, w') => (Raise e, w')
           end.

Definition raise {A} (e : error) : M A := fun w => (Raise e, w).

Definition get : M World := fun w => (Ok w, w).

Definition modify (f : World -> World) : M unit := fun w => (Ok tt, f w).

Declare Scope py_scope.
Delimit Scope py_scope with py.
Notation "x <- c ;; k" := (bind c (fun x => k))
  (at level 61, c at next level, right associativity) : py_scope.
Notation "c ;; k" := (bind c (fun _ => k))
  (at level 61, right associativity) : py_scope.
Local Open Scope py_scope.

Definition when (b : bool) (c : M unit) : M unit := if b then c else ret tt.

Definition set_stats (f : Stats -> Stats) : M unit :=
  modify (fun w => mkWorld (f (stats w)) (order w) (stdout w) (files w)).

Definition print (l : out_line) : M unit :=
  modify (fun w => mkWorld (stats w) (order w) (stdout w ++ [l]) (files w)).

Definition file_do (e : file_event) : M unit :=
  modify (fun w => mkWorld (stats w) (order w) (stdout w) (files w ++ [e])).

Definition incr_order : M unit :=
  modify (fun w => mkWorld (stats w) (S (order w)) (stdout w) (files w)).

Definition incr_loc : M unit :=
  set_stats (fun s => mkStats (S (loc s)) (comments s) (labels s) (jumps s)
                              (used_instructions s) (eol s)).
Definition incr_comments : M unit :=
  set_stats (fun s => mkStats (loc s) (S (comments s)) (labels s) (jumps s)
                              (used_instructions s) (eol s)).
Definition incr_eol : M unit :=
  set_stats (fun s => mkStats (loc s) (comments s) (labels s) (jumps s)
                              (used_instructions s) (S (eol s))).
Definition set_labels (d : dict) : M unit :=
  set_stats (fun s => mkStats (loc s) (comments s) d (jumps s)
                              (used_instructions s) (eol s)).
Definition set_jumps (d : dict) : M unit :=
  set_stats (fun s => mkStats (loc s) (comments s) (labels s) d
                              (used_instructions s) (eol s)).
Definition set_used (d : dict) : M unit :=
  set_stats (fun s => mkStats (loc s) (comments s) (labels s) (jumps s)
                              d (eol s)).

(* ================================================================== *)
(** * The patterns and [match_pattern] *)
(* ================================================================== *)

Module Pat.
Import Re.

Definition digit : regex := Class false [IDigit].

(** [[^#\s\\]] *)
Definition plain : regex := Class true [IChar "#"; ISpace; IChar "\"].

(** [[a-zA-Z_\-&%*$!?]] *)
Definition id_start_items : list item :=
  [IRange "a" "z"; IRange "A" "Z"; IChar "_"; IChar "-"; IChar "&";
   IChar "%"; IChar "*"; IChar "$"; IChar "!"; IChar "?"].

(** [[a-zA-Z0-9_\-&%*$!?]] *)
Definition id_rest_items : list item :=
  [IRange "a" "z"; IRange "A" "Z"; IRange "0" "9"; IChar "_"; IChar "-";
   IChar "&"; IChar "%"; IChar "*"; IChar "$"; IChar "!"; IChar "?"].

Definition identifier : regex :=
  Cat (Class false id_start_items) (Star (Class false id_rest_items)).

(** [int@[-+]?\d+] *)
Definition INT_CONST : regex :=
  Cat (Lit "int@")
      (Cat (Opt (Class false [IChar "-"; IChar "+"])) (Plus digit)).

(** [bool@(true|false)] *)
Definition BOOL_CONST : regex :=
  Cat (Lit "bool@") (Alt (Lit "true") (Lit "false")).

(** [string@[^#\s\\]*] and then any number of [\\[\d]{3}[^#\s\\]*] *)
Definition STRING_CONST : regex :=
  Cat (Lit "string@")
      (Cat (Star plain)
           (Star (Cat (Chr "\") (Cat (Rep 3 digit) (Star plain))))).

(** [nil@nil] *)
Definition NIL_CONST : regex := Lit "nil@nil".

(** [(int|bool|string)] *)
Definition TYPE : regex := Alt (Lit "int") (Alt (Lit "bool") (Lit "string")).

(** [(LF|TF|GF)@[a-zA-Z_\-&%*$!?][a-zA-Z0-9_\-&%*$!?]*] *)
Definition VAR : regex :=
  Cat (Alt (Lit "LF") (Alt (Lit "TF") (Lit "GF")))
      (Cat (Chr "@") identifier).

(** [[a-zA-Z_\-&%*$!?][a-zA-Z0-9_\-&%*$!?]*] *)
Definition LABEL : regex := identifier.

(** [({NIL_CONST}|{INT_CONST}|{BOOL_CONST}|{STRING_CONST})] *)
Definition const_pattern : regex :=
  Alt NIL_CONST (Alt INT_CONST (Alt BOOL_CONST STRING_CONST)).

End Pat.

Definition match_pattern (operand : string) : M Token :=
  if Re.fullmatch Pat.const_pattern operand then ret (mkToken Tconst operand)
  else if Re.fullmatch Pat.TYPE operand then ret (mkToken Ttype operand)
  else if Re.fullmatch Pat.VAR operand then ret (mkToken Tvar operand)
  else if Re.fullmatch Pat.LABEL operand then ret (mkToken Tlabel operand)
  else raise PatternMismatchError.

(* ================================================================== *)
(** * The operand classifier on text of every code point *)
(* ================================================================== *)

(** An operand of [match_pattern] is a Python [str], a sequence of
    Unicode code points. In a pattern matched against a [str], [\d] is
    any decimal digit of the Unicode database of the interpreter
    (category Nd), not only 0 to 9, and [\s] is any of its white space;
    [a-z], [A-Z] and [0-9] are ranges of code points. Here the patterns
    [Pat] are read on such text. On text of code points below 256 this
    classifier is [match_pattern] above. *)
Module Uni.

Definition ustring : Type := list N.

(** The code points of a text of code points below 256. *)
Fixpoint codes (s : string) : ustring :=
  match s with
  | EmptyString => []
  | String c s' => PyStr.code c :: codes s'
  end.

(** What [re] and [str] take from the Unicode database. *)
Record database : Type := mkDatabase {
  isdecimal : N -> bool;     (* the characters of [\d]: category Nd *)
  isspace : N -> bool        (* the characters of [\s] *)
}.

Definition in_ranges (ranges : list (N * N)) (c : N) : bool :=
  existsb (fun r => (fst r <=? c) && (c <=? snd r))%N ranges.

(** The decimal digits of Unicode 14.0, the database of CPython 3.11:
    ten code points from each start. Later versions add to them. *)
Definition decimal_ranges : list (N * N) :=
  [(48, 57); (1632, 1641); (1776, 1785); (1984, 1993); (2406, 2415);
   (2534, 2543); (2662, 2671); (2790, 2799); (2918, 2927); (3046, 3055);
   (3174, 3183); (3302, 3311); (3430, 3439); (3558, 3567); (3664, 3673);
   (3792, 3801); (3872, 3881); (4160, 4169); (4240, 4249); (6112, 6121);
   (6160, 6169); (6470, 6479); (6608, 6617); (6784, 6793); (6800, 6809);
   (6992, 7001); (7088, 7097); (7232, 7241); (7248, 7257); (42528, 42537);
   (43216, 43225); (43264, 43273); (43472, 43481); (43504, 43513);
   (43600, 43609); (44016, 44025); (65296, 65305); (66720, 66729);
   (68912, 68921); (69734, 69743); (69872, 69881); (69942, 69951);
   (70096, 70105); (70384, 70393); (70736, 70745); (70864, 70873);
   (71248, 71257); (71360, 71369); (71472, 71481); (71904, 71913);
   (72016, 72025); (72784, 72793); (73040, 73049); (73120, 73129);
   (92768, 92777); (92864, 92873); (93008, 93017); (120782, 120831);
   (123200, 123209); (123632, 123641); (125264, 125273);
   (130032, 130041)]%N.

(** The white space of Unicode 14.0. *)
Definition space_ranges : list (N * N) :=
  [(9, 13); (28, 32); (133, 133); (160, 160); (5760, 5760); (8192, 8202);
   (8232, 8233); (8239, 8239); (8287, 8287); (12288, 12288)]%N.

Definition unicode_14 : database :=
  mkDatabase (in_ranges decimal_ranges) (in_ranges space_ranges).

Definition all_ascii : list ascii := map ascii_of_nat (seq 0 256).

(** Below 256 the database has the digits 0 to 9 and the white space of
    [PyStr.isspace], as every version of Unicode has. *)
Definition latin1 (db : database) : bool :=
  forallb (fun a =>
             Bool.eqb (isdecimal db (PyStr.code a)) (PyStr.isdigit a)
             && Bool.eqb (isspace db (PyStr.code a)) (PyStr.isspace a))
          all_ascii.

(** An item of a bracket expression, on a code point. *)
Definition in_item (db : database) (c : N) (i : Re.item) : bool :=
  match i with
  | Re.IChar d => (c =? PyStr.code d)%N
  | Re.IRange lo hi => ((PyStr.code lo <=? c) && (c <=? PyStr.code hi))%N
  | Re.IDigit => isdecimal db c
  | Re.ISpace => isspace db c
  end.

Definition in_class (db : database) (neg : bool) (items : list Re.item)
  (c : N) : bool :=
  xorb neg (existsb (in_item db c) items).

(** The language of an expression, on text of code points. *)
Inductive matches (db : database) : Re.regex -> ustring -> Prop :=
| MEps : matches db Re.Eps []
| MClass neg items c :
    in_class db neg items c = true ->
    matches db (Re.Class neg items) [c]
| MCat r1 r2 s1 s2 :
    matches db r1 s1 -> matches db r2 s2 ->
    matches db (Re.Cat r1 r2) (s1 ++ s2)%list
| MAltL r1 r2 s : matches db r1 s -> matches db (Re.Alt r1 r2) s
| MAltR r1 r2 s : matches db r2 s -> matches db (Re.Alt r1 r2) s
| MStar0 r : matches db (Re.Star r) []
| MStarS r s1 s2 :
    matches db r s1 -> matches db (Re.Star r) s2 ->
    matches db (Re.Star r) (s1 ++ s2)%list.

Fixpoint deriv (db : database) (c : N) (r : Re.regex) : Re.regex :=
  match r with
  | Re.Void => Re.Void
  | Re.Eps => Re.Void
  | Re.Class neg items => if in_class db neg items c then Re.Eps else Re.Void
  | Re.Cat r1 r2 =>
      if Re.nullable r1
      then Re.Alt (Re.Cat (deriv db c r1) r2) (deriv db c r2)
      else Re.Cat (deriv db c r1) r2
  | Re.Alt r1 r2 => Re.Alt (deriv db c r1) (deriv db c r2)
  | Re.Star r1 => Re.Cat (deriv db c r1) (Re.Star r1)
  end.

(** [re.fullmatch(r, s)] as a truth value. *)
Fixpoint fullmatch (db : database) (r : Re.regex) (s : ustring) : bool :=
  match s with
  | [] => Re.nullable r
  | c :: s' => fullmatch db (deriv db c r) s'
  end.

(** [Token]: the kind and the operand as it was read. *)
Record Token : Type := mkToken {
  token_type : ttype;
  token_value : ustring
}.

(** [match_pattern]; it reads no global, so it is a function of the
    operand. *)
Definition match_pattern (db : database) (operand : ustring) : result Token :=
  if fullmatch db Pat.const_pattern operand then Ok (mkToken Tconst operand)
  else if fullmatch db Pat.TYPE operand then Ok (mkToken Ttype operand)
  else if fullmatch db Pat.VAR operand then Ok (mkToken Tvar operand)
  else if fullmatch db Pat.LABEL operand then Ok (mkToken Tlabel operand)
  else Raise PatternMismatchError.

End Uni.

(* ================================================================== *)
(** * The instruction table and the scanner *)
(* ================================================================== *)

Definition instruction_dict : list (string * list role) :=
  [ (* 0 argument instructions *)
    ("RETURN", []); ("CREATEFRAME", []); ("PUSHFRAME", []);
    ("POPFRAME", []); ("BREAK", []);
    (* 1 argument instructions *)
    ("DEFVAR", [Rvar]); ("POPS", [Rvar]); ("CALL", [Rlabel]);
    ("LABEL", [Rlabel]); ("JUMP", [Rlabel]); ("PUSHS", [Rsymb]);
    ("EXIT", [Rsymb]); ("DPRINT", [Rsymb]); ("WRITE", [Rsymb]);
    (* 2 arguments instructions *)
    ("MOVE", [Rvar; Rsymb]); ("NOT", [Rvar; Rsymb]);
    ("INT2CHAR", [Rvar; Rsymb]); ("READ", [Rvar; Rtype]);
    ("TYPE", [Rvar; Rsymb]); ("STRLEN", [Rvar; Rsymb]);
    (* 3 arguments instructions *)
    ("ADD", [Rvar; Rsymb; Rsymb]); ("SUB", [Rvar; Rsymb; Rsymb]);
    ("MUL", [Rvar; Rsymb; Rsymb]); ("IDIV", [Rvar; Rsymb; Rsymb]);
    ("LT", [Rvar; Rsymb; Rsymb]); ("GT", [Rvar; Rsymb; Rsymb]);
    ("EQ", [Rvar; Rsymb; Rsymb]); ("AND", [Rvar; Rsymb; Rsymb]);
    ("OR", [Rvar; Rsymb; Rsymb]); ("STRI2INT", [Rvar; Rsymb; Rsymb]);
    ("CONCAT", [Rvar; Rsymb; Rsymb]); ("GETCHAR", [Rvar; Rsymb; Rsymb]);
    ("SETCHAR", [Rvar; Rsymb; Rsymb]);
    ("JUMPIFEQ", [Rlabel; Rsymb; Rsymb]);
    ("JUMPIFNEQ", [Rlabel; Rsymb; Rsymb]) ].

(** [instruction_dict[opcode]], and [None] when [opcode not in
    instruction_dict]. *)
Fixpoint signature_in (table : list (string * list role)) (opcode : string)
  : option (list role) :=
  match table with
  | [] => None
  | (k, v) :: table' =>
      if String.eqb opcode k then Some v else signature_in table' opcode
  end.

Definition signature : string -> option (list role) :=
  signature_in instruction_dict.

(** [instruction_array]: the opcode, then the tokens. *)
Definition instruction_array : Type := (string * list Token)%type.

(** The test of one argument against its pattern in [parse_instruction]. *)
Definition role_accepts (pattern : role) (t : ttype) : bool :=
  match pattern, t with
  | Rvar, Tvar => true
  | Rsymb, Tvar | Rsymb, Tconst => true
  | Rtype, Ttype => true
  | Rlabel, Tlabel => true
  | _, _ => false
  end.

(** The decoding of one token in the loop of [print_xml]. [prev] holds the
    locals [token_type] and [token_value] as the previous tokens left them:
    a constant that takes none of the four branches leaves them as they
    are. *)
Definition decode_token (prev : option (string * string)) (token : Token)
  : option (string * string) :=
  match token_type token with
  | Tconst =>
      let v := token_value token in
      if PyStr.startswith "string@" v then
        Some ("string", PyStr.drop (String.length "string@") v)
      else if PyStr.startswith "bool@" v then
        Some ("bool", PyStr.drop (String.length "bool@") v)
      else if PyStr.startswith "int@" v then
        Some ("int", PyStr.drop (String.length "int@") v)
      else if String.eqb v "nil" then Some ("nil", v)
      else prev
  | t => Some (ttype_str t, token_value token)
  end.

(** The loop over [instruction_array[1:]] in [print_xml]. *)
Fixpoint print_args (arg_counter : nat) (prev : option (string * string))
  (tokens : list Token) : M unit :=
  match tokens with
  | [] => ret tt
  | token :: rest =>
      match decode_token prev token with
      | None => raise UnboundLocalError
      | Some (ty, v) =>
          print (ArgLine arg_counter ty v) ;;
          print_args (S arg_counter) (Some (ty, v)) rest
      end
  end.

Definition jump_opcodes : list string := ["CALL"; "JUMP"; "JUMPIFEQ"; "JUMPIFNEQ"].

(** The block of [print_xml] that updates [stats.used_instructions]. *)
Definition count_usage (opcode : string) : M unit :=
  w <- get ;;
  match Dict.lookup opcode (used_instructions (stats w)) with
  | Some n => set_used (Dict.set opcode (n + 1) (used_instructions (stats w)))
  | None => set_used (Dict.set opcode 1 (used_instructions (stats w)))
  end.

(** The block [if opcode == 'LABEL'] of [print_xml]. *)
Definition record_label (opcode : string) (tokens : list Token) : M unit :=
  if String.eqb opcode "LABEL" then
    match tokens with
    | [] => raise IndexError
    | t :: _ =>
        w <- get ;;
        let label_name := token_value t in
        let label_order := order w in
        if Dict.mem label_name (labels (stats w)) then
          print DuplicateLabelText ;; raise DuplicateLabelError
        else set_labels (Dict.set label_name label_order (labels (stats w)))
    end
  else ret tt.

(** The block [if opcode in ['CALL', 'JUMP', 'JUMPIFEQ', 'JUMPIFNEQ']] of
    [print_xml]. *)
Definition record_jump (opcode : string) (tokens : list Token) : M unit :=
  if existsb (String.eqb opcode) jump_opcodes then
    match tokens with
    | [] => raise IndexError
    | t :: _ =>
        w <- get ;;
        let label_name := token_value t in
        set_jumps (Dict.set label_name (order w) (jumps (stats w)))
    end
  else ret tt.

Definition print_xml (ia : instruction_array) : M unit :=
  let (opcode, tokens) := ia in
  incr_order ;;
  count_usage opcode ;;
  record_label opcode tokens ;;
  record_jump opcode tokens ;;
  w <- get ;;
  print (InstructionOpen (order w) opcode) ;;
  print_args 1 None tokens ;;
  print InstructionClose.

(** The loop over [enumerate(arg_patterns)] in [parse_instruction]. *)
Fixpoint check_patterns (i : nat) (arg_patterns : list role)
  (tokens : list Token) : M unit :=
  match arg_patterns with
  | [] => ret tt
  | pattern :: rest =>
      if (length tokens <=? i)%nat then raise ArityTooFew
      else match nth_error tokens i with
           | None => raise IndexError
           | Some token =>
               if role_accepts pattern (token_type token)
               then check_patterns (S i) rest tokens
               else raise (RoleMismatchError (i + 1) pattern)
           end
  end.

Definition parse_instruction (ia : instruction_array) : M unit :=
  let (opcode, tokens) := ia in
  match signature opcode with
  | None => raise UnknownOpcodeInParse
  | Some arg_patterns =>
      let num_args := length tokens in
      check_patterns 0 arg_patterns tokens ;;
      (if (length arg_patterns <? num_args)%nat then raise ArityTooMany
       else ret tt) ;;
      print_xml ia
  end.

(** The loop [for arg in args.split()] of [instruction_scan]. *)
Fixpoint match_all (args : list string) : M (list Token) :=
  match args with
  | [] => ret []
  | arg :: rest =>
      token <- match_pattern arg ;;
      tokens <- match_all rest ;;
      ret (token :: tokens)
  end.

(** [instruction_scan] from the test of the opcode on. *)
Definition validate (opcode args : string) : M unit :=
  match signature opcode with
  | None => raise UnknownOpcodeError
  | Some _ =>
      tokens <- match_all (PyStr.split_ws args) ;;
      parse_instruction (opcode, tokens)
  end.

Definition is_empty (s : string) : bool :=
  match s with EmptyString => true | _ => false end.

Definition instruction_scan (instruction : string) : M unit :=
  if PyStr.startswith "#" instruction || is_empty (PyStr.strip instruction)
  then ret tt
  else
    let parts := PyStr.split1 "#" instruction in
    let instruction_part := PyStr.strip (hd EmptyString parts) in
    when (1 <? length parts)%nat incr_comments ;;
    match PyStr.split_ws1 instruction_part with
    | [] => raise IndexError
    | opcode :: more =>
        let args := match more with a :: _ => a | [] => EmptyString end in
        validate opcode args
    end.

(* ================================================================== *)
(** * [main]: arguments, the input loop, the analyses, the statistics *)
(* ================================================================== *)

(** A Python [set] of [str]: a list without repetition. *)
Module PySet.

Fixpoint add (x : string) (s : list string) : list string :=
  match s with
  | [] => [x]
  | y :: s' => if String.eqb x y then s else y :: add x s'
  end.

(** [set(l)] *)
Definition of_list (l : list string) : list string :=
  fold_left (fun acc x => add x acc) l [].

End PySet.

(** [l.index(x)] *)
Fixpoint index_of (x : string) (l : list string) : option nat :=
  match l with
  | [] => None
  | y :: l' => if String.eqb y x then Some 0
               else option_map S (index_of x l')
  end.

(** The handling of [--help]. *)
Definition check_help (args : list string) : M unit :=
  match index_of "--help" args with
  | Some help_index =>
      if negb (help_index =? 0)%nat || (1 <? length args)%nat
      then raise HelpCombined
      else print UsageText ;; raise HelpShown
  | None => ret tt
  end.

(** [arg.split('=')[1]] *)
Definition after_equals (arg : string) : M string :=
  match nth_error (PyStr.split_on "=" arg) 1 with
  | Some x => ret x
  | None => raise IndexError
  end.

(** The loop that collects the names of the statistics files. *)
Fixpoint collect_stats_files (stats_files : list string) (args : list string)
  : M (list string) :=
  match args with
  | [] => ret stats_files
  | arg :: rest =>
      if PyStr.startswith "--stats=" arg then
        filename <- after_equals arg ;;
        collect_stats_files (PySet.add filename stats_files) rest
      else if String.eqb arg "--stats" then raise StatsMissingFile
      else collect_stats_files stats_files rest
  end.

(** The test for duplicate file names, on the set already built. *)
Definition check_duplicates (stats_files : list string) : M unit :=
  if negb (length stats_files =? length (PySet.of_list stats_files))%nat
  then raise ConfigurationError
  else ret tt.

(** The loop [for line in sys.stdin]. *)
Fixpoint read_lines (first_line : bool) (lines : list string) : M unit :=
  match lines with
  | [] => ret tt
  | raw :: rest =>
      let line := PyStr.strip raw in
      incr_eol ;;
      if first_line then
        if negb (String.eqb line ".IPPcode24") then raise HeaderError
        else read_lines false rest
      else if PyStr.startswith "#" line then
        incr_comments ;; read_lines false rest
      else if is_empty line then read_lines false rest
      else incr_loc ;; instruction_scan line ;; read_lines false rest
  end.

(** The loop that counts forward, backward and bad jumps. *)
Fixpoint count_jumps (labels : dict) (items : dict)
  (fwjumps backjumps badjumps : nat) : nat * nat * nat :=
  match items with
  | [] => (fwjumps, backjumps, badjumps)
  | (label, order) :: rest =>
      match Dict.lookup label labels with
      | Some label_order =>
          if (order <? label_order)%nat then
            count_jumps labels rest (fwjumps + 1) backjumps badjumps
          else if (label_order <? order)%nat then
            count_jumps labels rest fwjumps (backjumps + 1) badjumps
          else count_jumps labels rest fwjumps backjumps (badjumps + 1)
      | None => count_jumps labels rest fwjumps backjumps badjumps
      end
  end.

Definition classify_jumps : M (nat * nat * nat) :=
  w <- get ;;
  ret (count_jumps (labels (stats w)) (jumps (stats w)) 0 0 0).

(** [max(l)] *)
Fixpoint max_of (l : list nat) : option nat :=
  match l with
  | [] => None
  | x :: l' => match max_of l' with
               | None => Some x
               | Some m => Some (Nat.max x m)
               end
  end.

(** [[k for k, v in d.items() if v == x]] *)
Definition keys_with (x : nat) (d : dict) : list string :=
  map fst (filter (fun kv => (snd kv =? x)%nat) d).

(** [float(n)] *)
Definition float_of_nat (n : nat) : float :=
  PrimFloat.of_uint63 (Uint63.of_Z (Z.of_nat n)).

#[local] Set Warnings "-inexact-float".
(** [stats.loc * 0.35] *)
Definition threshold_of (loc : nat) : float :=
  PrimFloat.mul (float_of_nat loc) 0.35%float.
#[local] Set Warnings "+inexact-float".

(** [current_capacity < threshold] *)
Definition below (current_capacity : nat) (threshold : float) : bool :=
  PrimFloat.ltb (float_of_nat current_capacity) threshold.

(** The loop [while current_capacity < threshold]. Every turn deletes a key
    of [stats.used_instructions], so one unit of [fuel] more than it has
    keys is never used up. *)
Fixpoint frequent_loop (fuel : nat) (threshold : float)
  (current_capacity : nat) (buffer : list string) : M (list string) :=
  if below current_capacity threshold then
    match fuel with
    | O => raise OutOfFuel
    | S fuel' =>
        w <- get ;;
        let used := used_instructions (stats w) in
        match max_of (Dict.values used) with
        | None => raise ValueError
        | Some max_usage =>
            match keys_with max_usage used with
            | [] => raise IndexError
            | frequent_instr :: _ =>
                set_used (Dict.del frequent_instr used) ;;
                frequent_loop fuel' threshold (current_capacity + max_usage)
                              (buffer ++ [frequent_instr])
            end
        end
    end
  else ret buffer.

(** [buffer.sort()] *)
Fixpoint insert_sorted (x : string) (l : list string) : list string :=
  match l with
  | [] => [x]
  | y :: l' => if String.leb x y then x :: l else y :: insert_sorted x l'
  end.

Definition sort (l : list string) : list string :=
  fold_right insert_sorted [] l.

(** The branch of [--frequent], up to the sorted buffer. *)
Definition frequent : M (list string) :=
  w <- get ;;
  buffer <- frequent_loop (S (length (used_instructions (stats w))))
                          (threshold_of (loc (stats w))) 0 [] ;;
  ret (sort buffer).

Definition nl : string := String (ascii_of_nat 10) EmptyString.

Definition write_nat (f : string) (n : nat) : M unit :=
  file_do (FWrite f (PyStr.str_of_nat n ++ nl)).

Definition jump_count (pick : nat * nat * nat -> nat)
  (counts : option (nat * nat * nat)) : M nat :=
  match counts with
  | Some c => ret (pick c)
  | None => raise UnboundLocalError
  end.

(** The loop [for arg in args[1:]] that writes the statistics; [f] is the
    name of the file that is open. *)
Fixpoint write_stats (f : string) (counts : option (nat * nat * nat))
  (args : list string) : M unit :=
  match args with
  | [] => ret tt
  | arg :: rest =>
      (if PyStr.startswith "--stats=" arg then
         filename <- after_equals arg ;;
         file_do (FOpen filename) ;;
         write_stats filename counts rest
       else
         (if String.eqb arg "--loc" then
            w <- get ;; write_nat f (loc (stats w))
          else if String.eqb arg "--comments" then
            w <- get ;; write_nat f (comments (stats w))
          else if String.eqb arg "--labels" then
            w <- get ;; write_nat f (length (labels (stats w)))
          else if String.eqb arg "--jumps" then
            w <- get ;; write_nat f (length (jumps (stats w)))
          else if PyStr.startswith "--print=" arg then
            print_value <- after_equals arg ;;
            file_do (FWrite f (print_value ++ nl))
          else if String.eqb arg "--eol" then
            w <- get ;; write_nat f (eol (stats w))
          else if String.eqb arg "--fwjumps" then
            n <- jump_count (fun c => fst (fst c)) counts ;; write_nat f n
          else if String.eqb arg "--backjumps" then
            n <- jump_count (fun c => snd (fst c)) counts ;; write_nat f n
          else if String.eqb arg "--badjumps" then
            n <- jump_count snd counts ;; write_nat f n
          else if String.eqb arg "--frequent" then
            buffer <- frequent ;;
            file_do (FWrite f (PyStr.join "," buffer)) ;;
            file_do (FWrite f nl)
          else raise UnknownArgument) ;;
         write_stats f counts rest)
  end.

(** The part of [main] before the input is read. *)
Definition check_arguments (args : list string) : M unit :=
  check_help args ;;
  stats_files <- collect_stats_files [] args ;;
  check_duplicates stats_files.

(** The part of [main] that reads the input. *)
Definition scan_input (stdin : list string) : M unit :=
  print XmlDecl ;;
  print ProgramOpen ;;
  read_lines true stdin ;;
  print ProgramClose.

(** The jump analysis, when [main] runs it. *)
Definition analyse_jumps (args : list string)
  : M (option (nat * nat * nat)) :=
  match args with
  | arg0 :: _ =>
      if negb (PyStr.startswith "--help" arg0) then
        c <- classify_jumps ;; ret (Some c)
      else ret None
  | [] => ret None
  end.

(** The part of [main] that prints the statistics to files. [open] is
    taken to succeed, here and in [write_stats]. *)
Definition report (args : list string) (counts : option (nat * nat * nat))
  : M unit :=
  match args with
  | arg0 :: rest =>
      if PyStr.startswith "--stats=" arg0 then
        filename <- after_equals arg0 ;;
        file_do (FOpen filename) ;;
        write_stats filename counts rest
      else ret tt
  | [] => ret tt
  end.

Definition main (args : list string) (stdin : list string) : M unit :=
  check_arguments args ;;
  scan_input stdin ;;
  counts <- analyse_jumps args ;;
  report args counts.

(** A run of the program from the state the process starts in. *)
Definition run (args : list string) (stdin : list string)
  : result unit * World :=
  main args stdin init_world.

(* ================================================================== *)
(** * The operand shapes in the words of the specification *)
(* ================================================================== *)

(** These follow section 4.1 of the specification, not the source: they
    are compared with the patterns of the source below. *)
Module Shape.

Definition is_letter (c : ascii) : bool :=
  let n := PyStr.code c in
  ((97 <=? n) && (n <=? 122) || (65 <=? n) && (n <=? 90))%N.

(** One of [_-&%*$!?]. *)
Definition is_symbol (c : ascii) : bool :=
  existsb (Ascii.eqb c) ["_"; "-"; "&"; "%"; "*"; "$"; "!"; "?"]%char.

Definition id_start (c : ascii) : bool := is_letter c || is_symbol c.

Definition id_char (c : ascii) : bool :=
  is_letter c || PyStr.isdigit c || is_symbol c.

Fixpoint all_chars (p : ascii -> bool) (s : string) : bool :=
  match s with
  | EmptyString => true
  | String c s' => p c && all_chars p s'
  end.

(** An identifier starts with a letter or a symbol and goes on with
    letters, digits and symbols. *)
Definition is_identifier (s : string) : bool :=
  match s with
  | EmptyString => false
  | String c s' => id_start c && all_chars id_char s'
  end.

(** What follows the prefix [p] in [s], when [s] starts with it. *)
Definition after_prefix (p s : string) : option string :=
  if PyStr.startswith p s then Some (PyStr.drop (String.length p) s)
  else None.

(** Shape 4, a label name: an identifier with no frame prefix. *)
Definition is_label (s : string) : bool := is_identifier s.

(** Shape 3, a variable reference: a frame, [@], an identifier. *)
Definition is_variable (s : string) : bool :=
  existsb (fun frame =>
             match after_prefix (frame ++ "@") s with
             | Some name => is_identifier name
             | None => false
             end) ["LF"; "TF"; "GF"].

(** Shape 2, a type keyword. *)
Definition is_type_keyword (s : string) : bool :=
  existsb (String.eqb s) ["int"; "bool"; "string"].

Definition is_digits (s : string) : bool :=
  negb (is_empty s) && all_chars PyStr.isdigit s.

(** An optional sign and digits. *)
Definition is_int_literal (s : string) : bool :=
  match s with
  | EmptyString => false
  | String c s' =>
      if Ascii.eqb c "-" || Ascii.eqb c "+" then is_digits s'
      else is_digits s
  end.

(** A character that is no backslash, no [#] and no white space. *)
Definition is_plain (c : ascii) : bool :=
  negb (Ascii.eqb c "\") && negb (Ascii.eqb c "#") && negb (PyStr.isspace c).

(** A run of characters without [#], white space and bare backslashes:
    a backslash is followed by three digits. *)
Fixpoint is_string_literal (s : string) : bool :=
  match s with
  | EmptyString => true
  | String c s' =>
      if Ascii.eqb c "\" then
        match s' with
        | String d1 (String d2 (String d3 s'')) =>
            PyStr.isdigit d1 && PyStr.isdigit d2 && PyStr.isdigit d3
            && is_string_literal s''
        | _ => false
        end
      else is_plain c && is_string_literal s'
  end.

(** Shape 1, a constant. *)
Definition is_constant (s : string) : bool :=
  String.eqb s "nil@nil"
  || match after_prefix "int@" s with
     | Some t => is_int_literal t
     | None => false
     end
  || String.eqb s "bool@true" || String.eqb s "bool@false"
  || match after_prefix "string@" s with
     | Some t => is_string_literal t
     | None => false
     end.

(** The sub-kind of a constant: the text before its [@]. *)
Definition subkind_of (s : string) : string := fst (PyStr.cut "@" s).

End Shape.

(** The shapes of section 4.1 on text of every code point. A digit is a
    decimal digit of any script, a letter is one of a to z and A to Z,
    white space is the white space of the database. *)
Module UShape.
Import Uni.

Definition is_letter (c : N) : bool :=
  ((97 <=? c) && (c <=? 122) || (65 <=? c) && (c <=? 90))%N.

(** One of [_-&%*$!?]. *)
Definition is_symbol (c : N) : bool := existsb (N.eqb c) (codes "_-&%*$!?").

Definition id_start (c : N) : bool := is_letter c || is_symbol c.

Definition id_char (db : database) (c : N) : bool :=
  is_letter c || isdecimal db c || is_symbol c.

(** An identifier starts with a letter or a symbol and goes on with
    letters, digits and symbols. *)
Definition is_identifier (db : database) (s : ustring) : bool :=
  match s with
  | [] => false
  | c :: s' => id_start c && forallb (id_char db) s'
  end.

(** What follows the prefix [p] in [s], when [s] starts with it. *)
Fixpoint after_prefix (p s : ustring) : option ustring :=
  match p with
  | [] => Some s
  | a :: p' =>
      match s with
      | [] => None
      | b :: s' => if (a =? b)%N then after_prefix p' s' else None
      end
  end.

(** Is [s] the text [p]? *)
Definition is_text (p : string) (s : ustring) : bool :=
  match after_prefix (codes p) s with
  | Some [] => true
  | _ => false
  end.

(** Shape 4, a label name: an identifier with no frame prefix. *)
Definition is_label (db : database) (s : ustring) : bool := is_identifier db s.

(** Shape 3, a variable reference: a frame, [@], an identifier. *)
Definition is_variable (db : database) (s : ustring) : bool :=
  existsb (fun frame =>
             match after_prefix (codes (frame ++ "@")) s with
             | Some name => is_identifier db name
             | None => false
             end) ["LF"; "TF"; "GF"].

(** Shape 2, a type keyword. *)
Definition is_type_keyword (s : ustring) : bool :=
  existsb (fun k => is_text k s) ["int"; "bool"; "string"].

Definition is_digits (db : database) (s : ustring) : bool :=
  match s with
  | [] => false
  | _ => forallb (isdecimal db) s
  end.

(** An optional sign and digits. *)
Definition is_int_literal (db : database) (s : ustring) : bool :=
  match s with
  | [] => false
  | c :: s' =>
      if (c =? PyStr.code "-")%N || (c =? PyStr.code "+")%N
      then is_digits db s'
      else is_digits db s
  end.

(** A character that is no backslash, no [#] and no white space. *)
Definition is_plain (db : database) (c : N) : bool :=
  negb (c =? PyStr.code "\")%N && negb (c =? PyStr.code "#")%N
  && negb (isspace db c).

(** A run of characters without [#], white space and bare backslashes:
    a backslash is followed by three digits. *)
Fixpoint is_string_literal (db : database) (s : ustring) : bool :=
  match s with
  | [] => true
  | c :: s' =>
      if (c =? PyStr.code "\")%N then
        match s' with
        | d1 :: d2 :: d3 :: s'' =>
            isdecimal db d1 && isdecimal db d2 && isdecimal db d3
            && is_string_literal db s''
        | _ => false
        end
      else is_plain db c && is_string_literal db s'
  end.

(** Shape 1, a constant. *)
Definition is_constant (db : database) (s : ustring) : bool :=
  is_text "nil@nil" s
  || match after_prefix (codes "int@") s with
     | Some t => is_int_literal db t
     | None => false
     end
  || is_text "bool@true" s || is_text "bool@false" s
  || match after_prefix (codes "string@") s with
     | Some t => is_string_literal db t
     | None => false
     end.

End UShape.

(* ================================================================== *)
(** * What the properties speak about *)
(* ================================================================== *)

(** The [order] attributes of the instructions printed, in output order. *)
Fixpoint instruction_orders (out : list out_line) : list nat :=
  match out with
  | [] => []
  | InstructionOpen n _ :: out' => n :: instruction_orders out'
  | _ :: out' => instruction_orders out'
  end.

(** A line is discarded when it is empty after trimming or is a comment
    line. *)
Definition is_discarded (raw : string) : bool :=
  let line := PyStr.strip raw in
  is_empty line || PyStr.startswith "#" line.

(** The lines that are not discarded. *)
Definition kept (lines : list string) : list string :=
  filter (fun raw => negb (is_discarded raw)) lines.

(** The instruction lines of the input: the lines after the first that are
    not discarded. *)
Definition instruction_lines (stdin : list string) : list string :=
  kept (tl stdin).

(** The state with another map of used instructions. *)
Definition with_used (d : dict) (w : World) : World :=
  mkWorld (mkStats (loc (stats w)) (comments (stats w)) (labels (stats w))
                   (jumps (stats w)) d (eol (stats w)))
          (order w) (stdout w) (files w).

(** The state with one more file event. *)
Definition with_file_event (e : file_event) (w : World) : World :=
  mkWorld (stats w) (order w) (stdout w) (files w ++ [e]).

(** [f] is a part of the state that the map of used instructions and the
    files are not part of. *)
Definition ignores_report {X} (f : World -> X) : Prop :=
  (forall d w, f (with_used d w) = f w)
  /\ (forall e w, f (with_file_event e w) = f w).

(** The first line that is not discarded, trimmed. *)
Fixpoint first_kept_line (stdin : list string) : option string :=
  match stdin with
  | [] => None
  | raw :: rest =>
      if is_discarded raw then first_kept_line rest
      else Some (PyStr.strip raw)
  end.

(** The first line, trimmed. *)
Definition first_line_of (stdin : list string) : option string :=
  match stdin with
  | [] => None
  | raw :: _ => Some (PyStr.strip raw)
  end.

Definition total (d : dict) : nat := list_sum (Dict.values d).

(** The greedy selection in the words of the specification: while the
    running total is below the threshold, an opcode with the greatest count
    of the map is taken out of it and its count is added to the total.
    [greedy threshold d cap picks d' cap'] reads: from the map [d] and the
    total [cap] the selection takes [picks], in this order, and stops with
    the map [d'] and the total [cap']. *)
Inductive greedy (threshold : float)
  : dict -> nat -> list string -> dict -> nat -> Prop :=
| greedy_stop d cap :
    below cap threshold = false ->
    greedy threshold d cap [] d cap
| greedy_take d cap k m picks d' cap' :
    below cap threshold = true ->
    Dict.lookup k d = Some m ->
    Forall (fun kv => snd kv <= m) d ->
    greedy threshold (Dict.del k d) (cap + m) picks d' cap' ->
    greedy threshold d cap (k :: picks) d' cap'.

(** The names the classifier reads as type keywords. *)
Definition type_keywords : list string := ["int"; "bool"; "string"].

(** The opcodes whose signature has a label. *)
Definition label_opcodes : list string :=
  ["LABEL"; "CALL"; "JUMP"; "JUMPIFEQ"; "JUMPIFNEQ"].

Definition is_out_of_fuel (e : error) : bool :=
  match e with OutOfFuel => true | _ => false end.

(** No type keyword is a key of the label map or of the jump map. *)
Definition clean (w : World) : Prop :=
  forall x, In x type_keywords ->
            Dict.mem x (labels (stats w)) = false
            /\ Dict.mem x (jumps (stats w)) = false.

(** A token that is a label does not have a type keyword as its value. *)
Definition label_safe (t : Token) : Prop :=
  token_type t = Tlabel -> ~ In (token_value t) type_keywords.

(** [preserves P c]: if [P] holds before [c], it holds after it, whether
    [c] ends well or not. *)
Definition preserves {A} (P : World -> Prop) (c : M A) : Prop :=
  forall w, P w -> P (snd (c w)).

(** The order of [str]: by code points, a prefix before its extensions. *)
Definition str_le (a b : string) : Prop := String.leb a b = true.

(** The map of used instructions of a state. *)
Definition used (w : World) : dict := used_instructions (stats w).

(** A state with the statistics of the frequency scenario. *)
Definition scenario_ABC : World :=
  mkWorld (mkStats 10 0 [] [] [("A", 5); ("B", 3); ("C", 2)] 0) 0 [] [].

(** The program of the jump scenario: JUMP x at position 1, LABEL x at
    position 2, JUMP x at position 3. *)
Definition scenario_jumps : list string :=
  [".IPPcode24"; "JUMP x"; "LABEL x"; "JUMP x"].

(** The jump analysis of an input: the scan, then the counts of forward,
    backward and bad jumps. *)
Definition jump_analysis (stdin : list string)
  : result (nat * nat * nat) * World :=
  (scan_input stdin ;; classify_jumps) init_world.

(** The state at the end of the scan of an input. *)
Definition scanned (stdin : list string) : World :=
  snd (scan_input stdin init_world).

(** The map of used instructions has every key once, as a [dict] has. *)
Definition used_is_dict (w : World) : Prop := NoDup (Dict.keys (used w)).

(** Does the run stop with this error? *)
Definition raises {A} (e : error -> bool) (r : result A * World) : bool :=
  match fst r with
  | Raise x => e x
  | Ok _ => false
  end.

Definition is_header_error (e : error) : bool :=
  match e with HeaderError => true | _ => false end.

Definition is_configuration_error (e : error) : bool :=
  match e with ConfigurationError => true | _ => false end.

(** [keeps f c]: the computation [c] leaves the part [f] of the state as
    it is, whether it ends well or not. *)
Definition keeps {A X} (f : World -> X) (c : M A) : Prop :=
  forall w, f (snd (c w)) = f w.

(** [never bad c]: the computation [c] does not stop with an error of
    the kind [bad]. *)
Definition never {A} (bad : error -> bool) (c : M A) : Prop :=
  forall w, raises bad (c w) = false.

(** The orders printed so far. *)
Definition printed_orders (w : World) : list nat :=
  instruction_orders (stdout w).

(* ================================================================== *)
(** * Further notions for the properties of the code *)
(* ================================================================== *)

(** The token [t] satisfies the pattern [p] of a signature. *)
Definition role_ok (p : role) (t : Token) : Prop :=
  role_accepts p (token_type t) = true.

(** The first error of the check of [tokens] against [arg_patterns], read
    along the two lists together; [i] is the number of arguments already
    checked. *)
Fixpoint first_role_error (i : nat) (arg_patterns : list role)
  (tokens : list Token) : option error :=
  match arg_patterns with
  | [] => None
  | pattern :: rest =>
      match tokens with
      | [] => Some ArityTooFew
      | token :: tokens' =>
          if role_accepts pattern (token_type token)
          then first_role_error (S i) rest tokens'
          else Some (RoleMismatchError (i + 1) pattern)
      end
  end.

(** [c in s] for a character [c]. *)
Fixpoint occurs (c : ascii) (s : string) : bool :=
  match s with
  | EmptyString => false
  | String a s' => Ascii.eqb a c || occurs c s'
  end.

(** The lines after the first one that have the comment character. *)
Definition comment_lines (stdin : list string) : list string :=
  filter (occurs "#") (tl stdin).

(** The positions of the label map and of the jump map are orders already
    given, and no position is in both maps. *)
Definition apart (w : World) : Prop :=
  (forall l n, In (l, n) (labels (stats w)) -> n <= order w)
  /\ (forall l n, In (l, n) (jumps (stats w)) -> n <= order w)
  /\ (forall l l' n, In (l, n) (labels (stats w)) ->
                     In (l', n) (jumps (stats w)) -> False).

(** The two maps and the counter together. *)
Definition marks (w : World) : dict * dict * nat :=
  (labels (stats w), jumps (stats w), order w).

(** The entries of the jump map whose label is defined. *)
Definition resolved_jumps (w : World) : dict :=
  filter (fun kv => Dict.mem (fst kv) (labels (stats w))) (jumps (stats w)).

(** The number [k] of the next operand of an instruction that has all the
    operands of the signature of [opcode]. *)
Definition arity_ok (opcode : string) (k : nat) : bool :=
  match signature opcode with
  | Some arg_patterns => (k =? S (length arg_patterns))%nat
  | None => false
  end.

(** The lines of a body of instructions: for each instruction the opening
    line with the order [next], the operands numbered from 1, as many as
    the signature has, and the closing line. [cur] is the instruction
    that is open and the number of its next operand. *)
Fixpoint well_formed (next : nat) (cur : option (string * nat))
  (lines : list out_line) : bool :=
  match lines with
  | [] => match cur with None => true | Some _ => false end
  | InstructionOpen n opcode :: rest =>
      match cur with
      | None => (n =? next)%nat && well_formed (S next) (Some (opcode, 1)) rest
      | Some _ => false
      end
  | ArgLine m _ _ :: rest =>
      match cur with
      | Some (opcode, k) =>
          (m =? k)%nat && well_formed next (Some (opcode, S k)) rest
      | None => false
      end
  | InstructionClose :: rest =>
      match cur with
      | Some (opcode, k) => arity_ok opcode k && well_formed next None rest
      | None => false
      end
  | _ => false
  end.

(** [body] is made of whole instructions, from the order after [o] up to
    the order [o']. *)
Definition extends (o o' : nat) (body : list out_line) : Prop :=
  forall rest,
    well_formed (S o) None (body ++ rest)%list = well_formed (S o') None rest.

(** The file events are in order: every write goes to the file that was
    opened last, and [current] is that file at the start. *)
Fixpoint writes_follow_opens (current : option string)
  (events : list file_event) : bool :=
  match events with
  | [] => true
  | FOpen f :: rest => writes_follow_opens (Some f) rest
  | FWrite f _ :: rest =>
      match current with
      | Some g => String.eqb f g && writes_follow_opens current rest
      | None => false
      end
  end.

(** [c] adds writes to the file [f], and no other file event. *)
Definition writes_to {A} (f : string) (c : M A) : Prop :=
  forall w, exists texts,
    files (snd (c w)) = (files w ++ map (FWrite f) texts)%list.

(** [c] adds file events that are in order when [f] is the open file. *)
Definition reports_to {A} (f : string) (c : M A) : Prop :=
  forall w, exists events,
    files (snd (c w)) = (files w ++ events)%list
    /\ writes_follow_opens (Some f) events = true.

(** The errors that no input should produce: an index out of range, the
    branch of [parse_instruction] for an opcode that is not in the table,
    and the bound that the model puts on the loop of [--frequent]. *)
Definition is_internal (e : error) : bool :=
  match e with
  | IndexError | UnknownOpcodeInParse | OutOfFuel => true
  | _ => false
  end.

(** [safe P bad c]: from a state with [P], the computation [c] does not
    stop with an error of the kind [bad], and it ends in a state with
    [P]. *)
Definition safe {A} (P : World -> Prop) (bad : error -> bool) (c : M A)
  : Prop :=
  forall w, P w -> raises bad (c w) = false /\ P (snd (c w)).

(** The counts of the map of used instructions add up to the orders
    given. *)
Definition tallied (w : World) : Prop := total (used w) = order w.

Definition is_unknown_argument (e : error) : bool :=
  match e with UnknownArgument => true | _ => false end.

(* ================================================================== *)
(** * Facts about strings *)
(* ================================================================== *)

Module StrFacts.

Lemma append_is_empty (a b : string) : a ++ b = "" -> a = "" /\ b = "".
Proof. destruct a; simpl; [auto | discriminate]. Qed.

(** How a text that starts with [c] splits in two. *)
Lemma append_is_cons (a b : string) (c : ascii) (s : string) :
  a ++ b = String c s ->
  (a = "" /\ b = String c s) \/ (exists a', a = String c a' /\ s = a' ++ b).
Proof.
  destruct a as [|x a]; simpl; intros H.
  - left; auto.
  - right. inversion H; subst. now exists a.
Qed.

Lemma startswith_append (p t : string) : PyStr.startswith p (p ++ t) = true.
Proof.
  induction p as [|c p IH]; simpl; [reflexivity|].
  now rewrite Ascii.eqb_refl, IH.
Qed.

Lemma drop_append (p t : string) : PyStr.drop (String.length p) (p ++ t) = t.
Proof. induction p as [|c p IH]; simpl; auto. Qed.

Lemma startswith_split (p s : string) :
  PyStr.startswith p s = true -> s = p ++ PyStr.drop (String.length p) s.
Proof.
  revert s; induction p as [|c p IH]; intros s H; simpl in *; [reflexivity|].
  destruct s as [|d s]; [discriminate|].
  apply andb_true_iff in H as [Hc Hp].
  apply Ascii.eqb_eq in Hc; subst d.
  now rewrite <- (IH s Hp).
Qed.

Lemma rstrip_cons (c : ascii) (t : string) :
  PyStr.isspace c = false -> PyStr.rstrip (String c t) = String c (PyStr.rstrip t).
Proof. intros H; simpl. rewrite H. now destruct (PyStr.rstrip t). Qed.

Lemma rstrip_idem (s : string) : PyStr.rstrip (PyStr.rstrip s) = PyStr.rstrip s.
Proof.
  induction s as [|c s IH]; [reflexivity|]. simpl.
  destruct (PyStr.rstrip s) as [|d r] eqn:E.
  - destruct (PyStr.isspace c) eqn:Hc; simpl; [reflexivity | now rewrite Hc].
  - change (PyStr.rstrip (String c (String d r)))
      with (match PyStr.rstrip (String d r) with
            | EmptyString =>
                if PyStr.isspace c then EmptyString else String c EmptyString
            | String x y => String c (String x y)
            end).
    now rewrite IH.
Qed.

Lemma lstrip_head (s : string) :
  PyStr.lstrip s = ""
  \/ exists c t, PyStr.lstrip s = String c t /\ PyStr.isspace c = false.
Proof.
  induction s as [|c s IH]; simpl; [now left|].
  destruct (PyStr.isspace c) eqn:Hc; [assumption|].
  right. now exists c, s.
Qed.

(** Trimming a trimmed text changes nothing. *)
Lemma strip_idem (s : string) : PyStr.strip (PyStr.strip s) = PyStr.strip s.
Proof.
  unfold PyStr.strip at 2 3.
  destruct (lstrip_head s) as [-> | (c & t & -> & Hc)]; [reflexivity|].
  rewrite (rstrip_cons c t Hc). unfold PyStr.strip. simpl PyStr.lstrip.
  rewrite Hc. now rewrite (rstrip_cons c _ Hc), rstrip_idem.
Qed.

End StrFacts.

(* ================================================================== *)
(** * The matcher decides the language of the expression *)
(* ================================================================== *)

Module ReFacts.
Import Re StrFacts.

Create HintDb re.
#[local] Hint Constructors matches : re.

Lemma eps_matches (s : string) : matches Eps s -> s = "".
Proof. intros H; now inversion H. Qed.

Lemma nullable_matches (r : regex) : nullable r = true -> matches r "".
Proof.
  induction r; simpl; intros H; try discriminate; auto with re.
  - apply andb_true_iff in H as [H1 H2].
    change "" with ("" ++ ""). auto with re.
  - apply orb_true_iff in H as [H|H]; auto with re.
Qed.

Lemma matches_nullable (r : regex) (s : string) :
  matches r s -> s = "" -> nullable r = true.
Proof.
  induction 1 as [ | neg items c Hc | r1 r2 s1 s2 _ IH1 _ IH2
                 | r1 r2 s _ IH | r1 r2 s _ IH | r | r s1 s2 _ _ _ _ ];
    intros E; simpl; auto.
  - discriminate.
  - apply append_is_empty in E as [-> ->]. now rewrite IH1, IH2.
  - now rewrite IH.
  - rewrite IH by assumption. apply orb_true_r.
Qed.

Lemma nullable_spec (r : regex) : nullable r = true <-> matches r "".
Proof.
  split; [apply nullable_matches | intros H; now apply (matches_nullable r "")].
Qed.

Lemma deriv_sound (c : ascii) (r : regex) :
  forall s, matches (deriv c r) s -> matches r (String c s).
Proof.
  induction r as [ | | neg items | r1 IH1 r2 IH2 | r1 IH1 r2 IH2 | r IH ];
    simpl; intros s H.
  - inversion H.
  - inversion H.
  - destruct (in_class neg items c) eqn:Hc; inversion H; subst.
    now constructor.
  - destruct (nullable r1) eqn:N.
    + inversion H as [ | | | ? ? ? HL | ? ? ? HR | | ]; subst.
      * inversion HL; subst.
        change (String c (s1 ++ s2)) with (String c s1 ++ s2). auto with re.
      * change (String c s) with ("" ++ String c s).
        constructor; [now apply nullable_matches | auto].
    + inversion H; subst.
      change (String c (s1 ++ s2)) with (String c s1 ++ s2). auto with re.
  - inversion H; subst; auto with re.
  - inversion H; subst.
    change (String c (s1 ++ s2)) with (String c s1 ++ s2). auto with re.
Qed.

Lemma deriv_complete (c : ascii) (r : regex) (t : string) :
  matches r t -> forall s, t = String c s -> matches (deriv c r) s.
Proof.
  induction 1 as [ | neg items d Hd | r1 r2 s1 s2 H1 IH1 H2 IH2
                 | r1 r2 s0 _ IH | r1 r2 s0 _ IH | r
                 | r s1 s2 H1 IH1 H2 IH2 ];
    intros s E; simpl.
  - discriminate.
  - inversion E; subst. rewrite Hd. constructor.
  - apply append_is_cons in E as [[-> ->] | (a & -> & ->)].
    + rewrite (matches_nullable r1 "" H1 eq_refl). apply MAltR. now apply IH2.
    + destruct (nullable r1); [apply MAltL|]; constructor; auto.
  - apply MAltL; auto.
  - apply MAltR; auto.
  - discriminate.
  - apply append_is_cons in E as [[-> ->] | (a & -> & ->)].
    + now apply IH2.
    + constructor; auto.
Qed.

Lemma deriv_spec (c : ascii) (r : regex) (s : string) :
  matches (deriv c r) s <-> matches r (String c s).
Proof.
  split; [apply deriv_sound | intros H; now apply (deriv_complete c r _ H)].
Qed.

(** [re.fullmatch] succeeds exactly on the texts of the language. *)
Theorem fullmatch_spec (r : regex) (s : string) :
  fullmatch r s = true <-> matches r s.
Proof.
  revert r; induction s as [|c s IH]; intros r; simpl.
  - apply nullable_spec.
  - rewrite IH. apply deriv_spec.
Qed.

Lemma fullmatch_false (r : regex) (s : string) :
  fullmatch r s = false <-> ~ matches r s.
Proof.
  rewrite <- fullmatch_spec.
  destruct (fullmatch r s); split; intros H; congruence.
Qed.

Lemma alt_matches (r1 r2 : regex) (s : string) :
  matches (Alt r1 r2) s <-> matches r1 s \/ matches r2 s.
Proof.
  split.
  - intros H; inversion H; subst; auto.
  - intros [H|H]; auto with re.
Qed.

Lemma cat_matches (r1 r2 : regex) (s : string) :
  matches (Cat r1 r2) s <->
  exists s1 s2, s = s1 ++ s2 /\ matches r1 s1 /\ matches r2 s2.
Proof.
  split.
  - intros H; inversion H; subst; eauto.
  - intros (s1 & s2 & -> & H1 & H2); auto with re.
Qed.

Lemma chr_matches (c : ascii) (s : string) :
  matches (Chr c) s <-> s = String c "".
Proof.
  unfold Chr; split.
  - intros H; inversion H as [ | ? ? d Hd | | | | | ]; subst.
    unfold in_class in Hd; simpl in Hd. rewrite orb_false_r in Hd.
    apply Ascii.eqb_eq in Hd. now subst.
  - intros ->. constructor. unfold in_class; simpl.
    now rewrite Ascii.eqb_refl.
Qed.

Lemma chr_cat_matches (c : ascii) (r : regex) (s : string) :
  matches (Cat (Chr c) r) s <-> exists t, s = String c t /\ matches r t.
Proof.
  rewrite cat_matches; split.
  - intros (s1 & s2 & -> & H1 & H2). apply chr_matches in H1; subst.
    now exists s2.
  - intros (t & -> & H). exists (String c ""), t.
    split; [reflexivity|]. split; [now apply chr_matches | assumption].
Qed.

(** A literal matches itself and nothing else. *)
Lemma lit_matches (p s : string) : matches (Lit p) s <-> s = p.
Proof.
  split.
  - revert s; induction p as [|c p IH]; simpl; intros s H.
    + now apply eps_matches.
    + inversion H as [ | | ? ? s1 s2 H1 H2 | | | | ]; subst.
      inversion H1 as [ | ? ? d Hd | | | | | ]; subst.
      unfold in_class in Hd; simpl in Hd.
      rewrite orb_false_r in Hd. apply Ascii.eqb_eq in Hd; subst d.
      simpl. f_equal. now apply IH.
  - intros ->. induction p as [|c p IH]; simpl; [constructor|].
    change (String c p) with (String c "" ++ p).
    constructor; [|assumption].
    constructor. unfold in_class; simpl. now rewrite Ascii.eqb_refl.
Qed.

(** A text that matches a literal followed by [r] starts with the
    literal. *)
Lemma lit_cat_matches (p : string) (r : regex) (s : string) :
  matches (Cat (Lit p) r) s <-> exists t, s = p ++ t /\ matches r t.
Proof.
  split.
  - intros H. inversion H as [ | | ? ? s1 s2 H1 H2 | | | | ]; subst.
    apply lit_matches in H1; subst. now exists s2.
  - intros (t & -> & H). constructor; [now apply lit_matches | assumption].
Qed.

End ReFacts.

(* ================================================================== *)
(** * The patterns of the source recognise the shapes of the specification *)
(* ================================================================== *)

Module ShapeFacts.
Import Re StrFacts ReFacts Shape.

Lemma bool_eq (a b : bool) : (a = true <-> b = true) -> a = b.
Proof. destruct a, b; intros [H1 H2]; auto; symmetry; auto. Qed.

Lemma all_chars_ext (p q : ascii -> bool) (s : string) :
  (forall c, p c = q c) -> all_chars p s = all_chars q s.
Proof. intros E; induction s as [|c s IH]; simpl; [|rewrite E, IH]; auto. Qed.

Lemma class_matches (neg : bool) (items : list item) (s : string) :
  matches (Class neg items) s <->
  exists c, s = String c "" /\ in_class neg items c = true.
Proof.
  split.
  - intros H; inversion H; subst; eauto.
  - intros (c & -> & H); now constructor.
Qed.

Lemma star_class_all (neg : bool) (items : list item) (r : regex) (s : string) :
  matches r s -> r = Star (Class neg items) ->
  all_chars (in_class neg items) s = true.
Proof.
  induction 1 as [ | | | | | r0 | r0 s1 s2 H1 _ H2 IH2 ];
    intros E; try discriminate; [reflexivity|].
  inversion E; subst r0.
  apply class_matches in H1 as (c & -> & Hc).
  simpl. rewrite Hc. now apply IH2.
Qed.

Lemma star_class_matches (neg : bool) (items : list item) (s : string) :
  matches (Star (Class neg items)) s <->
  all_chars (in_class neg items) s = true.
Proof.
  split.
  - intros H. now apply (star_class_all neg items _ s H).
  - induction s as [|c s IH]; simpl; intros H; [constructor|].
    apply andb_true_iff in H as [Hc Hs].
    change (String c s) with (String c "" ++ s).
    constructor; [now constructor | auto].
Qed.

(** The bracket expressions of the source hold the characters the
    specification lists. *)
Lemma id_start_class (c : ascii) :
  in_class false Pat.id_start_items c = id_start c.
Proof. destruct c as [[] [] [] [] [] [] [] []]; reflexivity. Qed.

Lemma id_rest_class (c : ascii) :
  in_class false Pat.id_rest_items c = id_char c.
Proof. destruct c as [[] [] [] [] [] [] [] []]; reflexivity. Qed.

Lemma digit_class (c : ascii) : in_class false [IDigit] c = PyStr.isdigit c.
Proof. unfold in_class; simpl. now rewrite orb_false_r. Qed.

Lemma plain_class (c : ascii) :
  in_class true [IChar "#"; ISpace; IChar "\"] c = is_plain c.
Proof. destruct c as [[] [] [] [] [] [] [] []]; reflexivity. Qed.

Lemma identifier_matches (s : string) :
  matches Pat.identifier s <-> is_identifier s = true.
Proof.
  unfold Pat.identifier; split.
  - intros H. inversion H as [ | | ? ? s1 s2 H1 H2 | | | | ]; subst.
    apply class_matches in H1 as (c & -> & Hc).
    apply star_class_matches in H2.
    simpl. rewrite <- id_start_class, Hc.
    now rewrite <- (all_chars_ext _ _ s2 id_rest_class).
  - destruct s as [|c s]; simpl; [discriminate|]. intros H.
    apply andb_true_iff in H as [Hc Hs].
    change (String c s) with (String c "" ++ s).
    constructor.
    + constructor. now rewrite id_start_class.
    + apply star_class_matches.
      now rewrite (all_chars_ext _ _ s id_rest_class).
Qed.

Theorem label_shape (s : string) : fullmatch Pat.LABEL s = is_label s.
Proof.
  apply bool_eq. rewrite fullmatch_spec. apply identifier_matches.
Qed.

Theorem type_shape (s : string) : fullmatch Pat.TYPE s = is_type_keyword s.
Proof.
  apply bool_eq. rewrite fullmatch_spec. unfold Pat.TYPE, is_type_keyword.
  cbn [existsb].
  rewrite orb_false_r, !orb_true_iff, !String.eqb_eq, !alt_matches,
    !lit_matches.
  tauto.
Qed.

Lemma after_prefix_some (p s t : string) :
  after_prefix p s = Some t <-> s = p ++ t.
Proof.
  unfold after_prefix; split.
  - destruct (PyStr.startswith p s) eqn:E; [|discriminate].
    intros H; inversion H; subst. now apply startswith_split.
  - intros ->. now rewrite startswith_append, drop_append.
Qed.

Lemma after_prefix_true (p s : string) (f : string -> bool) :
  match after_prefix p s with Some t => f t | None => false end = true <->
  exists t, s = p ++ t /\ f t = true.
Proof.
  split.
  - destruct (after_prefix p s) as [t|] eqn:E; [|discriminate].
    intros H. exists t. split; [now apply after_prefix_some | assumption].
  - intros (t & Hs & Hf). apply after_prefix_some in Hs. now rewrite Hs.
Qed.

Lemma frame_matches (s : string) :
  matches (Alt (Lit "LF") (Alt (Lit "TF") (Lit "GF"))) s <->
  s = "LF" \/ s = "TF" \/ s = "GF".
Proof. rewrite !alt_matches, !lit_matches. tauto. Qed.

Theorem var_shape (s : string) : fullmatch Pat.VAR s = is_variable s.
Proof.
  apply bool_eq. rewrite fullmatch_spec. unfold Pat.VAR, is_variable.
  cbn [existsb]. rewrite orb_false_r, !orb_true_iff, !after_prefix_true.
  rewrite cat_matches. split.
  - intros (frame & rest & -> & Hf & Hr).
    apply frame_matches in Hf.
    apply chr_cat_matches in Hr as (t & -> & Ht).
    apply identifier_matches in Ht.
    destruct Hf as [-> | [-> | ->]]; [left | right; left | right; right];
      now exists t.
  - intros H.
    assert (G : exists frame t, s = frame ++ "@" ++ t
                                /\ (frame = "LF" \/ frame = "TF" \/ frame = "GF")
                                /\ is_identifier t = true).
    { destruct H as [(t & -> & Ht) | [(t & -> & Ht) | (t & -> & Ht)]];
        [exists "LF" | exists "TF" | exists "GF"]; exists t; auto. }
    destruct G as (frame & t & -> & Hf & Ht).
    exists frame, ("@" ++ t). split; [reflexivity|]. split.
    + now apply frame_matches.
    + apply chr_cat_matches. exists t. split; [reflexivity|].
      now apply identifier_matches.
Qed.

Lemma plus_digit_matches (s : string) :
  matches (Plus Pat.digit) s <-> is_digits s = true.
Proof.
  unfold Plus, Pat.digit, is_digits. rewrite cat_matches. split.
  - intros (s1 & s2 & -> & H1 & H2).
    apply class_matches in H1 as (c & -> & Hc).
    apply star_class_matches in H2.
    rewrite digit_class in Hc.
    rewrite (all_chars_ext _ _ s2 digit_class) in H2.
    simpl. now rewrite Hc, H2.
  - destruct s as [|c s]; simpl; [discriminate|]. intros H.
    apply andb_true_iff in H as [Hc Hs].
    exists (String c ""), s. split; [reflexivity|]. split.
    + constructor. now rewrite digit_class.
    + apply star_class_matches.
      now rewrite (all_chars_ext _ _ s digit_class).
Qed.

Lemma sign_class (c : ascii) :
  in_class false [IChar "-"; IChar "+"] c = Ascii.eqb c "-" || Ascii.eqb c "+".
Proof. unfold in_class; simpl. now rewrite orb_false_r. Qed.

Lemma sign_is_no_digit (c : ascii) :
  Ascii.eqb c "-" || Ascii.eqb c "+" = true -> PyStr.isdigit c = false.
Proof.
  rewrite orb_true_iff, !Ascii.eqb_eq. intros [-> | ->]; reflexivity.
Qed.

Lemma int_literal_matches (t : string) :
  matches (Cat (Opt (Class false [IChar "-"; IChar "+"])) (Plus Pat.digit)) t
  <-> is_int_literal t = true.
Proof.
  rewrite cat_matches. unfold Opt. split.
  - intros (s1 & s2 & -> & H1 & H2).
    apply plus_digit_matches in H2.
    apply alt_matches in H1 as [H1 | H1].
    + apply class_matches in H1 as (c & -> & Hc).
      rewrite sign_class in Hc. simpl. now rewrite Hc.
    + apply eps_matches in H1; subst. simpl.
      destruct s2 as [|c s2]; [discriminate|]. simpl.
      destruct (Ascii.eqb c "-" || Ascii.eqb c "+") eqn:Hc; [|assumption].
      apply sign_is_no_digit in Hc.
      unfold is_digits in H2; simpl in H2. now rewrite Hc in H2.
  - destruct t as [|c t]; simpl; [discriminate|].
    destruct (Ascii.eqb c "-" || Ascii.eqb c "+") eqn:Hc; intros H.
    + exists (String c ""), t. split; [reflexivity|]. split.
      * apply MAltL. constructor. now rewrite sign_class.
      * now apply plus_digit_matches.
    + exists "", (String c t). split; [reflexivity|]. split.
      * apply MAltR. constructor.
      * now apply plus_digit_matches.
Qed.

Lemma int_const_matches (s : string) :
  matches Pat.INT_CONST s <->
  exists t, s = "int@" ++ t /\ is_int_literal t = true.
Proof.
  unfold Pat.INT_CONST. rewrite lit_cat_matches.
  split; intros (t & E & H); exists t; split; auto;
    now apply int_literal_matches.
Qed.

Lemma bool_const_matches (s : string) :
  matches Pat.BOOL_CONST s <-> s = "bool@true" \/ s = "bool@false".
Proof.
  unfold Pat.BOOL_CONST. rewrite lit_cat_matches. split.
  - intros (t & -> & H). apply alt_matches in H.
    rewrite !lit_matches in H. destruct H as [-> | ->]; auto.
  - intros [-> | ->]; [exists "true" | exists "false"];
      (split; [reflexivity|]); apply alt_matches; rewrite !lit_matches; auto.
Qed.

(** [\\[\d]{3}[^#\s\\]*]: one escape and the plain text after it. *)
Lemma escape_matches (s : string) :
  matches (Cat (Chr "\") (Cat (Rep 3 Pat.digit) (Star Pat.plain))) s <->
  exists d1 d2 d3 q,
    s = String "\" (String d1 (String d2 (String d3 q)))
    /\ PyStr.isdigit d1 = true /\ PyStr.isdigit d2 = true
    /\ PyStr.isdigit d3 = true /\ all_chars is_plain q = true.
Proof.
  rewrite chr_cat_matches. cbn [Rep]. unfold Pat.digit, Pat.plain. split.
  - intros (t & -> & H).
    apply cat_matches in H as (a & q & -> & Ha & Hq).
    apply cat_matches in Ha as (x1 & a1 & -> & H1 & Ha).
    apply cat_matches in Ha as (x2 & a2 & -> & H2 & Ha).
    apply cat_matches in Ha as (x3 & a3 & -> & H3 & Ha).
    apply eps_matches in Ha; subst a3.
    apply class_matches in H1 as (d1 & -> & D1).
    apply class_matches in H2 as (d2 & -> & D2).
    apply class_matches in H3 as (d3 & -> & D3).
    rewrite digit_class in D1, D2, D3.
    apply star_class_matches in Hq.
    rewrite (all_chars_ext _ _ q plain_class) in Hq.
    exists d1, d2, d3, q. simpl. auto.
  - intros (d1 & d2 & d3 & q & -> & D1 & D2 & D3 & Hq).
    exists (String d1 (String d2 (String d3 q))). split; [reflexivity|].
    change (String d1 (String d2 (String d3 q)))
      with ((String d1 "" ++ String d2 "" ++ String d3 "" ++ "") ++ q).
    constructor.
    + repeat (constructor; [constructor; now rewrite digit_class|]).
      constructor.
    + apply star_class_matches.
      now rewrite (all_chars_ext _ _ q plain_class).
Qed.

Lemma plain_is_no_backslash (c : ascii) :
  is_plain c = true -> Ascii.eqb c "\" = false.
Proof. unfold is_plain. destruct (Ascii.eqb c "\"); simpl; congruence. Qed.

Lemma plain_prefix (p e : string) :
  all_chars is_plain p = true ->
  is_string_literal (p ++ e) = is_string_literal e.
Proof.
  induction p as [|c p IH]; simpl; intros H; [reflexivity|].
  apply andb_true_iff in H as [Hc Hp].
  now rewrite (plain_is_no_backslash c Hc), Hc, IH.
Qed.

Lemma escapes_are_literal (r : regex) (e : string) :
  matches r e ->
  r = Star (Cat (Chr "\") (Cat (Rep 3 Pat.digit) (Star Pat.plain))) ->
  is_string_literal e = true.
Proof.
  induction 1 as [ | | | | | r0 | r0 s1 s2 H1 _ H2 IH2 ];
    intros E; try discriminate; [reflexivity|].
  inversion E; subst r0.
  apply escape_matches in H1
    as (d1 & d2 & d3 & q & -> & D1 & D2 & D3 & Hq).
  simpl. rewrite D1, D2, D3. simpl.
  rewrite (plain_prefix q s2 Hq). now apply IH2.
Qed.

Lemma literal_has_escapes (n : nat) :
  forall t, String.length t <= n -> is_string_literal t = true ->
  exists p e, t = p ++ e /\ all_chars is_plain p = true
              /\ matches (Star (Cat (Chr "\")
                                    (Cat (Rep 3 Pat.digit) (Star Pat.plain)))) e.
Proof.
  induction n as [|n IH]; intros t Hn Ht.
  - destruct t; [|simpl in Hn; lia].
    exists "", "". repeat split; constructor.
  - destruct t as [|c t]; [exists "", ""; repeat split; constructor|].
    simpl in Hn, Ht. destruct (Ascii.eqb c "\") eqn:Hc.
    + apply Ascii.eqb_eq in Hc; subst c.
      destruct t as [|d1 [|d2 [|d3 t]]]; try discriminate.
      apply andb_true_iff in Ht as [Ht Hrest].
      apply andb_true_iff in Ht as [Ht D3].
      apply andb_true_iff in Ht as [D1 D2].
      destruct (IH t) as (p & e & -> & Hp & He);
        [simpl in Hn; lia | assumption |].
      exists "", (String "\" (String d1 (String d2 (String d3 p))) ++ e).
      split; [reflexivity|]. split; [reflexivity|].
      constructor; [|assumption].
      apply escape_matches. exists d1, d2, d3, p. auto.
    + apply andb_true_iff in Ht as [Hp Hrest].
      destruct (IH t) as (p & e & -> & Hp' & He); [lia | assumption |].
      exists (String c p), e. split; [reflexivity|]. split; [|assumption].
      simpl. now rewrite Hp, Hp'.
Qed.

Lemma string_literal_matches (t : string) :
  matches (Cat (Star Pat.plain)
               (Star (Cat (Chr "\") (Cat (Rep 3 Pat.digit) (Star Pat.plain)))))
          t
  <-> is_string_literal t = true.
Proof.
  rewrite cat_matches. split.
  - intros (p & e & -> & Hp & He).
    apply star_class_matches in Hp.
    rewrite (all_chars_ext _ _ p plain_class) in Hp.
    rewrite (plain_prefix p e Hp).
    now apply (escapes_are_literal _ e He).
  - intros H.
    destruct (literal_has_escapes (String.length t) t (le_n _) H)
      as (p & e & -> & Hp & He).
    exists p, e. split; [reflexivity|]. split; [|assumption].
    apply star_class_matches.
    now rewrite (all_chars_ext _ _ p plain_class).
Qed.

Lemma string_const_matches (s : string) :
  matches Pat.STRING_CONST s <->
  exists t, s = "string@" ++ t /\ is_string_literal t = true.
Proof.
  unfold Pat.STRING_CONST. rewrite lit_cat_matches.
  split; intros (t & E & H); exists t; split; auto;
    now apply string_literal_matches.
Qed.

Lemma const_pattern_matches (s : string) :
  matches Pat.const_pattern s <->
  s = "nil@nil"
  \/ (exists t, s = "int@" ++ t /\ is_int_literal t = true)
  \/ (s = "bool@true" \/ s = "bool@false")
  \/ (exists t, s = "string@" ++ t /\ is_string_literal t = true).
Proof.
  unfold Pat.const_pattern, Pat.NIL_CONST.
  now rewrite !alt_matches, lit_matches, int_const_matches,
    bool_const_matches, string_const_matches.
Qed.

Theorem const_shape (s : string) :
  fullmatch Pat.const_pattern s = is_constant s.
Proof.
  apply bool_eq. rewrite fullmatch_spec, const_pattern_matches.
  unfold is_constant.
  rewrite !orb_true_iff, !String.eqb_eq, !after_prefix_true. tauto.
Qed.

End ShapeFacts.

(* ================================================================== *)
(** * The operand classifier *)
(* ================================================================== *)

Module Classifier.
Import Shape ShapeFacts.

(** [match_pattern] in terms of the four shapes, in priority order. *)
Lemma match_pattern_shapes (operand : string) (w : World) :
  match_pattern operand w =
  if is_constant operand then (Ok (mkToken Tconst operand), w)
  else if is_type_keyword operand then (Ok (mkToken Ttype operand), w)
  else if is_variable operand then (Ok (mkToken Tvar operand), w)
  else if is_label operand then (Ok (mkToken Tlabel operand), w)
  else (Raise PatternMismatchError, w).
Proof.
  unfold match_pattern.
  rewrite const_shape, type_shape, var_shape, label_shape.
  destruct (is_constant operand), (is_type_keyword operand),
    (is_variable operand), (is_label operand); reflexivity.
Qed.

(** The classifier reads the state and leaves it as it is. *)
Lemma match_pattern_state (operand : string) (w : World) :
  snd (match_pattern operand w) = w.
Proof.
  rewrite match_pattern_shapes.
  destruct (is_constant operand), (is_type_keyword operand),
    (is_variable operand), (is_label operand); reflexivity.
Qed.

(** A token the classifier made keeps the operand as its value, and it
    is a label only when the operand is no type keyword. *)
Lemma match_pattern_ok (operand : string) (w w' : World) (t : Token) :
  match_pattern operand w = (Ok t, w') ->
  token_value t = operand
  /\ (token_type t = Tlabel -> is_type_keyword operand = false)
  /\ (token_type t = Ttype -> is_type_keyword operand = true)
  /\ (token_type t = Tconst -> is_constant operand = true).
Proof.
  rewrite match_pattern_shapes.
  destruct (is_constant operand) eqn:C, (is_type_keyword operand) eqn:T,
    (is_variable operand), (is_label operand);
    intros H; inversion H; subst; simpl; repeat split; congruence.
Qed.

Lemma failure_means_no_shape (operand : string) (w : World) :
  fst (match_pattern operand w) = Raise PatternMismatchError ->
  is_constant operand = false /\ is_type_keyword operand = false
  /\ is_variable operand = false /\ is_label operand = false.
Proof.
  rewrite match_pattern_shapes.
  destruct (is_constant operand), (is_type_keyword operand),
    (is_variable operand), (is_label operand); simpl; intros H;
    try discriminate; auto.
Qed.

End Classifier.

(* ================================================================== *)
(** * Reasoning about computations of [M] *)
(* ================================================================== *)

Module MonadFacts.

Lemma bind_ok {A B} (c : M A) (k : A -> M B) (w w1 : World) (a : A) :
  c w = (Ok a, w1) -> bind c k w = k a w1.
Proof. unfold bind; now intros ->. Qed.

Lemma bind_raise {A B} (c : M A) (k : A -> M B) (w w1 : World) (e : error) :
  c w = (Raise e, w1) -> bind c k w = (Raise e, w1).
Proof. unfold bind; now intros ->. Qed.

(** A sequence that ends well: both parts did. *)
Lemma bind_inv_ok {A B} (c : M A) (k : A -> M B) (w w' : World) (b : B) :
  bind c k w = (Ok b, w') ->
  exists a w1, c w = (Ok a, w1) /\ k a w1 = (Ok b, w').
Proof.
  unfold bind. destruct (c w) as [[a|e] w1]; intros H.
  - now exists a, w1.
  - discriminate.
Qed.

Lemma bind_inv {A B} (c : M A) (k : A -> M B) (w w' : World)
  (r : result B) :
  bind c k w = (r, w') ->
  (exists a w1, c w = (Ok a, w1) /\ k a w1 = (r, w'))
  \/ (exists e, c w = (Raise e, w') /\ r = Raise e).
Proof.
  unfold bind. destruct (c w) as [[a|e] w1]; intros H.
  - left. now exists a, w1.
  - right. inversion H; subst. now exists e.
Qed.

Lemma keeps_ret {A X} (f : World -> X) (a : A) : keeps f (ret a).
Proof. intros w; reflexivity. Qed.

Lemma keeps_raise {A X} (f : World -> X) (e : error) : keeps f (@raise A e).
Proof. intros w; reflexivity. Qed.

Lemma keeps_get {X} (f : World -> X) : keeps f get.
Proof. intros w; reflexivity. Qed.

Lemma keeps_modify {X} (f : World -> X) (g : World -> World) :
  (forall w, f (g w) = f w) -> keeps f (modify g).
Proof. intros H w; apply H. Qed.

Lemma keeps_bind {A B X} (f : World -> X) (c : M A) (k : A -> M B) :
  keeps f c -> (forall a, keeps f (k a)) -> keeps f (bind c k).
Proof.
  intros Hc Hk w. unfold bind. specialize (Hc w).
  destruct (c w) as [[a|e] w1]; simpl in *.
  - now rewrite Hk.
  - assumption.
Qed.

Lemma never_ret {A} (bad : error -> bool) (a : A) : never bad (ret a).
Proof. intros w; reflexivity. Qed.

Lemma never_raise {A} (bad : error -> bool) (e : error) :
  bad e = false -> never bad (@raise A e).
Proof. intros H w; exact H. Qed.

Lemma never_get (bad : error -> bool) : never bad get.
Proof. intros w; reflexivity. Qed.

Lemma never_modify (bad : error -> bool) (g : World -> World) :
  never bad (modify g).
Proof. intros w; reflexivity. Qed.

Lemma never_bind {A B} (bad : error -> bool) (c : M A) (k : A -> M B) :
  never bad c -> (forall a, never bad (k a)) -> never bad (bind c k).
Proof.
  intros Hc Hk w. unfold raises, bind. specialize (Hc w).
  unfold raises in Hc. destruct (c w) as [[a|e] w1]; simpl in *.
  - apply Hk.
  - assumption.
Qed.

End MonadFacts.

(** One step of a proof that a computation keeps a part of the state or
    never raises an error: by the shape of the computation. *)
Ltac unfold_ops :=
  unfold write_nat, jump_count, after_equals;
  unfold when, print, file_do, incr_order, incr_loc, incr_comments, incr_eol,
    set_labels, set_jumps, set_used, set_stats.

Ltac keeps_step :=
  lazymatch goal with
  | |- keeps _ (bind _ _) =>
      apply MonadFacts.keeps_bind; [| intros ?]
  | |- keeps _ (ret _) => apply MonadFacts.keeps_ret
  | |- keeps _ (raise _) => apply MonadFacts.keeps_raise
  | |- keeps _ get => apply MonadFacts.keeps_get
  | |- keeps _ (modify _) =>
      apply MonadFacts.keeps_modify; intros ?; reflexivity
  | |- keeps _ (if ?b then _ else _) => destruct b
  | |- keeps _ (match ?x with _ => _ end) => destruct x
  end.

Ltac keeps_auto := unfold_ops; repeat (keeps_step || assumption).

Ltac never_step :=
  lazymatch goal with
  | |- never _ (bind _ _) =>
      apply MonadFacts.never_bind; [| intros ?]
  | |- never _ (ret _) => apply MonadFacts.never_ret
  | |- never _ (raise _) =>
      apply MonadFacts.never_raise; reflexivity
  | |- never _ get => apply MonadFacts.never_get
  | |- never _ (modify _) => apply MonadFacts.never_modify
  | |- never _ (if ?b then _ else _) => destruct b
  | |- never _ (match ?x with _ => _ end) => destruct x
  end.

Ltac never_auto := unfold_ops; repeat (never_step || assumption).

(* ================================================================== *)
(** * What the scanner changes *)
(* ================================================================== *)

Module ScanFacts.
Import MonadFacts.

Lemma instruction_orders_app (a b : list out_line) :
  instruction_orders (a ++ b)
  = (instruction_orders a ++ instruction_orders b)%list.
Proof.
  induction a as [|l a IH]; simpl; [reflexivity|].
  destruct l; simpl; now rewrite ?IH.
Qed.

Lemma match_all_state (args : list string) (w : World) :
  snd (match_all args w) = w.
Proof.
  induction args as [|a args IH]; simpl; [reflexivity|].
  unfold bind. pose proof (Classifier.match_pattern_state a w) as Ha.
  destruct (match_pattern a w) as [[t|e] w1]; simpl in *; subst; auto.
  destruct (match_all args w) as [[ts|e] w2]; simpl in *; subst; auto.
Qed.

Lemma check_patterns_state (i : nat) (pats : list role) (tokens : list Token)
  (w : World) : snd (check_patterns i pats tokens w) = w.
Proof.
  revert i; induction pats as [|p pats IH]; intros i; simpl; [reflexivity|].
  destruct (length tokens <=? i)%nat; [reflexivity|].
  destruct (nth_error tokens i); [|reflexivity].
  destruct (role_accepts p (token_type t)); [apply IH | reflexivity].
Qed.

(** The arguments printed do not touch the counters. *)
Lemma print_args_keeps {X} (f : World -> X) :
  (forall w l, f (mkWorld (stats w) (order w) (stdout w ++ [l]) (files w))
               = f w) ->
  forall n prev tokens, keeps f (print_args n prev tokens).
Proof.
  intros Hf n prev tokens; revert n prev.
  induction tokens as [|t tokens IH]; intros n prev; simpl.
  - apply keeps_ret.
  - destruct (decode_token prev t) as [[ty v]|]; [|apply keeps_raise].
    apply keeps_bind; [|intros _; apply IH].
    unfold print. apply keeps_modify. intros w; apply Hf.
Qed.

Lemma print_args_orders (n : nat) (prev : option (string * string))
  (tokens : list Token) : keeps printed_orders (print_args n prev tokens).
Proof.
  revert n prev; induction tokens as [|t tokens IH]; intros n prev; simpl.
  - apply keeps_ret.
  - destruct (decode_token prev t) as [[ty v]|]; [|apply keeps_raise].
    apply keeps_bind; [|intros _; apply IH].
    unfold print. apply keeps_modify. intros w.
    unfold printed_orders; simpl.
    now rewrite instruction_orders_app, app_nil_r.
Qed.

(** Counting the opcode changes the map of used instructions only. *)
Lemma count_usage_keeps {X} (f : World -> X) (opcode : string) :
  (forall d w, f (with_used d w) = f w) -> keeps f (count_usage opcode).
Proof.
  intros Hf w. unfold count_usage, bind, get.
  destruct (Dict.lookup opcode _); apply Hf.
Qed.

Lemma print_xml_keeps_loc (ia : instruction_array) :
  keeps (fun w => loc (stats w)) (print_xml ia).
Proof.
  destruct ia as [opcode tokens].
  unfold print_xml, record_label, record_jump. keeps_auto.
  1: apply count_usage_keeps; reflexivity.
  all: apply print_args_keeps; reflexivity.
Qed.

(** Printing an instruction takes the next order, whatever happens next. *)
Lemma print_xml_order (ia : instruction_array) (w : World) :
  order (snd (print_xml ia w)) = S (order w).
Proof.
  destruct ia as [opcode tokens]. unfold print_xml.
  unfold bind at 1. unfold incr_order at 1, modify at 1.
  match goal with
  | |- order (snd (?k ?w1)) = _ =>
      assert (K : keeps order k); [| now rewrite K]
  end.
  unfold record_label, record_jump. keeps_auto.
  1: apply count_usage_keeps; reflexivity.
  all: apply print_args_keeps; reflexivity.
Qed.

Lemma keeps_run {A X} (f : World -> X) (c : M A) (w w' : World)
  (r : result A) : keeps f c -> c w = (r, w') -> f w' = f w.
Proof. intros K H. specialize (K w). now rewrite H in K. Qed.

Lemma print_other_orders (l : out_line) :
  instruction_orders [l] = [] -> keeps printed_orders (print l).
Proof.
  intros Hl. unfold print. apply keeps_modify. intros w.
  unfold printed_orders; simpl.
  now rewrite instruction_orders_app, Hl, app_nil_r.
Qed.

Lemma print_xml_orders (ia : instruction_array) (w w' : World) :
  print_xml ia w = (Ok tt, w') ->
  printed_orders w' = (printed_orders w ++ [S (order w)])%list.
Proof.
  destruct ia as [opcode tokens]. unfold print_xml. intros H.
  apply bind_inv_ok in H as ([] & w1 & H1 & H).
  assert (E1 : order w1 = S (order w) /\ printed_orders w1 = printed_orders w)
    by (inversion H1; subst; auto).
  destruct E1 as [O1 P1]; clear H1.
  apply bind_inv_ok in H as ([] & w2 & H2 & H).
  apply bind_inv_ok in H as ([] & w3 & H3 & H).
  apply bind_inv_ok in H as ([] & w4 & H4 & H).
  apply bind_inv_ok in H as (w0 & w4' & H5 & H).
  inversion H5; subst w0 w4'; clear H5.
  apply bind_inv_ok in H as ([] & w5 & H5 & H).
  apply bind_inv_ok in H as ([] & w6 & H6 & H).
  assert (K2 : printed_orders w2 = printed_orders w1 /\ order w2 = order w1).
  { split; [eapply (keeps_run printed_orders) | eapply (keeps_run order)];
      try exact H2; apply count_usage_keeps; reflexivity. }
  assert (K3 : printed_orders w3 = printed_orders w2 /\ order w3 = order w2).
  { split; [eapply (keeps_run printed_orders) | eapply (keeps_run order)];
      try exact H3; unfold record_label; keeps_auto.
    apply (print_other_orders DuplicateLabelText); reflexivity. }
  assert (K4 : printed_orders w4 = printed_orders w3 /\ order w4 = order w3).
  { split; [eapply (keeps_run printed_orders) | eapply (keeps_run order)];
      try exact H4; unfold record_jump; keeps_auto. }
  assert (K5 : printed_orders w5 = (printed_orders w4 ++ [order w4])%list).
  { inversion H5; subst w5. unfold printed_orders; simpl.
    now rewrite instruction_orders_app. }
  assert (K6 : printed_orders w6 = printed_orders w5).
  { eapply (keeps_run printed_orders); [|exact H6]. apply print_args_orders. }
  assert (K7 : printed_orders w' = printed_orders w6).
  { eapply (keeps_run printed_orders); [|exact H].
    apply (print_other_orders InstructionClose); reflexivity. }
  destruct K2, K3, K4. congruence.
Qed.

Lemma keeps_of_state {A X} (f : World -> X) (c : M A) :
  (forall w, snd (c w) = w) -> keeps f c.
Proof. intros H w. now rewrite H. Qed.

Lemma match_all_keeps {X} (f : World -> X) (args : list string) :
  keeps f (match_all args).
Proof. apply keeps_of_state, match_all_state. Qed.

Lemma check_patterns_keeps {X} (f : World -> X) (i : nat) (pats : list role)
  (tokens : list Token) : keeps f (check_patterns i pats tokens).
Proof. apply keeps_of_state, check_patterns_state. Qed.

(** An accepted instruction takes the next order and prints it. *)
Lemma parse_instruction_ok (ia : instruction_array) (w w' : World) :
  parse_instruction ia w = (Ok tt, w') ->
  order w' = S (order w)
  /\ printed_orders w' = (printed_orders w ++ [S (order w)])%list.
Proof.
  destruct ia as [opcode tokens]. unfold parse_instruction.
  destruct (signature opcode) as [pats|]; [|discriminate]. intros H.
  apply bind_inv_ok in H as ([] & w1 & H1 & H).
  pose proof (check_patterns_state 0 pats tokens w) as S1.
  rewrite H1 in S1; simpl in S1; subst w1.
  apply bind_inv_ok in H as ([] & w2 & H2 & H).
  destruct (length pats <? length tokens)%nat; [discriminate|].
  inversion H2; subst w2. split.
  - pose proof (print_xml_order (opcode, tokens) w) as O. now rewrite H in O.
  - now apply (print_xml_orders (opcode, tokens)).
Qed.

Lemma validate_ok (opcode args : string) (w w' : World) :
  validate opcode args w = (Ok tt, w') ->
  order w' = S (order w)
  /\ printed_orders w' = (printed_orders w ++ [S (order w)])%list.
Proof.
  unfold validate. destruct (signature opcode); [|discriminate]. intros H.
  apply bind_inv_ok in H as (tokens & w1 & H1 & H).
  pose proof (match_all_state (PyStr.split_ws args) w) as S1.
  rewrite H1 in S1; simpl in S1; subst w1.
  now apply parse_instruction_ok in H.
Qed.

Lemma instruction_scan_ok (instruction : string) (w w' : World) :
  PyStr.startswith "#" instruction = false ->
  is_empty (PyStr.strip instruction) = false ->
  instruction_scan instruction w = (Ok tt, w') ->
  order w' = S (order w)
  /\ printed_orders w' = (printed_orders w ++ [S (order w)])%list.
Proof.
  intros Hc He. unfold instruction_scan. rewrite Hc, He. cbn [orb]. intros H.
  apply bind_inv_ok in H as ([] & w1 & H1 & H).
  assert (E : order w1 = order w /\ printed_orders w1 = printed_orders w).
  { split.
    - eapply (keeps_run order); [|exact H1]. keeps_auto.
    - eapply (keeps_run printed_orders); [|exact H1]. keeps_auto. }
  destruct E as [E1 E2].
  destruct (PyStr.split_ws1 _) as [|opcode more]; [discriminate|].
  apply validate_ok in H. now rewrite E1, E2 in H.
Qed.

Lemma instruction_scan_keeps_loc (instruction : string) :
  keeps (fun w => loc (stats w)) (instruction_scan instruction).
Proof.
  unfold instruction_scan, validate, parse_instruction. keeps_auto.
  - apply match_all_keeps.
  - apply check_patterns_keeps.
  - apply print_xml_keeps_loc.
Qed.

(** After the header, every line that is kept and accepted takes the
    next order and counts as one instruction. *)
Lemma read_lines_ok (lines : list string) :
  forall w w', read_lines false lines w = (Ok tt, w') ->
  order w' = order w + length (kept lines)
  /\ loc (stats w') = loc (stats w) + length (kept lines)
  /\ printed_orders w'
     = (printed_orders w ++ seq (S (order w)) (length (kept lines)))%list.
Proof.
  induction lines as [|raw rest IH]; intros w w' H.
  - inversion H; subst. simpl. now rewrite !Nat.add_0_r, app_nil_r.
  - cbn [read_lines] in H. unfold kept; cbn [filter]. fold (kept rest).
    unfold is_discarded.
    apply bind_inv_ok in H as ([] & w1 & H1 & H).
    assert (E : order w1 = order w /\ loc (stats w1) = loc (stats w)
                /\ printed_orders w1 = printed_orders w)
      by (inversion H1; subst; auto).
    destruct E as (O1 & L1 & P1); clear H1.
    destruct (PyStr.startswith "#" (PyStr.strip raw)) eqn:Hc.
    + rewrite orb_true_r. cbn [negb].
      apply bind_inv_ok in H as ([] & w2 & H2 & H).
      assert (E : order w2 = order w1 /\ loc (stats w2) = loc (stats w1)
                  /\ printed_orders w2 = printed_orders w1)
        by (inversion H2; subst; auto).
      destruct E as (O2 & L2 & P2).
      apply IH in H. rewrite O2, L2, P2, O1, L1, P1 in H. exact H.
    + rewrite orb_false_r.
      destruct (is_empty (PyStr.strip raw)) eqn:He; cbn [negb].
      * apply IH in H. rewrite O1, L1, P1 in H. exact H.
      * apply bind_inv_ok in H as ([] & w2 & H2 & H).
        assert (E : order w2 = order w1
                    /\ loc (stats w2) = S (loc (stats w1))
                    /\ printed_orders w2 = printed_orders w1)
          by (inversion H2; subst; auto).
        destruct E as (O2 & L2 & P2); clear H2.
        apply bind_inv_ok in H as ([] & w3 & H3 & H).
        pose proof (keeps_run _ _ _ _ _
                      (instruction_scan_keeps_loc (PyStr.strip raw)) H3) as L3.
        simpl in L3.
        apply instruction_scan_ok in H3 as [O3 P3];
          [| assumption | now rewrite StrFacts.strip_idem].
        apply IH in H as (O & L & P).
        cbn [length seq].
        rewrite O, L, P, O3, P3, L3, O2, L2, P2, O1, L1, P1.
        rewrite <- app_assoc. cbn [app].
        repeat split; lia.
Qed.

Lemma read_lines_first_ok (stdin : list string) (w w' : World) :
  read_lines true stdin w = (Ok tt, w') ->
  order w' = order w + length (instruction_lines stdin)
  /\ loc (stats w') = loc (stats w) + length (instruction_lines stdin)
  /\ printed_orders w'
     = (printed_orders w
        ++ seq (S (order w)) (length (instruction_lines stdin)))%list.
Proof.
  destruct stdin as [|raw rest]; unfold instruction_lines; cbn [tl].
  - intros H; inversion H; subst. simpl.
    now rewrite !Nat.add_0_r, app_nil_r.
  - cbn [read_lines]. intros H.
    apply bind_inv_ok in H as ([] & w1 & H1 & H).
    assert (E : order w1 = order w /\ loc (stats w1) = loc (stats w)
                /\ printed_orders w1 = printed_orders w)
      by (inversion H1; subst; auto).
    destruct E as (O1 & L1 & P1).
    destruct (negb (PyStr.strip raw =? ".IPPcode24")%string); [discriminate|].
    apply read_lines_ok in H. now rewrite O1, L1, P1 in H.
Qed.

(** The scan of a whole input that raises no error. *)
Lemma scan_input_ok (stdin : list string) (w w' : World) :
  scan_input stdin w = (Ok tt, w') ->
  order w' = order w + length (instruction_lines stdin)
  /\ loc (stats w') = loc (stats w) + length (instruction_lines stdin)
  /\ printed_orders w'
     = (printed_orders w
        ++ seq (S (order w)) (length (instruction_lines stdin)))%list.
Proof.
  unfold scan_input. intros H.
  apply bind_inv_ok in H as ([] & w1 & H1 & H).
  apply bind_inv_ok in H as ([] & w2 & H2 & H).
  apply bind_inv_ok in H as ([] & w3 & H3 & H).
  assert (E : order w2 = order w /\ loc (stats w2) = loc (stats w)
              /\ printed_orders w2 = printed_orders w).
  { inversion H1; subst w1. inversion H2; subst w2.
    unfold printed_orders; simpl.
    now rewrite !instruction_orders_app, !app_nil_r. }
  destruct E as (O2 & L2 & P2).
  apply read_lines_first_ok in H3 as (O3 & L3 & P3).
  inversion H; subst w'. unfold printed_orders in *; simpl.
  rewrite instruction_orders_app, app_nil_r.
  now rewrite O3, L3, P3, O2, L2, P2.
Qed.

End ScanFacts.

(* ================================================================== *)
(** * What the arguments and the report change *)
(* ================================================================== *)

Module MainFacts.
Import MonadFacts ScanFacts.

Lemma after_equals_state (arg : string) (w : World) :
  snd (after_equals arg w) = w.
Proof. unfold after_equals. now destruct (nth_error _ 1). Qed.

Lemma collect_stats_files_state (args : list string) :
  forall acc w, snd (collect_stats_files acc args w) = w.
Proof.
  induction args as [|arg rest IH]; intros acc w; cbn [collect_stats_files];
    [reflexivity|].
  destruct (PyStr.startswith "--stats=" arg).
  - unfold bind. pose proof (after_equals_state arg w) as E.
    destruct (after_equals arg w) as [[x|e] w1]; cbn [snd] in *; subst; auto.
  - destruct (arg =? "--stats")%string; [reflexivity | apply IH].
Qed.

(** Arguments that pass the checks leave the state as it was. *)
Lemma check_arguments_ok (args : list string) (w w' : World) :
  check_arguments args w = (Ok tt, w') -> w' = w.
Proof.
  unfold check_arguments. intros H.
  apply bind_inv_ok in H as ([] & w1 & H1 & H).
  apply bind_inv_ok in H as (fs & w2 & H2 & H).
  assert (E1 : w1 = w).
  { unfold check_help in H1. destruct (index_of "--help" args).
    - destruct (negb (n =? 0)%nat || (1 <? length args)%nat);
        [discriminate|].
      apply bind_inv_ok in H1 as ([] & ? & _ & H1). discriminate.
    - now inversion H1. }
  subst w1.
  pose proof (collect_stats_files_state args [] w) as E2.
  rewrite H2 in E2; simpl in E2; subst w2.
  unfold check_duplicates in H.
  destruct (negb _); [discriminate | now inversion H].
Qed.

Lemma analyse_jumps_state (args : list string) (w : World) :
  snd (analyse_jumps args w) = w.
Proof.
  unfold analyse_jumps. destruct args as [|arg0 rest]; [reflexivity|].
  now destruct (negb (PyStr.startswith "--help" arg0)).
Qed.

Section Report.
Context {X : Type} (f : World -> X) (Hf : ignores_report f).

Lemma set_used_keeps (d : dict) : keeps f (set_used d).
Proof. intros w. apply (proj1 Hf d w). Qed.

Lemma file_do_keeps (e : file_event) : keeps f (file_do e).
Proof. intros w. apply (proj2 Hf e w). Qed.

Lemma frequent_loop_keeps (fuel : nat) :
  forall threshold cap buffer,
    keeps f (frequent_loop fuel threshold cap buffer).
Proof.
  induction fuel as [|fuel IH]; intros threshold cap buffer; simpl;
    destruct (below cap threshold); try apply keeps_ret;
    [apply keeps_raise|].
  apply keeps_bind; [apply keeps_get | intros w0].
  destruct (max_of _); [|apply keeps_raise].
  destruct (keys_with _ _); [apply keeps_raise|].
  apply keeps_bind; [apply set_used_keeps | intros _; apply IH].
Qed.

Lemma frequent_keeps : keeps f frequent.
Proof.
  unfold frequent. apply keeps_bind; [apply keeps_get | intros w0].
  apply keeps_bind; [apply frequent_loop_keeps | intros b; apply keeps_ret].
Qed.

Lemma write_nat_keeps (file : string) (n : nat) : keeps f (write_nat file n).
Proof. apply file_do_keeps. Qed.

Lemma write_stats_keeps (args : list string) :
  forall file counts, keeps f (write_stats file counts args).
Proof.
  induction args as [|arg rest IH]; intros file counts; cbn [write_stats];
    [apply keeps_ret|].
  destruct (PyStr.startswith "--stats=" arg).
  - apply keeps_bind; [apply keeps_of_state, after_equals_state|].
    intros filename. apply keeps_bind; [apply file_do_keeps|].
    intros _; apply IH.
  - apply keeps_bind; [|intros _; apply IH].
    repeat match goal with
           | |- keeps _ (if ?b then _ else _) => destruct b
           | |- keeps _ (bind get _) =>
               apply keeps_bind; [apply keeps_get | intros ?]
           | |- keeps _ (write_nat _ _) => apply write_nat_keeps
           | |- keeps _ (file_do _) => apply file_do_keeps
           | |- keeps _ (raise _) => apply keeps_raise
           | |- keeps _ (bind (jump_count _ _) _) =>
               apply keeps_bind;
               [unfold jump_count; destruct counts;
                [apply keeps_ret | apply keeps_raise] | intros ?]
           | |- keeps _ (bind (after_equals _) _) =>
               apply keeps_bind;
               [apply keeps_of_state, after_equals_state | intros ?]
           | |- keeps _ (bind frequent _) =>
               apply keeps_bind; [apply frequent_keeps | intros ?]
           | |- keeps _ (bind (file_do _) _) =>
               apply keeps_bind; [apply file_do_keeps | intros ?]
           end.
Qed.

Lemma report_keeps (args : list string) (counts : option (nat * nat * nat)) :
  keeps f (report args counts).
Proof.
  unfold report. destruct args as [|arg0 rest]; [apply keeps_ret|].
  destruct (PyStr.startswith "--stats=" arg0); [|apply keeps_ret].
  apply keeps_bind; [apply keeps_of_state, after_equals_state|].
  intros filename. apply keeps_bind; [apply file_do_keeps|].
  intros _; apply write_stats_keeps.
Qed.

End Report.

Lemma order_ignores_report : ignores_report order.
Proof. split; reflexivity. Qed.

Lemma stdout_ignores_report : ignores_report stdout.
Proof. split; reflexivity. Qed.

Lemma loc_ignores_report : ignores_report (fun w => loc (stats w)).
Proof. split; reflexivity. Qed.

(** A run that ends well: the state after the scan, and the state at the
    end, which the report made from it. *)
Lemma run_ok (args stdin : list string) (w : World) :
  run args stdin = (Ok tt, w) ->
  exists w1 counts,
    scan_input stdin init_world = (Ok tt, w1)
    /\ report args counts w1 = (Ok tt, w).
Proof.
  unfold run, main. intros H.
  apply bind_inv_ok in H as ([] & w0 & H0 & H).
  apply check_arguments_ok in H0; subst w0.
  apply bind_inv_ok in H as ([] & w1 & H1 & H).
  apply bind_inv_ok in H as (counts & w2 & H2 & H).
  pose proof (analyse_jumps_state args w1) as E.
  rewrite H2 in E; simpl in E; subst w2.
  now exists w1, counts.
Qed.

End MainFacts.

(* ================================================================== *)
(** * Where the header error comes from *)
(* ================================================================== *)

Module HeaderFacts.
Import MonadFacts.

Abbreviation no_header_error := (never is_header_error).

Lemma match_pattern_no_header (operand : string) :
  no_header_error (match_pattern operand).
Proof. unfold match_pattern. never_auto. Qed.

Lemma match_all_no_header (args : list string) :
  no_header_error (match_all args).
Proof.
  induction args as [|a args IH]; cbn [match_all]; never_auto.
  apply match_pattern_no_header.
Qed.

Lemma check_patterns_no_header (pats : list role) (tokens : list Token) :
  forall i, no_header_error (check_patterns i pats tokens).
Proof.
  induction pats as [|p pats IH]; intros i; cbn [check_patterns]; never_auto.
  apply IH.
Qed.

Lemma print_args_no_header (tokens : list Token) :
  forall n prev, no_header_error (print_args n prev tokens).
Proof.
  induction tokens as [|t tokens IH]; intros n prev; cbn [print_args];
    never_auto.
  apply IH.
Qed.

Lemma instruction_scan_no_header (instruction : string) :
  no_header_error (instruction_scan instruction).
Proof.
  unfold instruction_scan, validate, parse_instruction, print_xml,
    count_usage, record_label, record_jump.
  never_auto;
    first [apply match_all_no_header | apply check_patterns_no_header
          | apply print_args_no_header].
Qed.

Lemma read_lines_no_header (lines : list string) :
  no_header_error (read_lines false lines).
Proof.
  induction lines as [|raw rest IH]; cbn [read_lines]; never_auto.
  apply instruction_scan_no_header.
Qed.

Lemma collect_stats_files_no_header (args : list string) :
  forall acc, no_header_error (collect_stats_files acc args).
Proof.
  induction args as [|arg rest IH]; intros acc; cbn [collect_stats_files];
    never_auto; apply IH.
Qed.

Lemma check_arguments_no_header (args : list string) :
  no_header_error (check_arguments args).
Proof.
  unfold check_arguments, check_help, check_duplicates. never_auto.
  apply collect_stats_files_no_header.
Qed.

Lemma frequent_loop_no_header (fuel : nat) :
  forall threshold cap buffer,
    no_header_error (frequent_loop fuel threshold cap buffer).
Proof.
  induction fuel as [|fuel IH]; intros threshold cap buffer;
    cbn [frequent_loop]; never_auto.
  apply IH.
Qed.

Lemma write_stats_no_header (args : list string) :
  forall file counts, no_header_error (write_stats file counts args).
Proof.
  induction args as [|arg rest IH]; intros file counts; cbn [write_stats];
    unfold frequent; never_auto;
    first [apply IH | apply frequent_loop_no_header].
Qed.

Lemma report_no_header (args : list string) (counts : option (nat * nat * nat)) :
  no_header_error (report args counts).
Proof. unfold report. never_auto. apply write_stats_no_header. Qed.

Lemma analyse_jumps_no_header (args : list string) :
  no_header_error (analyse_jumps args).
Proof. unfold analyse_jumps, classify_jumps. never_auto. Qed.

(** A header on the first line: the scan raises no header error. *)
Lemma scan_input_no_header (stdin : list string) :
  first_line_of stdin = Some ".IPPcode24" ->
  no_header_error (scan_input stdin).
Proof.
  destruct stdin as [|raw rest]; [discriminate|]. cbn [first_line_of].
  intros H; inversion H as [E]. unfold scan_input. cbn [read_lines].
  rewrite E. cbn [String.eqb Ascii.eqb Bool.eqb negb]. never_auto.
  apply read_lines_no_header.
Qed.

(** Another first line: the scan stops with the header error after it has
    counted the line and before any instruction. *)
Lemma scan_input_header_error (stdin : list string) (line : string) (w : World) :
  first_line_of stdin = Some line -> line <> ".IPPcode24" ->
  scan_input stdin w
  = (Raise HeaderError,
     mkWorld (mkStats (loc (stats w)) (comments (stats w)) (labels (stats w))
                      (jumps (stats w)) (used_instructions (stats w))
                      (S (eol (stats w))))
             (order w) (stdout w ++ [XmlDecl; ProgramOpen]) (files w)).
Proof.
  destruct stdin as [|raw rest]; [discriminate|]. cbn [first_line_of].
  intros H; inversion H; subst line. intros Hne.
  apply String.eqb_neq in Hne.
  unfold scan_input. cbn [read_lines].
  unfold bind, print, incr_eol, set_stats, modify. cbn.
  rewrite Hne. cbn. now rewrite <- app_assoc.
Qed.

(** The first line that is kept is the first line or comes after it. *)
Lemma first_kept_is_not_header (stdin : list string) (line : string) :
  first_kept_line stdin = Some line -> line <> ".IPPcode24" ->
  exists first, first_line_of stdin = Some first /\ first <> ".IPPcode24".
Proof.
  destruct stdin as [|raw rest]; [discriminate|].
  cbn [first_kept_line first_line_of]. unfold is_discarded.
  intros H Hne. exists (PyStr.strip raw). split; [reflexivity|].
  intros E. rewrite E in H. cbn in H. inversion H. congruence.
Qed.

End HeaderFacts.

(* ================================================================== *)
(** * The instruction validator *)
(* ================================================================== *)

Module ValidatorFacts.
Import MonadFacts.

Lemma signature_in_none (table : list (string * list role)) (opcode : string) :
  signature_in table opcode = None <-> ~ In opcode (map fst table).
Proof.
  induction table as [|[k v] table IH]; simpl; [tauto|].
  destruct (String.eqb_spec opcode k) as [->|Hne].
  - split; [discriminate | intros H; elim H; now left].
  - rewrite IH. split; [intros H [E|E]; [congruence | tauto] | tauto].
Qed.

Lemma signature_in_some (table : list (string * list role)) (opcode : string)
  (pats : list role) :
  signature_in table opcode = Some pats -> In (opcode, pats) table.
Proof.
  induction table as [|[k v] table IH]; simpl; [discriminate|].
  destruct (String.eqb_spec opcode k) as [->|Hne].
  - intros H; inversion H; now left.
  - intros H; right; auto.
Qed.

(** An opcode that is not in the table stops the validator before any
    operand is looked at. *)
Lemma validate_unknown (opcode args : string) (w : World) :
  ~ In opcode (map fst instruction_dict) ->
  validate opcode args w = (Raise UnknownOpcodeError, w).
Proof.
  intros H. apply signature_in_none in H.
  unfold validate, signature. now rewrite H.
Qed.

Lemma instruction_scan_unknown (instruction opcode : string)
  (more : list string) (w : World) :
  PyStr.startswith "#" instruction = false ->
  is_empty (PyStr.strip instruction) = false ->
  PyStr.split_ws1 (PyStr.strip (hd EmptyString (PyStr.split1 "#" instruction)))
  = opcode :: more ->
  ~ In opcode (map fst instruction_dict) ->
  fst (instruction_scan instruction w) = Raise UnknownOpcodeError.
Proof.
  intros Hc He Hs Hn. unfold instruction_scan. rewrite Hc, He, Hs. cbn [orb].
  unfold bind.
  destruct (when _ incr_comments w) as [[[]|e] w1] eqn:E.
  - now rewrite validate_unknown.
  - unfold when, incr_comments, set_stats, modify in E.
    destruct (1 <? _)%nat; discriminate.
Qed.

End ValidatorFacts.

(* ================================================================== *)
(** * The decoding of constants *)
(* ================================================================== *)

Module DecodeFacts.
Import Shape ShapeFacts StrFacts.

(** A constant other than nil@nil is decoded to its sub-kind and to the
    text after the prefix, and the two give the operand back. *)
Lemma decode_round_trip (operand : string) (prev : option (string * string)) :
  is_constant operand = true -> operand <> "nil@nil" ->
  exists kind value,
    decode_token prev (mkToken Tconst operand) = Some (kind, value)
    /\ (kind ++ "@" ++ value)%string = operand
    /\ kind = subkind_of operand
    /\ In kind ["int"; "bool"; "string"].
Proof.
  intros Hc Hn. rewrite <- const_shape in Hc.
  apply ReFacts.fullmatch_spec, const_pattern_matches in Hc.
  destruct Hc as [-> | [(t & -> & _) | [[-> | ->] | (t & -> & _)]]].
  - congruence.
  - exists "int", t.
    split; [reflexivity | split; [reflexivity | split; [reflexivity | simpl; auto]]].
  - exists "bool", "true".
    split; [reflexivity | split; [reflexivity | split; [reflexivity | simpl; auto]]].
  - exists "bool", "false".
    split; [reflexivity | split; [reflexivity | split; [reflexivity | simpl; auto]]].
  - exists "string", t.
    split; [reflexivity | split; [reflexivity | split; [reflexivity | simpl; auto]]].
Qed.

(** The constant nil@nil takes none of the branches of the decoding. *)
Lemma decode_nil (prev : option (string * string)) :
  decode_token prev (mkToken Tconst "nil@nil") = prev.
Proof. reflexivity. Qed.

End DecodeFacts.

(* ================================================================== *)
(** * Type keywords are never labels *)
(* ================================================================== *)

Module LabelFacts.
Import MonadFacts ScanFacts.

Lemma keyword_is_type (x : string) (w : World) :
  In x type_keywords -> match_pattern x w = (Ok (mkToken Ttype x), w).
Proof.
  simpl. intros [<- | [<- | [<- | []]]]; reflexivity.
Qed.

Lemma not_keyword (x : string) :
  Shape.is_type_keyword x = false -> ~ In x type_keywords.
Proof.
  unfold Shape.is_type_keyword. simpl.
  intros H [<- | [<- | [<- | []]]]; discriminate.
Qed.

(** In the table a label is the first operand, of five opcodes. *)
Lemma label_position (opcode : string) (pats : list role) (i : nat) :
  signature opcode = Some pats -> nth_error pats i = Some Rlabel ->
  i = 0 /\ In opcode label_opcodes.
Proof.
  intros H Hi. apply ValidatorFacts.signature_in_some in H.
  unfold instruction_dict in H. simpl in H.
  repeat (destruct H as [H|H];
          [inversion H; subst; clear H;
           destruct i as [|[|[|i]]]; simpl in Hi; try discriminate;
           try (destruct i; discriminate); simpl; tauto |]).
  destruct H.
Qed.

Lemma label_opcode_signature (opcode : string) :
  In opcode label_opcodes -> exists rest, signature opcode = Some (Rlabel :: rest).
Proof.
  simpl. intros [<- | [<- | [<- | [<- | [<- | []]]]]];
    eexists; reflexivity.
Qed.

(** The role check of the first operand. *)
Lemma check_patterns_head (p : role) (pats : list role) (t : Token)
  (rest : list Token) (w w' : World) :
  check_patterns 0 (p :: pats) (t :: rest) w = (Ok tt, w') ->
  role_accepts p (token_type t) = true.
Proof.
  cbn [check_patterns length Nat.leb nth_error].
  destruct (role_accepts p (token_type t)); [reflexivity | discriminate].
Qed.

Lemma role_mismatch_on_keyword (opcode : string) (pats : list role) (i : nat)
  (x : string) (tokens : list Token) (w : World) :
  signature opcode = Some pats -> nth_error pats i = Some Rlabel ->
  In x type_keywords ->
  nth_error tokens i = Some (mkToken Ttype x) ->
  parse_instruction (opcode, tokens) w
  = (Raise (RoleMismatchError (i + 1) Rlabel), w).
Proof.
  intros Hs Hi Hx Ht.
  destruct (label_position opcode pats i Hs Hi) as [-> _].
  unfold parse_instruction. rewrite Hs.
  destruct pats as [|p pats]; [discriminate|].
  destruct tokens as [|t rest]; [discriminate|].
  simpl in Hi, Ht. inversion Hi; subst p. inversion Ht; subst t.
  reflexivity.
Qed.

Lemma mem_set (x k : string) (v : nat) (d : dict) :
  Dict.mem x (Dict.set k v d) = (String.eqb x k || Dict.mem x d)%bool.
Proof.
  unfold Dict.mem. induction d as [|[k' v'] d IH]; simpl.
  - now destruct (String.eqb x k).
  - destruct (String.eqb_spec k k') as [->|Hk]; simpl.
    + destruct (String.eqb x k'); reflexivity.
    + destruct (String.eqb_spec x k') as [->|Hx].
      * now rewrite orb_true_r.
      * exact IH.
Qed.

Lemma mem_set_other (x k : string) (v : nat) (d : dict) :
  x <> k -> Dict.mem x d = false -> Dict.mem x (Dict.set k v d) = false.
Proof.
  intros Hne H. rewrite mem_set, H.
  apply String.eqb_neq in Hne. now rewrite Hne.
Qed.

Lemma clean_same (w w' : World) :
  labels (stats w') = labels (stats w) ->
  jumps (stats w') = jumps (stats w) -> clean w -> clean w'.
Proof. unfold clean. intros -> ->. auto. Qed.

Lemma preserves_bind {A B} (P : World -> Prop) (c : M A) (k : A -> M B) :
  preserves P c -> (forall a, preserves P (k a)) -> preserves P (bind c k).
Proof.
  intros Hc Hk w Hw. unfold bind. specialize (Hc w Hw).
  destruct (c w) as [[a|e] w1]; simpl in *; [now apply Hk | assumption].
Qed.

Lemma preserves_clean_of_keeps {A} (c : M A) :
  keeps (fun w => labels (stats w)) c -> keeps (fun w => jumps (stats w)) c ->
  preserves clean c.
Proof. intros KL KJ w Hw. apply (clean_same w); auto. Qed.

Lemma record_label_clean (opcode : string) (tokens : list Token) :
  (forall t rest, tokens = t :: rest -> ~ In (token_value t) type_keywords) ->
  preserves clean (record_label opcode tokens).
Proof.
  intros Hsafe w Hw. unfold record_label.
  destruct (opcode =? "LABEL")%string; [|exact Hw].
  destruct tokens as [|t rest]; [exact Hw|].
  unfold bind, get.
  destruct (Dict.mem (token_value t) (labels (stats w))); [exact Hw|].
  intros x Hx. destruct (Hw x Hx) as [HL HJ]. simpl. split; [|exact HJ].
  apply mem_set_other; [|exact HL].
  intros ->. exact (Hsafe t rest eq_refl Hx).
Qed.

Lemma record_jump_clean (opcode : string) (tokens : list Token) :
  (forall t rest, tokens = t :: rest -> ~ In (token_value t) type_keywords) ->
  preserves clean (record_jump opcode tokens).
Proof.
  intros Hsafe w Hw. unfold record_jump.
  destruct (existsb (String.eqb opcode) jump_opcodes); [|exact Hw].
  destruct tokens as [|t rest]; [exact Hw|].
  unfold bind, get.
  intros x Hx. destruct (Hw x Hx) as [HL HJ]. simpl. split; [exact HL|].
  apply mem_set_other; [|exact HJ].
  intros ->. exact (Hsafe t rest eq_refl Hx).
Qed.

Lemma record_label_other (opcode : string) (tokens : list Token) (w : World) :
  ~ In opcode label_opcodes -> record_label opcode tokens w = (Ok tt, w).
Proof.
  intros H. unfold record_label.
  destruct (String.eqb_spec opcode "LABEL") as [->|_]; [|reflexivity].
  elim H. simpl; auto.
Qed.

Lemma record_jump_other (opcode : string) (tokens : list Token) (w : World) :
  ~ In opcode label_opcodes -> record_jump opcode tokens w = (Ok tt, w).
Proof.
  intros H. unfold record_jump, jump_opcodes. cbn [existsb].
  repeat match goal with
         | |- context [String.eqb opcode ?k] =>
             destruct (String.eqb_spec opcode k) as [->|_];
             [elim H; simpl; tauto|]
         end.
  reflexivity.
Qed.

(** Printing an instruction keeps the maps clean when the first operand of
    an opcode with a label is no type keyword. *)
Lemma print_xml_clean (opcode : string) (tokens : list Token) :
  (In opcode label_opcodes ->
   forall t rest, tokens = t :: rest -> ~ In (token_value t) type_keywords) ->
  preserves clean (print_xml (opcode, tokens)).
Proof.
  intros Hsafe. unfold print_xml.
  destruct (in_dec string_dec opcode label_opcodes) as [Hin|Hout].
  - specialize (Hsafe Hin).
    apply preserves_bind;
      [apply preserves_clean_of_keeps; keeps_auto | intros _].
    apply preserves_bind;
      [apply preserves_clean_of_keeps; apply count_usage_keeps; reflexivity
      | intros _].
    apply preserves_bind; [now apply record_label_clean | intros _].
    apply preserves_bind; [now apply record_jump_clean | intros _].
    apply preserves_clean_of_keeps; keeps_auto;
      apply print_args_keeps; reflexivity.
  - apply preserves_bind;
      [apply preserves_clean_of_keeps; keeps_auto | intros _].
    apply preserves_bind;
      [apply preserves_clean_of_keeps; apply count_usage_keeps; reflexivity
      | intros _].
    apply preserves_bind;
      [intros w Hw; now rewrite record_label_other | intros _].
    apply preserves_bind;
      [intros w Hw; now rewrite record_jump_other | intros _].
    apply preserves_clean_of_keeps; keeps_auto;
      apply print_args_keeps; reflexivity.
Qed.

Lemma label_role_is_label (t : ttype) :
  role_accepts Rlabel t = true -> t = Tlabel.
Proof. destruct t; simpl; congruence. Qed.

Lemma parse_instruction_clean (opcode : string) (tokens : list Token) :
  Forall label_safe tokens ->
  preserves clean (parse_instruction (opcode, tokens)).
Proof.
  intros Hsafe w Hw. unfold parse_instruction.
  destruct (signature opcode) as [pats|] eqn:Hs; [|exact Hw].
  unfold bind at 1.
  pose proof (check_patterns_state 0 pats tokens w) as St.
  destruct (check_patterns 0 pats tokens w) as [[[]|e] w1] eqn:E;
    simpl in St; subst w1; [|exact Hw].
  unfold bind at 1.
  destruct (length pats <? length tokens)%nat; [exact Hw|].
  cbn [ret]. apply print_xml_clean; [|exact Hw].
  intros Hin t rest ->.
  destruct (label_opcode_signature opcode Hin) as (pats' & Hs').
  rewrite Hs in Hs'; inversion Hs'; subst pats.
  apply check_patterns_head, label_role_is_label in E.
  inversion Hsafe; subst. auto.
Qed.

Lemma match_all_safe (args : list string) :
  forall w w' tokens,
    match_all args w = (Ok tokens, w') -> Forall label_safe tokens.
Proof.
  induction args as [|a args IH]; intros w w' tokens H; cbn [match_all] in H.
  - inversion H; constructor.
  - apply bind_inv_ok in H as (t & w1 & H1 & H).
    apply bind_inv_ok in H as (ts & w2 & H2 & H).
    inversion H; subst. constructor; [|eauto].
    apply Classifier.match_pattern_ok in H1 as (Hv & Hl & _).
    intros Ht. rewrite Hv. apply not_keyword. auto.
Qed.

Lemma validate_clean (opcode args : string) :
  preserves clean (validate opcode args).
Proof.
  intros w Hw. unfold validate.
  destruct (signature opcode); [|exact Hw].
  unfold bind.
  pose proof (match_all_state (PyStr.split_ws args) w) as St.
  destruct (match_all (PyStr.split_ws args) w) as [[tokens|e] w1] eqn:E;
    simpl in St; subst w1; [|exact Hw].
  apply parse_instruction_clean; [|exact Hw].
  now apply (match_all_safe _ _ _ _ E).
Qed.

Lemma instruction_scan_clean (instruction : string) :
  preserves clean (instruction_scan instruction).
Proof.
  unfold instruction_scan.
  destruct (_ || _)%bool; [intros w Hw; exact Hw|].
  apply preserves_bind;
    [apply preserves_clean_of_keeps; keeps_auto | intros _].
  destruct (PyStr.split_ws1 _) as [|opcode more]; [intros w Hw; exact Hw|].
  apply validate_clean.
Qed.

Lemma read_lines_clean (lines : list string) :
  forall first_line, preserves clean (read_lines first_line lines).
Proof.
  induction lines as [|raw rest IH]; intros first_line; cbn [read_lines].
  - intros w Hw; exact Hw.
  - apply preserves_bind;
      [apply preserves_clean_of_keeps; keeps_auto | intros _].
    destruct first_line.
    + destruct (negb _); [intros w Hw; exact Hw | apply IH].
    + destruct (PyStr.startswith "#" (PyStr.strip raw)).
      * apply preserves_bind;
          [apply preserves_clean_of_keeps; keeps_auto | intros _; apply IH].
      * destruct (is_empty (PyStr.strip raw)); [apply IH|].
        apply preserves_bind;
          [apply preserves_clean_of_keeps; keeps_auto | intros _].
        apply preserves_bind;
          [apply instruction_scan_clean | intros _; apply IH].
Qed.

Lemma labels_ignore_report : ignores_report (fun w => labels (stats w)).
Proof. split; reflexivity. Qed.

Lemma jumps_ignore_report : ignores_report (fun w => jumps (stats w)).
Proof. split; reflexivity. Qed.

Lemma check_arguments_keeps_stats (args : list string) :
  keeps stats (check_arguments args).
Proof.
  unfold check_arguments, check_help, check_duplicates. keeps_auto.
  apply keeps_of_state. intros w. apply MainFacts.collect_stats_files_state.
Qed.

(** Whatever the arguments and the input, and however the run ends, no
    type keyword is a label defined or a label referred to. *)
Lemma run_clean (args stdin : list string) : clean (snd (run args stdin)).
Proof.
  unfold run, main.
  assert (H0 : clean init_world) by (intros x _; split; reflexivity).
  revert H0. generalize init_world.
  apply preserves_bind.
  { intros w Hw. apply (clean_same w); [| |exact Hw];
      now rewrite (check_arguments_keeps_stats args w). }
  intros _. apply preserves_bind.
  { unfold scan_input.
    apply preserves_bind;
      [apply preserves_clean_of_keeps; keeps_auto | intros _].
    apply preserves_bind;
      [apply preserves_clean_of_keeps; keeps_auto | intros _].
    apply preserves_bind; [apply read_lines_clean | intros _].
    apply preserves_clean_of_keeps; keeps_auto. }
  intros _. apply preserves_bind.
  { intros w Hw. now rewrite MainFacts.analyse_jumps_state. }
  intros counts. apply preserves_clean_of_keeps.
  - apply MainFacts.report_keeps, labels_ignore_report.
  - apply MainFacts.report_keeps, jumps_ignore_report.
Qed.

(** The opcodes with a label in their signature are the five listed. *)
Lemma label_opcodes_spec (opcode : string) :
  In opcode label_opcodes <->
  exists pats i, signature opcode = Some pats /\ nth_error pats i = Some Rlabel.
Proof.
  split.
  - intros H. destruct (label_opcode_signature opcode H) as (rest & Hs).
    now exists (Rlabel :: rest), 0.
  - intros (pats & i & Hs & Hi). now destruct (label_position opcode pats i Hs Hi).
Qed.

(** A whole instruction whose label operand is a type keyword, when the
    other operands are classified. *)
Lemma validate_keyword_label (opcode x args : string) (others : list string)
  (tokens : list Token) (w : World) :
  In opcode label_opcodes -> In x type_keywords ->
  PyStr.split_ws args = x :: others ->
  fst (match_all others w) = Ok tokens ->
  validate opcode args w = (Raise (RoleMismatchError 1 Rlabel), w).
Proof.
  intros Hop Hx Hargs Hothers.
  destruct (label_opcode_signature opcode Hop) as (rest & Hs).
  unfold validate. rewrite Hs, Hargs. cbn [match_all]. unfold bind.
  rewrite (keyword_is_type x w Hx).
  pose proof (match_all_state others w) as St.
  destruct (match_all others w) as [r w1]. simpl in St, Hothers. subst.
  cbn [ret].
  now apply (role_mismatch_on_keyword opcode (Rlabel :: rest) 0 x).
Qed.

End LabelFacts.

(* ================================================================== *)
(** * The test for duplicate statistics files *)
(* ================================================================== *)

Module ArgumentFacts.
Import MonadFacts.

Lemma add_old (x : string) (s : list string) : In x s -> PySet.add x s = s.
Proof.
  induction s as [|y s IH]; simpl; [tauto|].
  destruct (String.eqb_spec x y) as [->|Hne]; [reflexivity|].
  intros [E|H]; [congruence | now rewrite IH].
Qed.

Lemma add_new (x : string) (s : list string) :
  ~ In x s -> PySet.add x s = (s ++ [x])%list.
Proof.
  induction s as [|y s IH]; simpl; [reflexivity|].
  destruct (String.eqb_spec x y) as [->|Hne]; [tauto|].
  intros H. rewrite IH; tauto.
Qed.

(** A set stays a set when an element is added. *)
Lemma add_nodup (x : string) (s : list string) :
  NoDup s -> NoDup (PySet.add x s).
Proof.
  intros H. destruct (in_dec string_dec x s) as [Hin|Hout].
  - now rewrite add_old.
  - rewrite add_new by assumption.
    apply NoDup_app; [assumption | repeat constructor; auto |].
    intros a Ha [<- | []]. contradiction.
Qed.

Lemma of_list_from (l : list string) :
  forall acc, NoDup (acc ++ l) ->
              fold_left (fun acc x => PySet.add x acc) l acc = (acc ++ l)%list.
Proof.
  induction l as [|x l IH]; intros acc H; simpl.
  - now rewrite app_nil_r.
  - assert (Hx : ~ In x acc).
    { apply NoDup_remove_2 in H. intros Hin. apply H, in_or_app. now left. }
    rewrite (add_new x acc Hx), IH.
    + now rewrite <- app_assoc.
    + rewrite <- app_assoc. exact H.
Qed.

(** The set built from a set is the same set. *)
Lemma of_list_set (s : list string) : NoDup s -> PySet.of_list s = s.
Proof. intros H. unfold PySet.of_list. now rewrite of_list_from. Qed.

Lemma collect_stats_files_nodup (args : list string) :
  forall acc w files w',
    NoDup acc -> collect_stats_files acc args w = (Ok files, w') ->
    NoDup files.
Proof.
  induction args as [|arg rest IH]; intros acc w fs w' Hacc H;
    cbn [collect_stats_files] in H.
  - now inversion H; subst.
  - destruct (PyStr.startswith "--stats=" arg).
    + apply bind_inv_ok in H as (filename & w1 & _ & H).
      apply (IH _ _ _ _ (add_nodup filename acc Hacc) H).
    + destruct (arg =? "--stats")%string; [discriminate|].
      apply (IH _ _ _ _ Hacc H).
Qed.

(** The test compares the size of a set with the size of its copy. *)
Lemma check_duplicates_passes (stats_files : list string) (w : World) :
  NoDup stats_files -> check_duplicates stats_files w = (Ok tt, w).
Proof.
  intros H. unfold check_duplicates.
  now rewrite (of_list_set _ H), Nat.eqb_refl.
Qed.

Lemma collect_no_configuration_error (args : list string) :
  forall acc, never is_configuration_error (collect_stats_files acc args).
Proof.
  induction args as [|arg rest IH]; intros acc; cbn [collect_stats_files];
    never_auto; apply IH.
Qed.

Lemma check_arguments_no_configuration_error (args : list string) (w : World) :
  raises is_configuration_error (check_arguments args w) = false.
Proof.
  unfold check_arguments, raises, bind.
  destruct (check_help args w) as [[[]|e] w1] eqn:E1.
  - destruct (collect_stats_files [] args w1) as [[fs|e] w2] eqn:E2.
    + apply collect_stats_files_nodup in E2; [|constructor].
      now rewrite (check_duplicates_passes fs w2 E2).
    + cbn [fst].
      pose proof (collect_no_configuration_error args [] w1) as N.
      unfold raises in N. now rewrite E2 in N.
  - cbn [fst].
    assert (N : never is_configuration_error (check_help args))
      by (unfold check_help; never_auto).
    specialize (N w). unfold raises in N. now rewrite E1 in N.
Qed.

End ArgumentFacts.

(* ================================================================== *)
(** * The frequency selector *)
(* ================================================================== *)

Module FrequentFacts.
Import MonadFacts.

Lemma max_of_spec (l : list nat) (m : nat) :
  max_of l = Some m -> In m l /\ Forall (fun v => v <= m) l.
Proof.
  revert m; induction l as [|x l IH]; intros m; simpl; [discriminate|].
  destruct (max_of l) as [m'|] eqn:E.
  - intros H; inversion H; subst. destruct (IH m' eq_refl) as [Hin Hall].
    split.
    + destruct (Nat.max_spec x m') as [[_ ->] | [_ ->]]; auto.
    + constructor; [lia|].
      eapply Forall_impl; [|exact Hall]. simpl; intros; lia.
  - intros H; inversion H; subst. destruct l; [|simpl in E].
    + split; [now left | repeat constructor].
    + destruct (max_of l); discriminate.
Qed.

Lemma max_of_none (l : list nat) : max_of l = None -> l = [].
Proof.
  destruct l as [|x l]; [reflexivity|]. simpl.
  destruct (max_of l); discriminate.
Qed.

Lemma keys_with_head (m : nat) (d : dict) (k : string) (ks : list string) :
  keys_with m d = k :: ks -> In (k, m) d.
Proof.
  unfold keys_with. induction d as [|[k' v'] d IH]; simpl; [discriminate|].
  destruct (Nat.eqb_spec v' m) as [->|Hne]; simpl.
  - intros H; inversion H; subst. now left.
  - intros H; right; auto.
Qed.

Lemma keys_with_some (m : nat) (d : dict) :
  In m (Dict.values d) -> keys_with m d <> [].
Proof.
  unfold keys_with, Dict.values.
  induction d as [|[k' v'] d IH]; simpl; [tauto|].
  destruct (Nat.eqb_spec v' m) as [->|Hne]; simpl; [discriminate|].
  intros [E|H]; [congruence | auto].
Qed.

Lemma lookup_in (d : dict) (k : string) (v : nat) :
  NoDup (Dict.keys d) -> In (k, v) d -> Dict.lookup k d = Some v.
Proof.
  unfold Dict.keys. induction d as [|[k' v'] d IH]; simpl; [tauto|].
  intros Hnd [E|H].
  - inversion E; subst. now rewrite String.eqb_refl.
  - inversion Hnd; subst.
    destruct (String.eqb_spec k k') as [->|Hne]; [|auto].
    elim H2. change k' with (fst (k', v)). now apply in_map.
Qed.

Lemma keys_del_incl (k : string) (d : dict) (x : string) :
  In x (Dict.keys (Dict.del k d)) -> In x (Dict.keys d).
Proof.
  unfold Dict.keys. induction d as [|[k' v'] d IH]; simpl; [tauto|].
  destruct (String.eqb k k'); simpl; [auto | intros [E|H]; auto].
Qed.

Lemma del_nodup (k : string) (d : dict) :
  NoDup (Dict.keys d) -> NoDup (Dict.keys (Dict.del k d)).
Proof.
  unfold Dict.keys. induction d as [|[k' v'] d IH]; simpl; [auto|].
  intros H; inversion H; subst.
  destruct (String.eqb k k'); [assumption|]. simpl. constructor; [|auto].
  intros Hin. apply H2. now apply (keys_del_incl k d).
Qed.

Lemma del_length (k : string) (d : dict) (v : nat) :
  Dict.lookup k d = Some v -> length d = S (length (Dict.del k d)).
Proof.
  induction d as [|[k' v'] d IH]; simpl; [discriminate|].
  destruct (String.eqb k k'); [reflexivity|]. simpl. intros H. now rewrite IH.
Qed.

Lemma del_total (k : string) (d : dict) (v : nat) :
  Dict.lookup k d = Some v -> total d = v + total (Dict.del k d).
Proof.
  unfold total, Dict.values.
  induction d as [|[k' v'] d IH]; simpl; [discriminate|].
  destruct (String.eqb k k').
  - intros H; inversion H; subst. reflexivity.
  - simpl. intros H. rewrite (IH H). lia.
Qed.

(** What one turn of the loop takes: a key with the greatest count. *)
Lemma turn_takes_greatest (d : dict) (m : nat) (k : string) (ks : list string) :
  NoDup (Dict.keys d) ->
  max_of (Dict.values d) = Some m -> keys_with m d = k :: ks ->
  Dict.lookup k d = Some m /\ Forall (fun kv => snd kv <= m) d.
Proof.
  intros Hnd Hm Hk. apply max_of_spec in Hm as [_ Hall].
  split.
  - apply lookup_in; [assumption|]. now apply (keys_with_head m d k ks).
  - unfold Dict.values in Hall. now rewrite Forall_map in Hall.
Qed.

(** The loop of the source makes the greedy selection of the
    specification. *)
Lemma frequent_loop_greedy (fuel : nat) (threshold : float) :
  forall cap buf w buffer w',
    NoDup (Dict.keys (used w)) ->
    frequent_loop fuel threshold cap buf w = (Ok buffer, w') ->
    exists picks cap',
      buffer = (buf ++ picks)%list
      /\ greedy threshold (used w) cap picks (used w') cap'.
Proof.
  induction fuel as [|fuel IH]; intros cap buf w buffer w' Hnd H;
    cbn [frequent_loop] in H; destruct (below cap threshold) eqn:B;
    try discriminate;
    try (inversion H; subst; exists [], cap;
         split; [now rewrite app_nil_r | now constructor]).
  unfold bind at 1, get at 1 in H. fold (used w) in H.
  destruct (max_of (Dict.values (used w))) as [m|] eqn:Hm; [|discriminate].
  destruct (keys_with m (used w)) as [|k ks] eqn:Hk; [discriminate|].
  destruct (turn_takes_greatest _ _ _ _ Hnd Hm Hk) as [Hl Hall].
  unfold bind at 1, set_used at 1, set_stats at 1, modify at 1 in H.
  apply IH in H; [|now apply del_nodup].
  destruct H as (picks & cap' & -> & G).
  exists (k :: picks), cap'. split.
  - now rewrite <- app_assoc.
  - now apply (greedy_take threshold (used w) cap k m).
Qed.

(** The loop ends with a selection when the counts of the map reach the
    threshold together; with one unit of fuel for each key and one more it
    does not run out of fuel. *)
Lemma frequent_loop_total (fuel : nat) (threshold : float) :
  forall cap buf w,
    NoDup (Dict.keys (used w)) ->
    length (used w) < fuel ->
    below (cap + total (used w)) threshold = false ->
    exists buffer w',
      frequent_loop fuel threshold cap buf w = (Ok buffer, w').
Proof.
  induction fuel as [|fuel IH]; intros cap buf w Hnd Hlen Hsum; [lia|].
  cbn [frequent_loop]. destruct (below cap threshold) eqn:B;
    [|now exists buf, w].
  unfold bind at 1, get at 1. fold (used w).
  destruct (max_of (Dict.values (used w))) as [m|] eqn:Hm.
  - destruct (max_of_spec _ _ Hm) as [Hin _].
    destruct (keys_with m (used w)) as [|k ks] eqn:Hk;
      [now elim (keys_with_some m (used w) Hin)|].
    destruct (turn_takes_greatest _ _ _ _ Hnd Hm Hk) as [Hl _].
    unfold bind at 1, set_used at 1, set_stats at 1, modify at 1.
    apply IH.
    + now apply del_nodup.
    + unfold used at 1; simpl. fold (used w).
      rewrite (del_length k (used w) m Hl) in Hlen. lia.
    + unfold used at 1; simpl. fold (used w).
      rewrite (del_total k (used w) m Hl) in Hsum.
      now rewrite <- Nat.add_assoc.
  - apply max_of_none in Hm. unfold Dict.values in Hm.
    apply map_eq_nil in Hm. rewrite Hm in Hsum.
    unfold total in Hsum; simpl in Hsum. rewrite Nat.add_0_r in Hsum.
    congruence.
Qed.


(** The selection stops when the running total is not below the
    threshold. *)
Lemma greedy_reaches (threshold : float) (d d' : dict) (cap cap' : nat)
  (picks : list string) :
  greedy threshold d cap picks d' cap' -> below cap' threshold = false.
Proof. induction 1; auto. Qed.

(** The running total at the end: the counts of the map that are gone. *)
Lemma greedy_total (threshold : float) (d d' : dict) (cap cap' : nat)
  (picks : list string) :
  greedy threshold d cap picks d' cap' -> cap' + total d' = cap + total d.
Proof.
  induction 1 as [|d cap k m picks d' cap' B Hl Hall G IH]; [reflexivity|].
  rewrite IH, (del_total k d m Hl). lia.
Qed.

Lemma insert_sorted_perm (x : string) (l : list string) :
  Permutation (insert_sorted x l) (x :: l).
Proof.
  induction l as [|y l IH]; simpl; [reflexivity|].
  destruct (String.leb x y); [reflexivity|].
  rewrite IH. apply perm_swap.
Qed.

Lemma sort_perm (l : list string) : Permutation (sort l) l.
Proof.
  induction l as [|x l IH]; simpl; [reflexivity|].
  rewrite insert_sorted_perm. now constructor.
Qed.

Lemma insert_sorted_sorted (x : string) (l : list string) :
  Sorted str_le l -> Sorted str_le (insert_sorted x l).
Proof.
  induction l as [|y l IH]; simpl; intros H; [repeat constructor|].
  destruct (String.leb x y) eqn:E.
  - constructor; [assumption | now constructor].
  - assert (Hyx : str_le y x).
    { destruct (String.leb_total x y) as [T|T]; [congruence | exact T]. }
    inversion H as [|? ? Hs Hh]; subst.
    constructor; [auto|].
    destruct l as [|z l]; simpl.
    + now constructor.
    + destruct (String.leb x z); constructor; [assumption|].
      now inversion Hh.
Qed.

(** [buffer.sort()] gives the same opcodes in the order of [str]. *)
Lemma sort_sorted (l : list string) : Sorted str_le (sort l).
Proof.
  induction l as [|x l IH]; simpl; [constructor|].
  now apply insert_sorted_sorted.
Qed.

Lemma forallb_upto (f : nat -> bool) (n : nat) :
  forallb f (seq 0 (S n)) = true -> forall x, x <= n -> f x = true.
Proof.
  intros H x Hx. rewrite forallb_forall in H. apply H, in_seq. lia.
Qed.

(** The comparison of the source, made in binary64, agrees with the one in
    exact arithmetic for every [loc] up to 120 and every [cap] up to
    [loc]: by evaluation. *)
Lemma below_agrees_120 :
  forallb (fun loc =>
             forallb (fun cap =>
                        Bool.eqb (below cap (threshold_of loc))
                                 (20 * cap <? 7 * loc)%nat)
                     (seq 0 (S loc)))
          (seq 0 (S 120)) = true.
Proof. vm_compute. reflexivity. Qed.

Lemma below_exact (loc cap : nat) :
  loc <= 120 -> cap <= loc ->
  below cap (threshold_of loc) = (20 * cap <? 7 * loc)%nat.
Proof.
  intros Hloc Hcap. apply Bool.eqb_prop.
  pose proof (forallb_upto _ 120 below_agrees_120 loc Hloc) as A.
  cbv beta in A.
  exact (forallb_upto _ loc A cap Hcap).
Qed.

(** What [--frequent] computes. *)
Lemma frequent_spec (w w' : World) (buffer : list string) :
  NoDup (Dict.keys (used w)) ->
  frequent w = (Ok buffer, w') ->
  exists picks cap',
    greedy (threshold_of (loc (stats w))) (used w) 0 picks (used w') cap'
    /\ below cap' (threshold_of (loc (stats w))) = false
    /\ buffer = sort picks
    /\ Permutation buffer picks
    /\ Sorted str_le buffer.
Proof.
  intros Hnd H. unfold frequent in H.
  unfold bind at 1, get at 1 in H.
  apply bind_inv_ok in H as (buf & w1 & H1 & H).
  inversion H; subst w1 buffer; clear H.
  apply frequent_loop_greedy in H1; [|assumption].
  destruct H1 as (picks & cap' & -> & G).
  exists picks, cap'. cbn [app].
  repeat split; auto using sort_perm, sort_sorted.
  now apply greedy_reaches in G.
Qed.

Lemma frequent_total (w : World) :
  NoDup (Dict.keys (used w)) ->
  below (total (used w)) (threshold_of (loc (stats w))) = false ->
  exists buffer w', frequent w = (Ok buffer, w').
Proof.
  intros Hnd Hsum. unfold frequent. unfold bind at 1, get at 1.
  destruct (frequent_loop_total (S (length (used w)))
              (threshold_of (loc (stats w))) 0 [] w Hnd (Nat.lt_succ_diag_r _) Hsum)
    as (buf & w' & H).
  fold (used w). exists (sort buf), w'.
  now rewrite (bind_ok _ _ _ _ _ H).
Qed.

(** The fuel of the model is enough: the loop does not stop for lack of
    it. *)
Lemma frequent_loop_fuel (fuel : nat) (threshold : float) :
  forall cap buf w,
    NoDup (Dict.keys (used w)) ->
    length (used w) < fuel ->
    raises is_out_of_fuel (frequent_loop fuel threshold cap buf w) = false.
Proof.
  induction fuel as [|fuel IH]; intros cap buf w Hnd Hlen; [lia|].
  cbn [frequent_loop]. destruct (below cap threshold) eqn:B; [|reflexivity].
  unfold bind at 1, get at 1. fold (used w).
  destruct (max_of (Dict.values (used w))) as [m|] eqn:Hm; [|reflexivity].
  destruct (keys_with m (used w)) as [|k ks] eqn:Hk; [reflexivity|].
  destruct (turn_takes_greatest _ _ _ _ Hnd Hm Hk) as [Hl _].
  unfold bind at 1, set_used at 1, set_stats at 1, modify at 1.
  apply IH.
  - now apply del_nodup.
  - unfold used at 1; simpl. fold (used w).
    rewrite (del_length k (used w) m Hl) in Hlen. lia.
Qed.

Lemma frequent_fuel (w : World) :
  NoDup (Dict.keys (used w)) -> raises is_out_of_fuel (frequent w) = false.
Proof.
  intros Hnd. unfold frequent. unfold bind at 1, get at 1.
  pose proof (frequent_loop_fuel (S (length (used w)))
                (threshold_of (loc (stats w))) 0 [] w Hnd
                (Nat.lt_succ_diag_r _)) as H.
  fold (used w). unfold raises, bind in *.
  destruct (frequent_loop _ _ 0 [] w) as [[b|e] w1]; [reflexivity | exact H].
Qed.

End FrequentFacts.

(* ================================================================== *)
(** * The analyses after the scan *)
(* ================================================================== *)

Module AnalysisFacts.
Import MonadFacts FrequentFacts.

(** Every entry of the jump map counts at most once. *)
Lemma count_jumps_bound (labels items : dict) :
  forall fw back bad,
    let '(fw', back', bad') := count_jumps labels items fw back bad in
    fw' + back' + bad' <= fw + back + bad + length items.
Proof.
  induction items as [|[label order] items IH]; intros fw back bad;
    cbn [count_jumps length]; [lia|].
  destruct (Dict.lookup label labels) as [label_order|].
  - destruct (order <? label_order)%nat;
      [|destruct (label_order <? order)%nat].
    + specialize (IH (fw + 1) back bad).
      destruct (count_jumps labels items (fw + 1) back bad) as [[a b] c]. lia.
    + specialize (IH fw (back + 1) bad).
      destruct (count_jumps labels items fw (back + 1) bad) as [[a b] c]. lia.
    + specialize (IH fw back (bad + 1)).
      destruct (count_jumps labels items fw back (bad + 1)) as [[a b] c]. lia.
  - specialize (IH fw back bad).
    destruct (count_jumps labels items fw back bad) as [[a b] c]. lia.
Qed.

(** The jump classification reads the state and leaves it as it is. *)
Lemma classify_jumps_reads (w : World) :
  classify_jumps w
  = (Ok (count_jumps (labels (stats w)) (jumps (stats w)) 0 0 0), w).
Proof. reflexivity. Qed.

Lemma classify_jumps_bound (w w' : World) (fw back bad : nat) :
  classify_jumps w = (Ok (fw, back, bad), w') ->
  fw + back + bad <= length (jumps (stats w)).
Proof.
  rewrite classify_jumps_reads. intros H; injection H as E Ew.
  pose proof (count_jumps_bound (labels (stats w)) (jumps (stats w)) 0 0 0) as B.
  rewrite E in B. simpl in B. exact B.
Qed.

Lemma lookup_del_same (k : string) (d : dict) :
  NoDup (Dict.keys d) -> Dict.lookup k (Dict.del k d) = None.
Proof.
  unfold Dict.keys. induction d as [|[k' v'] d IH]; simpl; [reflexivity|].
  intros H; inversion H as [|? ? Hout Hnd]; subst.
  destruct (String.eqb_spec k k') as [->|Hne].
  - destruct (Dict.lookup k' d) as [v|] eqn:E; [|reflexivity].
    elim Hout. clear -E. induction d as [|[k v0] d IHd]; simpl in *;
      [discriminate|].
    destruct (String.eqb_spec k' k) as [->|_]; auto.
  - simpl. apply String.eqb_neq in Hne. rewrite Hne. auto.
Qed.




Lemma comments_ignore_report : ignores_report (fun w => comments (stats w)).
Proof. split; reflexivity. Qed.

Lemma eol_ignores_report : ignores_report (fun w => eol (stats w)).
Proof. split; reflexivity. Qed.

End AnalysisFacts.

(* ================================================================== *)
(** * The map of used instructions is a dictionary in every state *)
(* ================================================================== *)

Module DictFacts.
Import MonadFacts ScanFacts FrequentFacts LabelFacts.

Lemma keys_set (k : string) (v : nat) (d : dict) :
  Dict.keys (Dict.set k v d)
  = if Dict.mem k d then Dict.keys d else (Dict.keys d ++ [k])%list.
Proof.
  unfold Dict.keys, Dict.mem. induction d as [|[k' v'] d IH]; simpl.
  - reflexivity.
  - destruct (String.eqb k k'); simpl; [reflexivity|].
    rewrite IH. now destruct (Dict.lookup k d).
Qed.

Lemma mem_false_not_key (k : string) (d : dict) :
  Dict.mem k d = false -> ~ In k (Dict.keys d).
Proof.
  unfold Dict.keys, Dict.mem. induction d as [|[k' v'] d IH]; simpl; [tauto|].
  destruct (String.eqb_spec k k') as [->|Hne]; [discriminate|].
  intros H [E|Hin]; [congruence | now apply IH].
Qed.

Lemma set_nodup (k : string) (v : nat) (d : dict) :
  NoDup (Dict.keys d) -> NoDup (Dict.keys (Dict.set k v d)).
Proof.
  intros H. rewrite keys_set. destruct (Dict.mem k d) eqn:E; [assumption|].
  apply NoDup_app; [assumption | repeat constructor; auto |].
  intros a Ha [<- | []]. now apply (mem_false_not_key k d).
Qed.

Lemma preserves_dict_of_keeps {A} (c : M A) :
  keeps used c -> preserves used_is_dict c.
Proof. intros K w Hw. unfold used_is_dict. now rewrite K. Qed.

Lemma count_usage_dict (opcode : string) :
  preserves used_is_dict (count_usage opcode).
Proof.
  intros w Hw. unfold count_usage, bind, get.
  destruct (Dict.lookup opcode (used_instructions (stats w)));
    apply set_nodup; exact Hw.
Qed.

Lemma print_xml_dict (ia : instruction_array) :
  preserves used_is_dict (print_xml ia).
Proof.
  destruct ia as [opcode tokens]. unfold print_xml.
  apply preserves_bind; [apply preserves_dict_of_keeps; keeps_auto|].
  intros _. apply preserves_bind; [apply count_usage_dict|].
  intros _. apply preserves_dict_of_keeps.
  unfold record_label, record_jump. keeps_auto.
  all: apply print_args_keeps; reflexivity.
Qed.

Lemma instruction_scan_dict (instruction : string) :
  preserves used_is_dict (instruction_scan instruction).
Proof.
  unfold instruction_scan, validate, parse_instruction.
  repeat first
    [ apply print_xml_dict
    | apply preserves_bind; [|intros ?]
    | apply preserves_dict_of_keeps;
      first [ apply match_all_keeps | apply check_patterns_keeps
            | solve [keeps_auto] ]
    | match goal with
      | |- preserves _ (if ?b then _ else _) => destruct b
      | |- preserves _ (match ?x with _ => _ end) => destruct x
      end ].
Qed.

Lemma read_lines_dict (lines : list string) :
  forall first_line, preserves used_is_dict (read_lines first_line lines).
Proof.
  induction lines as [|raw rest IH]; intros first_line; cbn [read_lines].
  - intros w Hw; exact Hw.
  - repeat first
      [ apply IH
      | apply instruction_scan_dict
      | apply preserves_bind; [|intros ?]
      | apply preserves_dict_of_keeps; solve [keeps_auto]
      | match goal with
        | |- preserves _ (if ?b then _ else _) => destruct b
        end ].
Qed.

(** At the end of the scan of any input the map is a dictionary. *)
Lemma scanned_dict (stdin : list string) : used_is_dict (scanned stdin).
Proof.
  unfold scanned, scan_input.
  assert (H0 : used_is_dict init_world) by constructor.
  revert H0. generalize init_world.
  repeat first
    [ apply read_lines_dict
    | apply preserves_bind; [|intros ?]
    | apply preserves_dict_of_keeps; solve [keeps_auto] ].
Qed.

(** The frequency selection leaves a dictionary. *)
Lemma frequent_loop_dict (fuel : nat) :
  forall threshold cap buffer,
    preserves used_is_dict (frequent_loop fuel threshold cap buffer).
Proof.
  induction fuel as [|fuel IH]; intros threshold cap buffer w Hw;
    cbn [frequent_loop]; destruct (below cap threshold); try exact Hw.
  unfold bind at 1, get at 1.
  destruct (max_of _); [|exact Hw].
  destruct (keys_with _ _); [exact Hw|].
  unfold bind at 1, set_used at 1, set_stats at 1, modify at 1.
  apply IH. unfold used_is_dict, used; simpl. now apply del_nodup.
Qed.

Lemma frequent_dict : preserves used_is_dict frequent.
Proof.
  intros w Hw. unfold frequent. unfold bind at 1, get at 1.
  pose proof (frequent_loop_dict (S (length (used_instructions (stats w))))
                (threshold_of (loc (stats w))) 0 [] w Hw) as H.
  unfold bind.
  destruct (frequent_loop _ _ 0 [] w) as [[b|e] w1]; exact H.
Qed.

End DictFacts.

(* ================================================================== *)
(** * Where the four patterns overlap *)
(* ================================================================== *)

Module OverlapFacts.
Import Shape ShapeFacts.

Lemma id_start_is_id_char (c : ascii) : id_start c = true -> id_char c = true.
Proof.
  unfold id_start, id_char.
  destruct (is_letter c), (PyStr.isdigit c), (is_symbol c); simpl; auto.
Qed.

Lemma all_chars_middle (p : ascii -> bool) (a b : string) (c : ascii) :
  all_chars p (a ++ String c b) = true -> p c = true.
Proof.
  induction a as [|x a IH]; simpl; intros H;
    apply andb_true_iff in H as [H1 H2]; auto.
Qed.

(** An identifier has no [@] in it. *)
Lemma identifier_has_no_at (s a b : string) :
  is_identifier s = true -> s <> (a ++ String "@" b)%string.
Proof.
  intros H E.
  assert (A : all_chars id_char s = true).
  { destruct s as [|c s]; [discriminate|]. simpl in *.
    apply andb_true_iff in H as [H1 H2].
    now rewrite (id_start_is_id_char c H1), H2. }
  rewrite E in A. apply all_chars_middle in A. discriminate.
Qed.

(** The forms of a constant. *)
Lemma constant_forms (s : string) :
  is_constant s = true ->
  s = "nil@nil"
  \/ (exists t, s = "int@" ++ t /\ is_int_literal t = true)
  \/ (s = "bool@true" \/ s = "bool@false")
  \/ (exists t, s = "string@" ++ t /\ is_string_literal t = true).
Proof.
  intros H. rewrite <- const_shape in H.
  now apply ReFacts.fullmatch_spec, const_pattern_matches in H.
Qed.

(** The forms of a variable. *)
Lemma variable_forms (s : string) :
  is_variable s = true ->
  exists frame name,
    s = (frame ++ "@" ++ name)%string
    /\ (frame = "LF" \/ frame = "TF" \/ frame = "GF")
    /\ is_identifier name = true.
Proof.
  unfold is_variable. cbn [existsb].
  rewrite orb_false_r, !orb_true_iff, !after_prefix_true.
  intros [(t & -> & Ht) | [(t & -> & Ht) | (t & -> & Ht)]];
    [exists "LF" | exists "TF" | exists "GF"]; exists t; auto.
Qed.

Lemma label_is_no_constant (s : string) :
  is_label s = true -> is_constant s = false.
Proof.
  intros HL. destruct (is_constant s) eqn:HC; [|reflexivity]. exfalso.
  apply constant_forms in HC.
  destruct HC as [-> | [(t & -> & _) | [[-> | ->] | (t & -> & _)]]].
  - exact (identifier_has_no_at _ "nil" "nil" HL eq_refl).
  - exact (identifier_has_no_at _ "int" t HL eq_refl).
  - exact (identifier_has_no_at _ "bool" "true" HL eq_refl).
  - exact (identifier_has_no_at _ "bool" "false" HL eq_refl).
  - exact (identifier_has_no_at _ "string" t HL eq_refl).
Qed.

Lemma label_is_no_variable (s : string) :
  is_label s = true -> is_variable s = false.
Proof.
  intros HL. destruct (is_variable s) eqn:HV; [|reflexivity]. exfalso.
  apply variable_forms in HV as (frame & name & -> & _ & _).
  exact (identifier_has_no_at _ frame name HL eq_refl).
Qed.

Lemma constant_is_no_variable (s : string) :
  is_constant s = true -> is_variable s = false.
Proof.
  intros HC. destruct (is_variable s) eqn:HV; [|reflexivity]. exfalso.
  apply variable_forms in HV as (frame & name & E & Hf & _).
  apply constant_forms in HC.
  destruct HC as [-> | [(t & -> & _) | [[-> | ->] | (t & -> & _)]]];
    destruct Hf as [-> | [-> | ->]]; discriminate.
Qed.

Lemma keyword_is_label (s : string) :
  is_type_keyword s = true -> is_label s = true.
Proof.
  unfold is_type_keyword. cbn [existsb].
  rewrite orb_false_r, !orb_true_iff, !String.eqb_eq.
  intros [-> | [-> | ->]]; reflexivity.
Qed.

Lemma keyword_is_no_constant (s : string) :
  is_type_keyword s = true -> is_constant s = false.
Proof. intros H. now apply label_is_no_constant, keyword_is_label. Qed.

Lemma keyword_is_no_variable (s : string) :
  is_type_keyword s = true -> is_variable s = false.
Proof. intros H. now apply label_is_no_variable, keyword_is_label. Qed.

(** At most one pattern matches an operand, except that the type keywords
    match [LABEL] too. *)
Lemma patterns_overlap (s : string) :
  (Re.fullmatch Pat.const_pattern s = true ->
   Re.fullmatch Pat.TYPE s = false /\ Re.fullmatch Pat.VAR s = false
   /\ Re.fullmatch Pat.LABEL s = false)
  /\ (Re.fullmatch Pat.VAR s = true ->
      Re.fullmatch Pat.TYPE s = false /\ Re.fullmatch Pat.LABEL s = false)
  /\ (Re.fullmatch Pat.TYPE s = true -> Re.fullmatch Pat.LABEL s = true).
Proof.
  rewrite const_shape, type_shape, var_shape, label_shape.
  split; [|split].
  - intros HC.
    destruct (is_type_keyword s) eqn:HT;
      [rewrite (keyword_is_no_constant s HT) in HC; discriminate|].
    destruct (is_label s) eqn:HL;
      [rewrite (label_is_no_constant s HL) in HC; discriminate|].
    now rewrite (constant_is_no_variable s HC).
  - intros HV.
    destruct (is_type_keyword s) eqn:HT;
      [rewrite (keyword_is_no_variable s HT) in HV; discriminate|].
    destruct (is_label s) eqn:HL;
      [rewrite (label_is_no_variable s HL) in HV; discriminate|].
    auto.
  - apply keyword_is_label.
Qed.

(** A label name that is no type keyword is classified as a label. *)
Lemma label_token (name : string) (w : World) :
  is_label name = true -> is_type_keyword name = false ->
  match_pattern name w = (Ok (mkToken Tlabel name), w).
Proof.
  intros HL HT. rewrite Classifier.match_pattern_shapes.
  now rewrite (label_is_no_constant name HL), HT,
    (label_is_no_variable name HL), HL.
Qed.

End OverlapFacts.

(* ================================================================== *)
(** * When an instruction is accepted *)
(* ================================================================== *)

Module AcceptFacts.
Import MonadFacts.

(** The loop of [parse_instruction], which goes by the index, finds the
    first error of the two lists read together. *)
Lemma check_patterns_zip (pats : list role) :
  forall (pre rest : list Token) (w : World),
    check_patterns (length pre) pats (pre ++ rest) w
    = match first_role_error (length pre) pats rest with
      | None => (Ok tt, w)
      | Some e => (Raise e, w)
      end.
Proof.
  induction pats as [|p pats IH]; intros pre rest w;
    cbn [check_patterns first_role_error]; [reflexivity|].
  destruct rest as [|t ts].
  - rewrite app_nil_r, Nat.leb_refl. reflexivity.
  - assert (L : (length (pre ++ t :: ts) <=? length pre)%nat = false).
    { apply Nat.leb_gt. rewrite length_app. simpl. lia. }
    rewrite L, nth_error_app2, Nat.sub_diag by lia. cbn [nth_error].
    destruct (role_accepts p (token_type t)); [|reflexivity].
    specialize (IH (pre ++ [t])%list ts w).
    rewrite <- app_assoc, length_app in IH. cbn [length app] in IH.
    rewrite Nat.add_1_r in IH. exact IH.
Qed.

Lemma zip_all_ok (pats : list role) (tokens : list Token) :
  Forall2 role_ok pats tokens ->
  forall i extra, first_role_error i pats (tokens ++ extra) = None.
Proof.
  induction 1 as [|p t pats tokens Hpt _ IH]; intros i extra; simpl;
    [reflexivity|].
  unfold role_ok in Hpt. rewrite Hpt. apply IH.
Qed.

Lemma zip_too_few (pats : list role) :
  forall (tokens : list Token) (i : nat),
    length tokens < length pats ->
    Forall2 role_ok (firstn (length tokens) pats) tokens ->
    first_role_error i pats tokens = Some ArityTooFew.
Proof.
  induction pats as [|p pats IH]; intros tokens i Hlen H; simpl in *; [lia|].
  destruct tokens as [|t ts]; [reflexivity|]. simpl in *.
  inversion H as [|? ? ? ? Hpt Hrest]; subst.
  unfold role_ok in Hpt. rewrite Hpt. apply IH; [lia | assumption].
Qed.

Lemma zip_mismatch (k : nat) :
  forall (pats : list role) (tokens : list Token) (i : nat) (p : role)
         (t : Token),
    nth_error pats k = Some p -> nth_error tokens k = Some t ->
    role_accepts p (token_type t) = false ->
    Forall2 role_ok (firstn k pats) (firstn k tokens) ->
    first_role_error i pats tokens = Some (RoleMismatchError (i + k + 1) p).
Proof.
  induction k as [|k IH]; intros pats tokens i p t Hp Ht Hno H;
    destruct pats as [|p0 pats]; try discriminate;
    destruct tokens as [|t0 tokens]; try discriminate; simpl in *.
  - inversion Hp; inversion Ht; subst. rewrite Hno.
    now rewrite Nat.add_0_r.
  - inversion H as [|? ? ? ? Hpt Hrest]; subst.
    unfold role_ok in Hpt. rewrite Hpt.
    rewrite (IH pats tokens (S i) p t Hp Ht Hno Hrest).
    do 2 f_equal. lia.
Qed.

Lemma parse_instruction_check (opcode : string) (pats : list role)
  (tokens : list Token) (w : World) :
  signature opcode = Some pats ->
  parse_instruction (opcode, tokens) w
  = match first_role_error 0 pats tokens with
    | Some e => (Raise e, w)
    | None =>
        if (length pats <? length tokens)%nat then (Raise ArityTooMany, w)
        else print_xml (opcode, tokens) w
    end.
Proof.
  intros Hs. unfold parse_instruction. rewrite Hs. unfold bind at 1.
  pose proof (check_patterns_zip pats [] tokens w) as Z.
  cbn [length app] in Z. rewrite Z.
  destruct (first_role_error 0 pats tokens); [reflexivity|].
  unfold bind. now destruct (length pats <? length tokens)%nat.
Qed.

End AcceptFacts.

(* ================================================================== *)
(** * The definition of a label *)
(* ================================================================== *)

Module LabelDefFacts.
Import MonadFacts.

Lemma lookup_set_same (k : string) (v : nat) (d : dict) :
  Dict.lookup k (Dict.set k v d) = Some v.
Proof.
  induction d as [|[k' v'] d IH]; simpl.
  - now rewrite String.eqb_refl.
  - destruct (String.eqb k k') eqn:E; simpl; now rewrite E.
Qed.

(** [LABEL name] up to [print_xml]. *)
Lemma validate_label (name args : string) (w : World) :
  PyStr.split_ws args = [name] ->
  Shape.is_label name = true -> Shape.is_type_keyword name = false ->
  validate "LABEL" args w = print_xml ("LABEL", [mkToken Tlabel name]) w.
Proof.
  intros Hargs HL HT. unfold validate.
  change (signature "LABEL") with (Some [Rlabel]). rewrite Hargs.
  cbn [match_all]. unfold bind at 1 2.
  rewrite (OverlapFacts.label_token name w HL HT). unfold bind, ret.
  now rewrite (AcceptFacts.parse_instruction_check "LABEL" [Rlabel] _ w eq_refl).
Qed.

Lemma print_label_again (name : string) (w : World) :
  Dict.mem name (labels (stats w)) = true ->
  exists w',
    print_xml ("LABEL", [mkToken Tlabel name]) w = (Raise DuplicateLabelError, w')
    /\ labels (stats w') = labels (stats w)
    /\ jumps (stats w') = jumps (stats w)
    /\ order w' = S (order w)
    /\ stdout w' = (stdout w ++ [DuplicateLabelText])%list.
Proof.
  intros Hm. unfold print_xml, count_usage, record_label.
  unfold bind, get, incr_order, modify. cbn.
  destruct (Dict.lookup "LABEL" (used_instructions (stats w))); cbn;
    rewrite Hm; cbn; eexists; repeat split.
Qed.

Lemma print_label_first (name : string) (w : World) :
  Dict.mem name (labels (stats w)) = false ->
  exists w',
    print_xml ("LABEL", [mkToken Tlabel name]) w = (Ok tt, w')
    /\ labels (stats w') = Dict.set name (S (order w)) (labels (stats w))
    /\ jumps (stats w') = jumps (stats w)
    /\ order w' = S (order w)
    /\ stdout w'
       = (stdout w ++ [InstructionOpen (S (order w)) "LABEL";
                       ArgLine 1 "label" name; InstructionClose])%list.
Proof.
  intros Hm. unfold print_xml, count_usage, record_label, record_jump.
  unfold bind, get, incr_order, modify. cbn.
  destruct (Dict.lookup "LABEL" (used_instructions (stats w))); cbn;
    rewrite Hm; cbn; eexists; repeat split;
    cbn; now rewrite <- !app_assoc.
Qed.

End LabelDefFacts.

(* ================================================================== *)
(** * The arguments before the input is read *)
(* ================================================================== *)

Module UsageFacts.
Import MonadFacts.

Lemma index_of_in (x : string) (l : list string) :
  In x l -> exists i, index_of x l = Some i.
Proof.
  induction l as [|y l IH]; simpl; [tauto|].
  destruct (String.eqb_spec y x) as [->|Hne]; [eauto|].
  intros [E|H]; [congruence|]. destruct (IH H) as (i & ->). simpl. eauto.
Qed.

Lemma index_of_not_in (x : string) (l : list string) :
  ~ In x l -> index_of x l = None.
Proof.
  induction l as [|y l IH]; simpl; [reflexivity|].
  destruct (String.eqb_spec y x) as [->|Hne]; [tauto|].
  intros H. rewrite IH; tauto.
Qed.

Lemma index_of_zero (x : string) (l : list string) :
  index_of x l = Some 0 -> exists rest, l = x :: rest.
Proof.
  destruct l as [|y l]; simpl; [discriminate|].
  destruct (String.eqb_spec y x) as [->|Hne]; [eauto|].
  destruct (index_of x l); discriminate.
Qed.

(** [--help] with anything else. *)
Lemma help_combined (args : list string) (w : World) :
  In "--help" args -> args <> ["--help"] ->
  check_help args w = (Raise HelpCombined, w).
Proof.
  intros Hin Hne. unfold check_help.
  destruct (index_of_in _ _ Hin) as (i & Hi). rewrite Hi.
  destruct i as [|i]; [|reflexivity].
  apply index_of_zero in Hi as (rest & ->).
  destruct rest as [|a rest]; [congruence | reflexivity].
Qed.

Lemma split_on_cons (sep : ascii) (s : string) :
  exists x xs, PyStr.split_on sep s = x :: xs.
Proof.
  induction s as [|c s (x & xs & IH)]; simpl; [eauto|].
  destruct (Ascii.eqb c sep); [eauto|]. rewrite IH. eauto.
Qed.

(** The text after the first [=] of an argument that starts with
    [--stats=] is always there. *)
Lemma after_equals_stats (arg : string) (w : World) :
  PyStr.startswith "--stats=" arg = true ->
  exists x, after_equals arg w = (Ok x, w).
Proof.
  intros H. apply StrFacts.startswith_split in H.
  set (t := PyStr.drop (String.length "--stats=") arg) in H. clearbody t.
  subst arg. unfold after_equals.
  destruct (split_on_cons "=" t) as (x & xs & E).
  cbn. rewrite E. cbn. now exists x.
Qed.

Lemma after_equals_print (arg : string) (w : World) :
  PyStr.startswith "--print=" arg = true ->
  exists x, after_equals arg w = (Ok x, w).
Proof.
  intros H. apply StrFacts.startswith_split in H.
  set (t := PyStr.drop (String.length "--print=") arg) in H. clearbody t.
  subst arg. unfold after_equals.
  destruct (split_on_cons "=" t) as (x & xs & E).
  cbn. rewrite E. cbn. now exists x.
Qed.

(** [--stats] without a file name stops the collection of the names. *)
Lemma collect_missing_file (args : list string) :
  forall acc w,
    In "--stats" args ->
    collect_stats_files acc args w = (Raise StatsMissingFile, w).
Proof.
  induction args as [|arg rest IH]; intros acc w Hin; [destruct Hin|].
  cbn [collect_stats_files].
  destruct (PyStr.startswith "--stats=" arg) eqn:Hs.
  - destruct (after_equals_stats arg w Hs) as (x & Hx).
    rewrite (bind_ok _ _ _ _ _ Hx). apply IH.
    destruct Hin as [-> | Hin]; [cbn in Hs; discriminate | assumption].
  - destruct (String.eqb_spec arg "--stats") as [->|Hne]; [reflexivity|].
    apply IH. destruct Hin as [E | Hin]; [congruence | assumption].
Qed.

End UsageFacts.

(* ================================================================== *)
(** * The files and the scan *)
(* ================================================================== *)

Module FilesFacts.
Import MonadFacts ScanFacts.

Lemma print_xml_files (ia : instruction_array) : keeps files (print_xml ia).
Proof.
  destruct ia as [opcode tokens].
  unfold print_xml, record_label, record_jump. keeps_auto.
  1: apply count_usage_keeps; reflexivity.
  all: apply print_args_keeps; reflexivity.
Qed.

Lemma instruction_scan_files (instruction : string) :
  keeps files (instruction_scan instruction).
Proof.
  unfold instruction_scan, validate, parse_instruction. keeps_auto.
  - apply match_all_keeps.
  - apply check_patterns_keeps.
  - apply print_xml_files.
Qed.

Lemma read_lines_files (lines : list string) :
  forall first_line, keeps files (read_lines first_line lines).
Proof.
  induction lines as [|raw rest IH]; intros first_line; cbn [read_lines];
    keeps_auto; first [apply IH | apply instruction_scan_files].
Qed.

(** The scan writes no file. *)
Lemma scan_input_files (stdin : list string) : keeps files (scan_input stdin).
Proof. unfold scan_input. keeps_auto. apply read_lines_files. Qed.

Lemma check_arguments_files (args : list string) :
  keeps files (check_arguments args).
Proof.
  unfold check_arguments, check_help, check_duplicates. keeps_auto.
  apply keeps_of_state. intros w. apply MainFacts.collect_stats_files_state.
Qed.

(** Without [--stats=] in the first place the report does nothing. *)
Lemma report_without_stats (args : list string)
  (counts : option (nat * nat * nat)) (w : World) :
  PyStr.startswith "--stats=" (hd EmptyString args) = false ->
  report args counts w = (Ok tt, w).
Proof.
  unfold report. destruct args as [|arg0 rest]; [reflexivity|].
  cbn [hd]. now intros ->.
Qed.

Lemma run_is_the_scan (args stdin : list string) :
  PyStr.startswith "--stats=" (hd EmptyString args) = false ->
  fst (check_arguments args init_world) = Ok tt ->
  run args stdin = scan_input stdin init_world.
Proof.
  intros Hs Hc. unfold run, main.
  destruct (check_arguments args init_world) as [[[]|e] w0] eqn:E;
    [|discriminate].
  pose proof (MainFacts.check_arguments_ok _ _ _ E); subst w0.
  rewrite (bind_ok _ _ _ _ _ E). unfold bind.
  destruct (scan_input stdin init_world) as [[[]|e] w1]; [|reflexivity].
  pose proof (MainFacts.analyse_jumps_state args w1) as A.
  destruct (analyse_jumps args w1) as [[c|e] w2] eqn:Ea; simpl in A; subst w2.
  - now rewrite (report_without_stats args c w1 Hs).
  - exfalso. unfold analyse_jumps in Ea.
    destruct args as [|a rest]; [discriminate|].
    destruct (negb (PyStr.startswith "--help" a)); discriminate.
Qed.

Lemma run_files_without_stats (args stdin : list string) :
  PyStr.startswith "--stats=" (hd EmptyString args) = false ->
  files (snd (run args stdin)) = [].
Proof.
  intros Hs. unfold run, main.
  assert (K : keeps files (check_arguments args ;; scan_input stdin ;;
                           counts <- analyse_jumps args ;; report args counts)).
  { apply keeps_bind; [apply check_arguments_files | intros _].
    apply keeps_bind; [apply scan_input_files | intros _].
    apply keeps_bind;
      [apply keeps_of_state; intros w; apply MainFacts.analyse_jumps_state|].
    intros counts w. now rewrite (report_without_stats args counts w Hs). }
  now rewrite K.
Qed.

End FilesFacts.

(* ================================================================== *)
(** * The opcodes the frequency selector takes *)
(* ================================================================== *)

Module SelectionFacts.
Import MonadFacts FrequentFacts.

Lemma lookup_some_key (k : string) (v : nat) (d : dict) :
  Dict.lookup k d = Some v -> In k (Dict.keys d).
Proof.
  unfold Dict.keys. induction d as [|[k' v'] d IH]; simpl; [discriminate|].
  destruct (String.eqb_spec k k') as [->|_]; auto.
Qed.

Lemma lookup_none_key (k : string) (d : dict) :
  Dict.lookup k d = None -> ~ In k (Dict.keys d).
Proof.
  unfold Dict.keys. induction d as [|[k' v'] d IH]; simpl; [tauto|].
  destruct (String.eqb_spec k k') as [->|Hne]; [discriminate|].
  intros H [E|Hin]; [congruence | now apply IH].
Qed.

(** The opcodes taken are keys of the map, each taken once. *)
Lemma greedy_picks (threshold : float) (d d' : dict) (cap cap' : nat)
  (picks : list string) :
  greedy threshold d cap picks d' cap' ->
  NoDup (Dict.keys d) ->
  NoDup picks /\ (forall k, In k picks -> In k (Dict.keys d)).
Proof.
  induction 1 as [|d cap k m picks d' cap' B Hl Hall G IH]; intros Hnd.
  - split; [constructor | intros k []].
  - destruct (IH (del_nodup k d Hnd)) as [N I]. split.
    + constructor; [|assumption]. intros Hin. apply I in Hin.
      apply (lookup_none_key k (Dict.del k d)); [|assumption].
      now apply AnalysisFacts.lookup_del_same.
    + intros x [<- | Hx]; [now apply (lookup_some_key k m)|].
      apply (keys_del_incl k). auto.
Qed.

Lemma frequent_picks (w w' : World) (buffer : list string) :
  NoDup (Dict.keys (used w)) ->
  frequent w = (Ok buffer, w') ->
  NoDup buffer /\ (forall k, In k buffer -> In k (Dict.keys (used w))).
Proof.
  intros Hnd H.
  destruct (frequent_spec w w' buffer Hnd H)
    as (picks & cap' & G & _ & _ & Hperm & _).
  destruct (greedy_picks _ _ _ _ _ _ G Hnd) as [N I]. split.
  - apply (Permutation_NoDup (Permutation_sym Hperm) N).
  - intros k Hk. apply I. now apply (Permutation_in k Hperm).
Qed.

(** With no instruction counted, the selection is empty and the state is
    as it was. *)
Lemma frequent_of_nothing (w : World) :
  loc (stats w) = 0 -> frequent w = (Ok [], w).
Proof.
  intros H. unfold frequent. unfold bind at 1, get at 1. rewrite H.
  cbn [frequent_loop].
  change (below 0 (threshold_of 0)) with false. reflexivity.
Qed.

End SelectionFacts.

(* ================================================================== *)
(** * Lines and comments counted by the scan *)
(* ================================================================== *)

Module CountFacts.
Import MonadFacts ScanFacts.

Lemma occurs_lstrip (c : ascii) (s : string) :
  PyStr.isspace c = false -> occurs c (PyStr.lstrip s) = occurs c s.
Proof.
  intros Hc. induction s as [|a s IH]; [reflexivity|]. simpl.
  destruct (PyStr.isspace a) eqn:Ha; [|reflexivity].
  rewrite IH. destruct (Ascii.eqb_spec a c) as [->|_]; [congruence|reflexivity].
Qed.

Lemma occurs_rstrip (c : ascii) (s : string) :
  PyStr.isspace c = false -> occurs c (PyStr.rstrip s) = occurs c s.
Proof.
  intros Hc. induction s as [|a s IH]; [reflexivity|]. simpl.
  destruct (PyStr.rstrip s) as [|b r] eqn:E.
  - rewrite <- IH. simpl. destruct (PyStr.isspace a) eqn:Ha; simpl.
    + destruct (Ascii.eqb_spec a c) as [->|_]; [congruence|reflexivity].
    + reflexivity.
  - rewrite <- IH. reflexivity.
Qed.

Lemma occurs_strip (c : ascii) (s : string) :
  PyStr.isspace c = false -> occurs c (PyStr.strip s) = occurs c s.
Proof.
  intros Hc. unfold PyStr.strip.
  now rewrite occurs_rstrip, occurs_lstrip.
Qed.

Lemma occurs_startswith (s : string) :
  PyStr.startswith "#" s = true -> occurs "#" s = true.
Proof.
  destruct s as [|a s]; [discriminate|].
  cbn [PyStr.startswith occurs]. intros H.
  apply andb_prop in H as [H _]. now rewrite Ascii.eqb_sym, H.
Qed.

(** [split] at the first occurrence gives two parts exactly when there is
    an occurrence. *)
Lemma split1_occurs (c : ascii) (s : string) :
  (1 <? length (PyStr.split1 c s))%nat = occurs c s.
Proof.
  unfold PyStr.split1. induction s as [|a s IH]; [reflexivity|]. simpl.
  destruct (Ascii.eqb a c); [reflexivity|]. simpl.
  destruct (PyStr.cut c s) as [x [y|]]; exact IH.
Qed.

Lemma print_xml_keeps_stats {X} (g : Stats -> X) (ia : instruction_array) :
  (forall s d, g (mkStats (loc s) (comments s) (labels s) (jumps s) d (eol s))
               = g s) ->
  (forall s d, g (mkStats (loc s) (comments s) d (jumps s)
                          (used_instructions s) (eol s)) = g s) ->
  (forall s d, g (mkStats (loc s) (comments s) (labels s) d
                          (used_instructions s) (eol s)) = g s) ->
  keeps (fun w => g (stats w)) (print_xml ia).
Proof.
  intros Hu Hl Hj. destruct ia as [opcode tokens].
  unfold print_xml, record_label, record_jump. keeps_auto.
  1: apply count_usage_keeps; intros d w; apply Hu.
  all: try (apply print_args_keeps; reflexivity).
  all: try (apply keeps_modify; intros w; simpl; auto).
Qed.

Lemma validate_keeps_comments (opcode args : string) :
  keeps (fun w => comments (stats w)) (validate opcode args).
Proof.
  unfold validate, parse_instruction. keeps_auto.
  - apply match_all_keeps.
  - apply check_patterns_keeps.
  - apply (print_xml_keeps_stats comments); reflexivity.
Qed.

Lemma instruction_scan_keeps_eol (instruction : string) :
  keeps (fun w => eol (stats w)) (instruction_scan instruction).
Proof.
  unfold instruction_scan, validate, parse_instruction. keeps_auto.
  - apply match_all_keeps.
  - apply check_patterns_keeps.
  - apply (print_xml_keeps_stats eol); reflexivity.
Qed.

(** A line with an instruction counts as a comment when it has the
    comment character, whether the instruction is accepted or not. *)
Lemma instruction_scan_comments (instruction : string) (w : World) :
  PyStr.startswith "#" instruction = false ->
  is_empty (PyStr.strip instruction) = false ->
  comments (stats (snd (instruction_scan instruction w)))
  = comments (stats w) + (if occurs "#" instruction then 1 else 0).
Proof.
  intros Hc He. unfold instruction_scan. rewrite Hc, He. cbn [orb].
  rewrite split1_occurs.
  assert (K : forall instruction_part,
             keeps (fun w => comments (stats w))
               (match PyStr.split_ws1 instruction_part with
                | [] => raise IndexError
                | opcode :: more =>
                    validate opcode
                      match more with a :: _ => a | [] => EmptyString end
                end)).
  { intros p. destruct (PyStr.split_ws1 p) as [|opcode more];
      [apply keeps_raise | apply validate_keeps_comments]. }
  unfold bind. destruct (occurs "#" instruction); simpl.
  - rewrite (K _ _). simpl. lia.
  - rewrite (K _ _). lia.
Qed.

Lemma read_lines_counts (lines : list string) :
  forall w w', read_lines false lines w = (Ok tt, w') ->
  eol (stats w') = eol (stats w) + length lines
  /\ comments (stats w')
     = comments (stats w) + length (filter (occurs "#") lines).
Proof.
  induction lines as [|raw rest IH]; intros w w' H.
  - inversion H; subst. simpl. lia.
  - cbn [read_lines] in H. cbn [filter length].
    rewrite <- (occurs_strip "#" raw eq_refl).
    apply bind_inv_ok in H as ([] & w1 & H1 & H).
    assert (E : eol (stats w1) = S (eol (stats w))
                /\ comments (stats w1) = comments (stats w))
      by (inversion H1; subst; auto).
    destruct E as (E1 & C1); clear H1.
    destruct (PyStr.startswith "#" (PyStr.strip raw)) eqn:Hc.
    + rewrite (occurs_startswith _ Hc).
      apply bind_inv_ok in H as ([] & w2 & H2 & H).
      assert (E : eol (stats w2) = eol (stats w1)
                  /\ comments (stats w2) = S (comments (stats w1)))
        by (inversion H2; subst; simpl; split; [reflexivity | lia]).
      destruct E as (E2 & C2).
      apply IH in H as (E & C). cbn [length]. lia.
    + destruct (is_empty (PyStr.strip raw)) eqn:He.
      * destruct (PyStr.strip raw); [|discriminate]. cbn [occurs].
        apply IH in H as (E & C). lia.
      * apply bind_inv_ok in H as ([] & w2 & H2 & H).
        assert (E : eol (stats w2) = eol (stats w1)
                    /\ comments (stats w2) = comments (stats w1))
          by (inversion H2; subst; auto).
        destruct E as (E2 & C2); clear H2.
        apply bind_inv_ok in H as ([] & w3 & H3 & H).
        pose proof (keeps_run _ _ _ _ _
                      (instruction_scan_keeps_eol (PyStr.strip raw)) H3) as E3.
        simpl in E3.
        pose proof (instruction_scan_comments (PyStr.strip raw) w2 Hc) as C3.
        rewrite StrFacts.strip_idem in C3. specialize (C3 He).
        rewrite H3 in C3; simpl in C3.
        apply IH in H as (E & C).
        destruct (occurs "#" (PyStr.strip raw)); cbn [length]; lia.
Qed.

(** The scan of a whole input that raises no error. *)
Lemma scan_input_counts (stdin : list string) (w w' : World) :
  scan_input stdin w = (Ok tt, w') ->
  eol (stats w') = eol (stats w) + length stdin
  /\ comments (stats w') = comments (stats w) + length (comment_lines stdin).
Proof.
  unfold scan_input. intros H.
  apply bind_inv_ok in H as ([] & w1 & H1 & H).
  apply bind_inv_ok in H as ([] & w2 & H2 & H).
  apply bind_inv_ok in H as ([] & w3 & H3 & H).
  assert (E : stats w2 = stats w)
    by (inversion H1; subst w1; inversion H2; subst w2; reflexivity).
  assert (E' : stats w' = stats w3) by (inversion H; subst w'; reflexivity).
  rewrite E', <- E. clear H H1 H2 E E' w1 w w'.
  unfold comment_lines.
  destruct stdin as [|raw rest]; cbn [tl].
  - inversion H3; subst. simpl. lia.
  - cbn [read_lines] in H3.
    apply bind_inv_ok in H3 as ([] & w1 & H1 & H).
    assert (E : eol (stats w1) = S (eol (stats w2))
                /\ comments (stats w1) = comments (stats w2))
      by (inversion H1; subst; auto).
    destruct E as (E1 & C1).
    destruct (negb (PyStr.strip raw =? ".IPPcode24")%string); [discriminate|].
    apply read_lines_counts in H as (E & C). cbn [length]. lia.
Qed.

End CountFacts.

(* ================================================================== *)
(** * The positions of labels and of jumps *)
(* ================================================================== *)

Module JumpFacts.
Import MonadFacts ScanFacts LabelFacts.

Lemma in_set (k k' : string) (v v' : nat) (d : dict) :
  In (k, v) (Dict.set k' v' d) -> (k = k' /\ v = v') \/ In (k, v) d.
Proof.
  induction d as [|[k0 v0] d IH]; simpl.
  - intros [E|[]]. inversion E; auto.
  - destruct (String.eqb_spec k' k0) as [->|_]; simpl.
    + intros [E|H]; [inversion E; auto | auto].
    + intros [E|H]; [auto|]. destruct (IH H); auto.
Qed.

Lemma lookup_some_in (k : string) (v : nat) (d : dict) :
  Dict.lookup k d = Some v -> In (k, v) d.
Proof.
  induction d as [|[k' v'] d IH]; simpl; [discriminate|].
  destruct (String.eqb_spec k k') as [->|_]; [|auto].
  intros E; inversion E; auto.
Qed.

Lemma apart_of_marks (w w' : World) :
  marks w' = marks w -> apart w -> apart w'.
Proof.
  unfold marks, apart. intros E. inversion E as [[E1 E2 E3]].
  now rewrite E1, E2, E3.
Qed.

Lemma preserves_apart_of_keeps {A} (c : M A) :
  keeps marks c -> preserves apart c.
Proof. intros K w H. now apply (apart_of_marks w _ (K w)). Qed.

(** What printing an instruction does to the maps: nothing, or one label
    at the new order, or one jump at the new order. *)
Lemma print_xml_marks (opcode : string) (tokens : list Token) (w : World) :
  let w' := snd (print_xml (opcode, tokens) w) in
  marks w' = (labels (stats w), jumps (stats w), S (order w))
  \/ (exists name,
         marks w' = (Dict.set name (S (order w)) (labels (stats w)),
                     jumps (stats w), S (order w)))
  \/ (exists name,
         marks w' = (labels (stats w),
                     Dict.set name (S (order w)) (jumps (stats w)),
                     S (order w))).
Proof.
  assert (T : forall o, keeps marks
                (w0 <- get ;;
                 print (InstructionOpen (order w0) o) ;;
                 print_args 1 None tokens ;;
                 print InstructionClose)).
  { intros o. keeps_auto. apply print_args_keeps; reflexivity. }
  cbn zeta. remember (print_xml (opcode, tokens) w) as r eqn:R.
  unfold print_xml in R.
  unfold bind at 1, incr_order at 1, modify at 1 in R.
  set (w1 := mkWorld (stats w) (S (order w)) (stdout w) (files w)) in R.
  assert (C : exists d, count_usage opcode w1 = (Ok tt, with_used d w1)).
  { unfold count_usage, bind, get, set_used, set_stats, modify.
    destruct (Dict.lookup opcode _); eexists; reflexivity. }
  destruct C as (d & C). rewrite (bind_ok _ _ _ _ _ C) in R.
  set (w2 := with_used d w1) in R.
  assert (M2 : marks w2 = (labels (stats w), jumps (stats w), S (order w)))
    by reflexivity.
  clearbody w2. clear C.
  unfold record_label, record_jump in R.
  destruct (String.eqb_spec opcode "LABEL") as [->|Hne].
  - cbn [existsb jump_opcodes String.eqb Ascii.eqb Bool.eqb orb] in R.
    destruct tokens as [|t tokens']; [left; subst r; exact M2|].
    unfold bind at 1 2, get at 1 in R.
    destruct (Dict.mem (token_value t) (labels (stats w2))).
    + left. subst r. exact M2.
    + right; left. exists (token_value t).
      unfold set_labels, set_stats, modify in R. cbn [fst snd] in R.
      unfold bind at 1, ret at 1 in R. subst r.
      rewrite (T "LABEL" _). unfold marks in *. cbn.
      inversion M2 as [[E1 E2 E3]]. now rewrite E1, E2, E3.
  - unfold bind at 1, ret at 1 in R.
    destruct (existsb (String.eqb opcode) jump_opcodes).
    + destruct tokens as [|t tokens']; [left; subst r; exact M2|].
      right; right. exists (token_value t).
      unfold bind at 1 2, get at 1, set_jumps, set_stats, modify in R.
      cbn [fst snd] in R. subst r.
      rewrite (T opcode _). unfold marks in *. cbn.
      inversion M2 as [[E1 E2 E3]]. now rewrite E1, E2, E3.
    + left. unfold bind at 1, ret at 1 in R. subst r.
      now rewrite (T opcode _).
Qed.

Lemma print_xml_apart (ia : instruction_array) : preserves apart (print_xml ia).
Proof.
  destruct ia as [opcode tokens]. intros w (HL & HJ & HD).
  pose proof (print_xml_marks opcode tokens w) as E. cbn zeta in E.
  set (w' := snd (print_xml (opcode, tokens) w)) in *. clearbody w'.
  destruct E as [E | [(name & E) | (name & E)]];
    unfold marks, apart in *; inversion E as [[E1 E2 E3]];
    rewrite E1, E2, E3; clear E E1 E2 E3.
  - repeat split.
    + intros l n H. apply HL in H. lia.
    + intros l n H. apply HJ in H. lia.
    + exact HD.
  - repeat split.
    + intros l n H. apply in_set in H as [[_ ->] | H]; [lia|].
      apply HL in H. lia.
    + intros l n H. apply HJ in H. lia.
    + intros l l' n H H'. apply in_set in H as [[_ ->] | H].
      * apply HJ in H'. lia.
      * eapply HD; eassumption.
  - repeat split.
    + intros l n H. apply HL in H. lia.
    + intros l n H. apply in_set in H as [[_ ->] | H]; [lia|].
      apply HJ in H. lia.
    + intros l l' n H H'. apply in_set in H' as [[_ ->] | H'].
      * apply HL in H. lia.
      * eapply HD; eassumption.
Qed.

Lemma instruction_scan_apart (instruction : string) :
  preserves apart (instruction_scan instruction).
Proof.
  unfold instruction_scan, validate, parse_instruction.
  repeat first
    [ apply print_xml_apart
    | apply preserves_bind; [|intros ?]
    | apply preserves_apart_of_keeps;
      first [ apply match_all_keeps | apply check_patterns_keeps
            | solve [keeps_auto] ]
    | lazymatch goal with
      | |- preserves _ (if ?b then _ else _) => destruct b
      | |- preserves _ (match ?x with _ => _ end) => destruct x
      end ].
Qed.

Lemma read_lines_apart (lines : list string) :
  forall first_line, preserves apart (read_lines first_line lines).
Proof.
  induction lines as [|raw rest IH]; intros first_line; cbn [read_lines].
  - apply preserves_apart_of_keeps, keeps_ret.
  - repeat first
      [ apply IH
      | apply instruction_scan_apart
      | apply preserves_bind; [|intros ?]
      | apply preserves_apart_of_keeps; solve [keeps_auto]
      | lazymatch goal with
        | |- preserves _ (if ?b then _ else _) => destruct b
        end ].
Qed.

Lemma scan_input_apart (stdin : list string) :
  preserves apart (scan_input stdin).
Proof.
  unfold scan_input.
  repeat first
    [ apply read_lines_apart
    | apply preserves_bind; [|intros ?]
    | apply preserves_apart_of_keeps; solve [keeps_auto] ].
Qed.

Lemma init_apart : apart init_world.
Proof. repeat split; simpl; intros; tauto. Qed.

(** When no position is in both maps, no jump is counted as bad, and the
    jumps counted are the ones whose label is defined. *)
Lemma count_jumps_apart (labels items : dict) :
  (forall l l' n, In (l, n) labels -> In (l', n) items -> False) ->
  forall fw back bad,
    let '(fw', back', bad') := count_jumps labels items fw back bad in
    bad' = bad
    /\ fw' + back'
       = fw + back
         + length (filter (fun kv => Dict.mem (fst kv) labels) items).
Proof.
  induction items as [|[label order] items IH]; intros HD fw back bad;
    cbn [count_jumps filter length fst]; [split; lia|].
  assert (HD' : forall l l' n, In (l, n) labels -> In (l', n) items -> False)
    by (intros l l' n H H'; apply (HD l l' n H); now right).
  specialize (IH HD').
  destruct (Dict.lookup label labels) as [label_order|] eqn:E.
  - assert (Hm : Dict.mem label labels = true)
      by (unfold Dict.mem; now rewrite E).
    rewrite Hm. cbn [length].
    destruct (order <? label_order)%nat eqn:E1;
      [|destruct (label_order <? order)%nat eqn:E2].
    + specialize (IH (fw + 1) back bad).
      destruct (count_jumps labels items (fw + 1) back bad) as [[a b] c]. lia.
    + specialize (IH fw (back + 1) bad).
      destruct (count_jumps labels items fw (back + 1) bad) as [[a b] c]. lia.
    + apply Nat.ltb_ge in E1, E2.
      assert (label_order = order) by lia. subst label_order.
      elim (HD label label order); [now apply lookup_some_in | now left].
  - assert (Hm : Dict.mem label labels = false)
      by (unfold Dict.mem; now rewrite E).
    rewrite Hm. specialize (IH fw back bad).
    destruct (count_jumps labels items fw back bad) as [[a b] c]. lia.
Qed.

End JumpFacts.

(* ================================================================== *)
(** * The lines printed *)
(* ================================================================== *)

Module OutputFacts.
Import MonadFacts ScanFacts.

Lemma print_args_out (tokens : list Token) :
  forall n prev w w',
    print_args n prev tokens w = (Ok tt, w') ->
    exists lines,
      stdout w' = (stdout w ++ lines)%list
      /\ forall next opcode rest,
           well_formed next (Some (opcode, n)) (lines ++ rest)
           = well_formed next (Some (opcode, n + length tokens)) rest.
Proof.
  induction tokens as [|t tokens IH]; intros n prev w w' H;
    cbn [print_args] in H.
  - inversion H; subst. exists []. split; [now rewrite app_nil_r|].
    intros. cbn [app length]. now rewrite Nat.add_0_r.
  - destruct (decode_token prev t) as [[ty v]|]; [|discriminate].
    apply bind_inv_ok in H as ([] & w1 & H1 & H).
    inversion H1; subst w1. apply IH in H as (lines & E & W).
    exists (ArgLine n ty v :: lines). split.
    + rewrite E. cbn [stdout]. now rewrite <- app_assoc.
    + intros. cbn [app well_formed length].
      now rewrite Nat.eqb_refl, W, Nat.add_succ_r.
Qed.

Lemma record_label_ok (opcode : string) (tokens : list Token) (w w' : World) :
  record_label opcode tokens w = (Ok tt, w') ->
  stdout w' = stdout w /\ order w' = order w.
Proof.
  unfold record_label. destruct (String.eqb opcode "LABEL").
  - destruct tokens as [|t tokens]; [discriminate|].
    unfold bind at 1, get at 1.
    destruct (Dict.mem (token_value t) (labels (stats w))).
    + unfold bind, print, modify, raise. discriminate.
    + intros H; inversion H; subst. auto.
  - intros H; inversion H; subst. auto.
Qed.

Lemma record_jump_keeps {X} (f : World -> X) (opcode : string)
  (tokens : list Token) :
  (forall w s, f (mkWorld s (order w) (stdout w) (files w)) = f w) ->
  keeps f (record_jump opcode tokens).
Proof.
  intros Hf. unfold record_jump.
  destruct (existsb (String.eqb opcode) jump_opcodes); [|apply keeps_ret].
  destruct tokens as [|t tokens]; [apply keeps_raise|].
  intros w. unfold bind, get, set_jumps, set_stats, modify. apply Hf.
Qed.

(** An instruction that is printed: its opening line with the next
    order, one line for each token, its closing line. *)
Lemma print_xml_out (opcode : string) (tokens : list Token) (w w' : World) :
  print_xml (opcode, tokens) w = (Ok tt, w') ->
  exists lines,
    stdout w'
    = (stdout w
       ++ InstructionOpen (S (order w)) opcode :: lines ++ [InstructionClose])%list
    /\ forall next op rest,
         well_formed next (Some (op, 1)) (lines ++ rest)
         = well_formed next (Some (op, 1 + length tokens)) rest.
Proof.
  unfold print_xml. intros H.
  apply bind_inv_ok in H as ([] & w1 & H1 & H).
  assert (E1 : stdout w1 = stdout w /\ order w1 = S (order w))
    by (inversion H1; subst; auto).
  clear H1. destruct E1 as [S1 O1].
  apply bind_inv_ok in H as ([] & w2 & H2 & H).
  assert (E2 : stdout w2 = stdout w1 /\ order w2 = order w1).
  { split.
    - apply (keeps_run stdout _ _ _ _
               (count_usage_keeps stdout opcode (fun _ _ => eq_refl)) H2).
    - apply (keeps_run order _ _ _ _
               (count_usage_keeps order opcode (fun _ _ => eq_refl)) H2). }
  clear H2. destruct E2 as [S2 O2].
  apply bind_inv_ok in H as ([] & w3 & H3 & H).
  apply record_label_ok in H3 as [S3 O3].
  apply bind_inv_ok in H as ([] & w4 & H4 & H).
  assert (E4 : stdout w4 = stdout w3 /\ order w4 = order w3).
  { split.
    - apply (keeps_run stdout _ _ _ _
               (record_jump_keeps stdout opcode tokens (fun _ _ => eq_refl)) H4).
    - apply (keeps_run order _ _ _ _
               (record_jump_keeps order opcode tokens (fun _ _ => eq_refl)) H4). }
  clear H4. destruct E4 as [S4 O4].
  unfold bind at 1, get at 1 in H.
  apply bind_inv_ok in H as ([] & w5 & H5 & H).
  inversion H5; subst w5; clear H5.
  apply bind_inv_ok in H as ([] & w6 & H6 & H).
  apply print_args_out in H6 as (lines & S6 & W).
  inversion H; subst w'; clear H.
  exists lines. split; [|exact W].
  cbn [stdout] in *. rewrite S6, S4, S3, S2, S1, O4, O3, O2, O1.
  rewrite <- !app_assoc. reflexivity.
Qed.

Lemma first_role_error_length (pats : list role) :
  forall i tokens,
    first_role_error i pats tokens = None -> length pats <= length tokens.
Proof.
  induction pats as [|p pats IH]; intros i tokens H; simpl in *; [lia|].
  destruct tokens as [|t tokens]; [discriminate|].
  destruct (role_accepts p (token_type t)); [|discriminate].
  apply IH in H. simpl. lia.
Qed.

Lemma extends_nil (o : nat) : extends o o [].
Proof. intros rest. reflexivity. Qed.

Lemma extends_app (o o' o'' : nat) (a b : list out_line) :
  extends o o' a -> extends o' o'' b -> extends o o'' (a ++ b).
Proof. intros Ha Hb rest. now rewrite <- app_assoc, Ha, Hb. Qed.

Lemma validate_out (opcode args : string) (w w' : World) :
  validate opcode args w = (Ok tt, w') ->
  exists block,
    stdout w' = (stdout w ++ block)%list
    /\ order w' = S (order w)
    /\ extends (order w) (S (order w)) block.
Proof.
  intros H. pose proof (validate_ok opcode args w w' H) as [O _].
  unfold validate in H.
  destruct (signature opcode) as [pats|] eqn:Hs; [|discriminate].
  apply bind_inv_ok in H as (tokens & w1 & H1 & H).
  pose proof (match_all_state (PyStr.split_ws args) w) as S1.
  rewrite H1 in S1; simpl in S1; subst w1.
  rewrite (AcceptFacts.parse_instruction_check opcode pats tokens w Hs) in H.
  destruct (first_role_error 0 pats tokens) eqn:F; [discriminate|].
  apply first_role_error_length in F.
  destruct (length pats <? length tokens)%nat eqn:L; [discriminate|].
  apply Nat.ltb_ge in L.
  apply print_xml_out in H as (lines & E & W).
  exists (InstructionOpen (S (order w)) opcode :: lines ++ [InstructionClose]).
  split; [exact E|]. split; [exact O|].
  intros rest. cbn [app well_formed]. rewrite Nat.eqb_refl. cbn [andb].
  rewrite <- app_assoc, W. cbn [app well_formed].
  unfold arity_ok. rewrite Hs.
  replace (length tokens) with (length pats) by lia.
  cbn [Nat.add]. now rewrite Nat.eqb_refl.
Qed.

Lemma instruction_scan_out (instruction : string) (w w' : World) :
  instruction_scan instruction w = (Ok tt, w') ->
  exists body,
    stdout w' = (stdout w ++ body)%list /\ extends (order w) (order w') body.
Proof.
  unfold instruction_scan.
  destruct (PyStr.startswith "#" instruction
            || is_empty (PyStr.strip instruction)).
  - intros H; inversion H; subst. exists [].
    split; [now rewrite app_nil_r | apply extends_nil].
  - intros H. apply bind_inv_ok in H as ([] & w1 & H1 & H).
    assert (E : stdout w1 = stdout w /\ order w1 = order w).
    { split.
      - eapply (keeps_run stdout); [|exact H1]. keeps_auto.
      - eapply (keeps_run order); [|exact H1]. keeps_auto. }
    destruct E as [E1 E2].
    destruct (PyStr.split_ws1 _) as [|opcode more]; [discriminate|].
    apply validate_out in H as (block & S & O & X).
    exists block. rewrite S, O, E1, E2. rewrite E2 in X. auto.
Qed.

Lemma read_lines_out (lines : list string) :
  forall first_line w w',
    read_lines first_line lines w = (Ok tt, w') ->
    exists body,
      stdout w' = (stdout w ++ body)%list /\ extends (order w) (order w') body.
Proof.
  induction lines as [|raw rest IH]; intros first_line w w' H.
  - inversion H; subst. exists [].
    split; [now rewrite app_nil_r | apply extends_nil].
  - cbn [read_lines] in H.
    apply bind_inv_ok in H as ([] & w1 & H1 & H).
    assert (E : stdout w1 = stdout w /\ order w1 = order w)
      by (inversion H1; subst; auto).
    destruct E as [S1 O1]; clear H1. rewrite <- S1, <- O1.
    destruct first_line.
    { destruct (negb (PyStr.strip raw =? ".IPPcode24")%string);
        [discriminate | now apply IH in H]. }
    destruct (PyStr.startswith "#" (PyStr.strip raw)).
    { apply bind_inv_ok in H as ([] & w2 & H2 & H).
      assert (E : stdout w2 = stdout w1 /\ order w2 = order w1)
        by (inversion H2; subst; auto).
      destruct E as [S2 O2]. rewrite <- S2, <- O2. now apply IH in H. }
    destruct (is_empty (PyStr.strip raw)); [now apply IH in H|].
    apply bind_inv_ok in H as ([] & w2 & H2 & H).
    assert (E : stdout w2 = stdout w1 /\ order w2 = order w1)
      by (inversion H2; subst; auto).
    destruct E as [S2 O2]; clear H2. rewrite <- S2, <- O2.
    apply bind_inv_ok in H as ([] & w3 & H3 & H).
    apply instruction_scan_out in H3 as (a & Sa & Xa).
    apply IH in H as (b & Sb & Xb).
    exists (a ++ b)%list. split.
    + now rewrite Sb, Sa, app_assoc.
    + now apply (extends_app _ (order w3)).
Qed.

(** The output of a scan that ends well. *)
Lemma scan_input_out (stdin : list string) (w : World) :
  scan_input stdin init_world = (Ok tt, w) ->
  exists body,
    stdout w = XmlDecl :: ProgramOpen :: body ++ [ProgramClose]
    /\ well_formed 1 None body = true.
Proof.
  unfold scan_input. intros H.
  apply bind_inv_ok in H as ([] & w1 & H1 & H).
  apply bind_inv_ok in H as ([] & w2 & H2 & H).
  apply bind_inv_ok in H as ([] & w3 & H3 & H).
  inversion H1; subst w1. inversion H2; subst w2. clear H1 H2.
  apply read_lines_out in H3 as (body & S & X).
  inversion H; subst w. exists body. cbn [stdout order] in *. split.
  - rewrite S. reflexivity.
  - specialize (X []). rewrite app_nil_r in X. rewrite X. reflexivity.
Qed.

End OutputFacts.

(* ================================================================== *)
(** * The frequency selector on a map that is too small *)
(* ================================================================== *)

Module StarveFacts.
Import MonadFacts FrequentFacts.

Lemma with_used_same (w : World) : used w = [] -> with_used [] w = w.
Proof.
  destruct w as [[l c lb j u e] o out f]. unfold used, with_used; simpl.
  now intros ->.
Qed.

(** When all the counts of the map together stay below the threshold, the
    loop takes every opcode out of the map and then asks for the greatest
    of no counts. *)
Lemma frequent_loop_starves (fuel : nat) (threshold : float) :
  forall cap buf w,
    NoDup (Dict.keys (used w)) ->
    length (used w) < fuel ->
    (forall c, c <= cap + total (used w) -> below c threshold = true) ->
    frequent_loop fuel threshold cap buf w
    = (Raise ValueError, with_used [] w).
Proof.
  induction fuel as [|fuel IH]; intros cap buf w Hnd Hlen Hsum; [lia|].
  cbn [frequent_loop]. rewrite (Hsum cap) by lia.
  unfold bind at 1, get at 1. fold (used w).
  destruct (max_of (Dict.values (used w))) as [m|] eqn:Hm.
  - destruct (max_of_spec _ _ Hm) as [Hin _].
    destruct (keys_with m (used w)) as [|k ks] eqn:Hk;
      [now elim (keys_with_some m (used w) Hin)|].
    destruct (turn_takes_greatest _ _ _ _ Hnd Hm Hk) as [Hl _].
    unfold bind at 1, set_used at 1, set_stats at 1, modify at 1.
    rewrite IH; [reflexivity | | |].
    + now apply del_nodup.
    + unfold used at 1; simpl. fold (used w).
      rewrite (del_length k (used w) m Hl) in Hlen. lia.
    + unfold used at 1; simpl. fold (used w).
      intros c Hc. apply Hsum.
      rewrite (del_total k (used w) m Hl). lia.
  - apply max_of_none in Hm. unfold Dict.values in Hm.
    apply map_eq_nil in Hm. unfold raise. now rewrite with_used_same.
Qed.

Lemma frequent_starves (w : World) :
  NoDup (Dict.keys (used w)) ->
  loc (stats w) <= 120 ->
  20 * total (used w) < 7 * loc (stats w) ->
  frequent w = (Raise ValueError, with_used [] w).
Proof.
  intros Hnd Hloc Hsum. unfold frequent. unfold bind at 1, get at 1.
  fold (used w). apply bind_raise.
  apply frequent_loop_starves; [assumption | lia |].
  intros c Hc. cbn [Nat.add] in Hc.
  rewrite below_exact by lia. apply Nat.ltb_lt. lia.
Qed.

End StarveFacts.

(* ================================================================== *)
(** * A comment after an instruction *)
(* ================================================================== *)

Module CommentFacts.
Import MonadFacts.

Lemma occurs_app (c : ascii) (a b : string) :
  occurs c (a ++ b) = occurs c a || occurs c b.
Proof.
  induction a as [|x a IH]; [reflexivity|]. cbn [append occurs].
  now rewrite IH, orb_assoc.
Qed.

Lemma cut_none (c : ascii) (i : string) :
  occurs c i = false -> PyStr.cut c i = (i, None).
Proof.
  induction i as [|x i IH]; [reflexivity|]. cbn [occurs PyStr.cut].
  intros H. apply orb_false_elim in H as [Hx Hi].
  now rewrite Hx, (IH Hi).
Qed.

Lemma cut_first (c : ascii) (i rest : string) :
  occurs c i = false -> PyStr.cut c (i ++ String c rest) = (i, Some rest).
Proof.
  induction i as [|x i IH]; cbn [occurs append PyStr.cut].
  - now rewrite Ascii.eqb_refl.
  - intros H. apply orb_false_elim in H as [Hx Hi].
    now rewrite Hx, (IH Hi).
Qed.

Lemma startswith_no_occurrence (i s : string) :
  occurs "#" i = false -> i <> EmptyString ->
  PyStr.startswith "#" (i ++ s) = false.
Proof.
  destruct i as [|x i]; [congruence|]. cbn [occurs append PyStr.startswith].
  intros H _. apply orb_false_elim in H as [Hx _].
  now rewrite Ascii.eqb_sym, Hx.
Qed.

Lemma strip_not_empty (s : string) :
  occurs "#" s = true -> is_empty (PyStr.strip s) = false.
Proof.
  intros H. rewrite <- (CountFacts.occurs_strip "#" s eq_refl) in H.
  now destruct (PyStr.strip s).
Qed.

(** The text after the first [#] of an instruction line is counted as a
    comment and plays no other part. *)
Lemma instruction_scan_comment (i c : string) (w : World) :
  occurs "#" i = false ->
  is_empty (PyStr.strip i) = false ->
  instruction_scan (i ++ String "#" c) w
  = (incr_comments ;; instruction_scan i) w.
Proof.
  intros Hi He.
  assert (Hne : i <> EmptyString) by (intros ->; discriminate He).
  unfold instruction_scan.
  rewrite (startswith_no_occurrence i (String "#" c) Hi Hne).
  pose proof (startswith_no_occurrence i EmptyString Hi Hne) as S0.
  assert (A0 : i ++ EmptyString = i)
    by (clear; induction i as [|x i IH]; simpl; congruence).
  rewrite A0 in S0. rewrite S0, He.
  rewrite strip_not_empty
    by (rewrite occurs_app; cbn [occurs]; rewrite Ascii.eqb_refl;
        now rewrite orb_true_r).
  cbn [orb]. unfold PyStr.split1.
  rewrite (cut_first "#" i c Hi), (cut_none "#" i Hi).
  cbn [length hd Nat.ltb Nat.leb].
  unfold when, bind, incr_comments, set_stats, modify, ret. reflexivity.
Qed.

End CommentFacts.

(* ================================================================== *)
(** * The files of the statistics *)
(* ================================================================== *)

Module EventFacts.
Import MonadFacts ScanFacts.

Lemma writes_in_order (f : string) (texts : list string)
  (events : list file_event) :
  writes_follow_opens (Some f) (map (FWrite f) texts ++ events)
  = writes_follow_opens (Some f) events.
Proof.
  induction texts as [|t texts IH]; [reflexivity|].
  cbn [map app writes_follow_opens]. now rewrite String.eqb_refl, IH.
Qed.

Lemma writes_to_keeps {A} (f : string) (c : M A) :
  keeps files c -> writes_to f c.
Proof. intros K w. exists []. rewrite (K w). cbn. now rewrite app_nil_r. Qed.

Lemma writes_to_bind {A B} (f : string) (c : M A) (k : A -> M B) :
  writes_to f c -> (forall a, writes_to f (k a)) -> writes_to f (bind c k).
Proof.
  intros Hc Hk w. unfold bind. destruct (Hc w) as (t1 & E1).
  destruct (c w) as [[a|e] w1]; cbn [snd] in *.
  - destruct (Hk a w1) as (t2 & E2). exists (t1 ++ t2)%list.
    now rewrite E2, E1, map_app, app_assoc.
  - now exists t1.
Qed.

Lemma writes_to_write (f text : string) : writes_to f (file_do (FWrite f text)).
Proof. intros w. exists [text]. reflexivity. Qed.

Lemma reports_to_bind {A B} (f : string) (c : M A) (k : A -> M B) :
  writes_to f c -> (forall a, reports_to f (k a)) -> reports_to f (bind c k).
Proof.
  intros Hc Hk w. unfold bind. destruct (Hc w) as (t1 & E1).
  destruct (c w) as [[a|e] w1]; cbn [snd] in *.
  - destruct (Hk a w1) as (ev & E2 & W).
    exists (map (FWrite f) t1 ++ ev)%list. split.
    + now rewrite E2, E1, app_assoc.
    + now rewrite writes_in_order.
  - exists (map (FWrite f) t1). split; [assumption|].
    rewrite <- (app_nil_r (map _ _)). now rewrite writes_in_order.
Qed.

Lemma frequent_loop_files (fuel : nat) :
  forall threshold cap buffer,
    keeps files (frequent_loop fuel threshold cap buffer).
Proof.
  induction fuel as [|fuel IH]; intros threshold cap buffer;
    cbn [frequent_loop]; keeps_auto. apply IH.
Qed.

Lemma frequent_files : keeps files frequent.
Proof. unfold frequent. keeps_auto. apply frequent_loop_files. Qed.

(** One statistic: writes to the open file. *)
Ltac writes_step :=
  lazymatch goal with
  | |- writes_to _ (bind _ _) => apply writes_to_bind; [| intros ?]
  | |- writes_to _ (file_do (FWrite _ _)) => apply writes_to_write
  | |- writes_to _ (write_nat _ _) => apply writes_to_write
  | |- writes_to _ frequent => apply writes_to_keeps, frequent_files
  | |- writes_to _ (if ?b then _ else _) => destruct b
  | |- writes_to _ _ => apply writes_to_keeps; solve [keeps_auto]
  end.

Lemma write_stats_events (args : list string) :
  forall f counts, reports_to f (write_stats f counts args).
Proof.
  induction args as [|arg rest IH]; intros f counts; cbn [write_stats].
  - intros w. exists []. cbn. now rewrite app_nil_r.
  - destruct (PyStr.startswith "--stats=" arg).
    + intros w. unfold bind at 1.
      pose proof (MainFacts.after_equals_state arg w) as S.
      destruct (after_equals arg w) as [[filename|e] w1]; cbn [snd] in *;
        subst w1.
      * unfold bind at 1, file_do at 1, modify at 1.
        destruct (IH filename counts
                    (mkWorld (stats w) (order w) (stdout w)
                             (files w ++ [FOpen filename])))
          as (ev & E & W).
        exists (FOpen filename :: ev). split; [|exact W].
        rewrite E. cbn [files]. now rewrite <- app_assoc.
      * exists []. cbn. now rewrite app_nil_r.
    + apply reports_to_bind; [|intros _; apply IH].
      repeat writes_step.
Qed.

(** The report of a state that has no file event yet. *)
Lemma report_events (args : list string) (counts : option (nat * nat * nat))
  (w : World) :
  files w = [] ->
  writes_follow_opens None (files (snd (report args counts w))) = true.
Proof.
  intros Hw. unfold report.
  destruct args as [|arg0 rest]; [cbn; now rewrite Hw|].
  destruct (PyStr.startswith "--stats=" arg0); [|cbn; now rewrite Hw].
  unfold bind at 1.
  pose proof (MainFacts.after_equals_state arg0 w) as S.
  destruct (after_equals arg0 w) as [[filename|e] w1]; cbn [snd] in *;
    subst w1; [|now rewrite Hw].
  unfold bind at 1, file_do at 1, modify at 1.
  destruct (write_stats_events rest filename counts
              (mkWorld (stats w) (order w) (stdout w)
                       (files w ++ [FOpen filename])))
    as (ev & E & W).
  rewrite E. cbn [files]. rewrite Hw. exact W.
Qed.

Lemma run_events (args stdin : list string) :
  writes_follow_opens None (files (snd (run args stdin))) = true.
Proof.
  unfold run, main. unfold bind at 1.
  pose proof (FilesFacts.check_arguments_files args init_world) as K0.
  destruct (check_arguments args init_world) as [[[]|e] w0]; cbn [snd] in *;
    [|now rewrite K0].
  unfold bind at 1.
  pose proof (FilesFacts.scan_input_files stdin w0) as K1.
  destruct (scan_input stdin w0) as [[[]|e] w1]; cbn [snd] in *;
    [|now rewrite K1, K0].
  unfold bind at 1.
  pose proof (MainFacts.analyse_jumps_state args w1) as K2.
  destruct (analyse_jumps args w1) as [[counts|e] w2]; cbn [snd] in *;
    subst w2; [|now rewrite K1, K0].
  apply report_events. now rewrite K1, K0.
Qed.

End EventFacts.

(* ================================================================== *)
(** * Errors that no input produces *)
(* ================================================================== *)

Module SafetyFacts.
Import MonadFacts ScanFacts FrequentFacts.

Lemma safe_bind {A B} (P : World -> Prop) (bad : error -> bool)
  (c : M A) (k : A -> M B) :
  safe P bad c -> (forall a, safe P bad (k a)) -> safe P bad (bind c k).
Proof.
  intros Hc Hk w Hw. destruct (Hc w Hw) as [R Q].
  unfold raises, bind in *.
  destruct (c w) as [[a|e] w1]; cbn [fst snd] in *.
  - apply (Hk a w1 Q).
  - auto.
Qed.

Lemma safe_of {A} (P : World -> Prop) (bad : error -> bool) (c : M A) :
  never bad c -> preserves P c -> safe P bad c.
Proof. intros N K w Hw. split; [apply N | now apply K]. Qed.

(** The check of the patterns reads no token that is not there. *)
Lemma check_patterns_internal (pats : list role) (tokens : list Token) :
  forall i, never is_internal (check_patterns i pats tokens).
Proof.
  induction pats as [|p pats IH]; intros i w; cbn [check_patterns];
    [reflexivity|].
  destruct (length tokens <=? i)%nat eqn:L; [reflexivity|].
  apply Nat.leb_gt in L.
  destruct (nth_error tokens i) as [t|] eqn:E.
  - destruct (role_accepts p (token_type t)); [apply IH | reflexivity].
  - apply nth_error_None in E. lia.
Qed.

Lemma print_args_internal (tokens : list Token) :
  forall n prev, never is_internal (print_args n prev tokens).
Proof.
  induction tokens as [|t tokens IH]; intros n prev; cbn [print_args];
    never_auto.
  apply IH.
Qed.

(** The opcodes whose first token is read by [print_xml] have a
    signature that is not empty. *)
Lemma first_token_opcodes (opcode : string) :
  signature opcode = Some [] ->
  String.eqb opcode "LABEL" = false
  /\ existsb (String.eqb opcode) jump_opcodes = false.
Proof.
  intros H. split.
  - destruct (String.eqb_spec opcode "LABEL") as [->|_];
      [discriminate | reflexivity].
  - unfold jump_opcodes. cbn [existsb].
    destruct (String.eqb_spec opcode "CALL") as [->|_]; [discriminate|].
    destruct (String.eqb_spec opcode "JUMP") as [->|_]; [discriminate|].
    destruct (String.eqb_spec opcode "JUMPIFEQ") as [->|_]; [discriminate|].
    destruct (String.eqb_spec opcode "JUMPIFNEQ") as [->|_]; [discriminate|].
    reflexivity.
Qed.

Lemma print_xml_internal (opcode : string) (tokens : list Token) :
  (tokens = [] ->
   String.eqb opcode "LABEL" = false
   /\ existsb (String.eqb opcode) jump_opcodes = false) ->
  never is_internal (print_xml (opcode, tokens)).
Proof.
  intros H. unfold print_xml, count_usage, record_label, record_jump.
  destruct tokens as [|t tokens].
  - destruct (H eq_refl) as [-> ->]. never_auto; apply print_args_internal.
  - cbn beta iota. never_auto; apply print_args_internal.
Qed.

Lemma first_role_error_kind (pats : list role) :
  forall i tokens e,
    first_role_error i pats tokens = Some e -> is_internal e = false.
Proof.
  induction pats as [|p pats IH]; intros i tokens e H; simpl in H;
    [discriminate|].
  destruct tokens as [|t tokens]; [now inversion H|].
  destruct (role_accepts p (token_type t)); [now apply IH in H|].
  now inversion H.
Qed.

Lemma parse_instruction_internal (opcode : string) (pats : list role)
  (tokens : list Token) :
  signature opcode = Some pats ->
  never is_internal (parse_instruction (opcode, tokens)).
Proof.
  intros Hs w.
  rewrite (AcceptFacts.parse_instruction_check opcode pats tokens w Hs).
  destruct (first_role_error 0 pats tokens) as [e|] eqn:F.
  - unfold raises; cbn [fst]. now apply first_role_error_kind in F.
  - destruct (length pats <? length tokens)%nat; [reflexivity|].
    apply print_xml_internal. intros ->.
    apply OutputFacts.first_role_error_length in F.
    destruct pats; [|simpl in F; lia].
    now apply first_token_opcodes.
Qed.

Lemma match_all_internal (args : list string) :
  never is_internal (match_all args).
Proof.
  induction args as [|a args IH]; cbn [match_all]; unfold match_pattern;
    never_auto.
Qed.

Lemma validate_internal (opcode args : string) :
  never is_internal (validate opcode args).
Proof.
  unfold validate. destruct (signature opcode) as [pats|] eqn:Hs;
    [|intros w; reflexivity].
  apply never_bind; [apply match_all_internal | intros tokens].
  now apply (parse_instruction_internal opcode pats).
Qed.

Lemma strip_shape (raw : string) :
  PyStr.strip raw = EmptyString
  \/ exists c t, PyStr.strip raw = String c t /\ PyStr.isspace c = false.
Proof.
  unfold PyStr.strip.
  destruct (StrFacts.lstrip_head raw) as [-> | (c & t & -> & Hc)];
    [now left|].
  right. exists c, (PyStr.rstrip t). split; [|assumption].
  now apply StrFacts.rstrip_cons.
Qed.

Lemma split_ws1_cons (c : ascii) (r : string) :
  PyStr.isspace c = false ->
  exists opcode more, PyStr.split_ws1 (String c r) = opcode :: more.
Proof.
  intros Hc. unfold PyStr.split_ws1. cbn [PyStr.lstrip]. rewrite Hc.
  destruct (PyStr.word (String c r)) as [w r'].
  destruct (PyStr.lstrip r'); eexists; eexists; reflexivity.
Qed.

Lemma hd_split1 (sep c : ascii) (t : string) :
  Ascii.eqb c sep = false ->
  exists a, hd EmptyString (PyStr.split1 sep (String c t)) = String c a.
Proof.
  intros H. unfold PyStr.split1. cbn [PyStr.cut]. rewrite H.
  destruct (PyStr.cut sep t) as [a [b|]]; exists a; reflexivity.
Qed.

(** A trimmed line has an opcode, or it is skipped. *)
Lemma instruction_scan_internal (raw : string) :
  never is_internal (instruction_scan (PyStr.strip raw)).
Proof.
  intros w. destruct (strip_shape raw) as [-> | (c & t & -> & Hc)];
    [reflexivity|].
  unfold instruction_scan.
  destruct (PyStr.startswith "#" (String c t)) eqn:Hs; [reflexivity|].
  cbn [orb].
  destruct (is_empty (PyStr.strip (String c t))); [reflexivity|].
  cbn [PyStr.startswith] in Hs. rewrite andb_true_r, Ascii.eqb_sym in Hs.
  destruct (hd_split1 "#" c t Hs) as (a & ->).
  assert (E : PyStr.strip (String c a) = String c (PyStr.rstrip a)).
  { unfold PyStr.strip. cbn [PyStr.lstrip]. rewrite Hc.
    now apply StrFacts.rstrip_cons. }
  rewrite E.
  destruct (split_ws1_cons c (PyStr.rstrip a) Hc) as (opcode & more & ->).
  revert w. apply never_bind; [never_auto | intros _].
  apply validate_internal.
Qed.

Lemma read_lines_internal (lines : list string) :
  forall first_line, never is_internal (read_lines first_line lines).
Proof.
  induction lines as [|raw rest IH]; intros first_line; cbn [read_lines];
    never_auto; first [apply IH | apply instruction_scan_internal].
Qed.

Lemma scan_input_internal (stdin : list string) :
  never is_internal (scan_input stdin).
Proof. unfold scan_input. never_auto. apply read_lines_internal. Qed.

Lemma collect_stats_files_internal (args : list string) :
  forall acc, never is_internal (collect_stats_files acc args).
Proof.
  induction args as [|arg rest IH]; intros acc w; cbn [collect_stats_files];
    [reflexivity|].
  destruct (PyStr.startswith "--stats=" arg) eqn:Hs.
  - destruct (UsageFacts.after_equals_stats arg w Hs) as (x & E).
    rewrite (bind_ok _ _ _ _ _ E). apply IH.
  - destruct (arg =? "--stats")%string; [reflexivity | apply IH].
Qed.

Lemma check_arguments_internal (args : list string) :
  never is_internal (check_arguments args).
Proof.
  unfold check_arguments, check_help, check_duplicates. never_auto.
  apply collect_stats_files_internal.
Qed.

(** The loop of the frequency selector: with the fuel the model gives
    it, it ends by itself or with the greatest of no values. *)
Lemma frequent_loop_internal (fuel : nat) (threshold : float) :
  forall cap buf w,
    NoDup (Dict.keys (used w)) ->
    length (used w) < fuel ->
    raises is_internal (frequent_loop fuel threshold cap buf w) = false.
Proof.
  induction fuel as [|fuel IH]; intros cap buf w Hnd Hlen; [lia|].
  cbn [frequent_loop]. destruct (below cap threshold) eqn:B; [|reflexivity].
  unfold bind at 1, get at 1. fold (used w).
  destruct (max_of (Dict.values (used w))) as [m|] eqn:Hm; [|reflexivity].
  destruct (max_of_spec _ _ Hm) as [Hin _].
  destruct (keys_with m (used w)) as [|k ks] eqn:Hk;
    [now elim (keys_with_some m (used w) Hin)|].
  destruct (turn_takes_greatest _ _ _ _ Hnd Hm Hk) as [Hl _].
  unfold bind at 1, set_used at 1, set_stats at 1, modify at 1.
  apply IH.
  - now apply del_nodup.
  - unfold used at 1; simpl. fold (used w).
    rewrite (del_length k (used w) m Hl) in Hlen. lia.
Qed.

Lemma frequent_safe : safe used_is_dict is_internal frequent.
Proof.
  intros w Hnd. split; [|now apply DictFacts.frequent_dict].
  unfold frequent. unfold bind at 1, get at 1.
  pose proof (frequent_loop_internal (S (length (used w)))
                (threshold_of (loc (stats w))) 0 [] w Hnd
                (Nat.lt_succ_diag_r _)) as H.
  fold (used w). unfold raises, bind in *.
  destruct (frequent_loop _ _ 0 [] w) as [[b|e] w1]; [reflexivity | exact H].
Qed.

Lemma safe_quiet {A} (c : M A) :
  never is_internal c -> keeps used c -> safe used_is_dict is_internal c.
Proof.
  intros N K. apply safe_of; [exact N|].
  now apply DictFacts.preserves_dict_of_keeps.
Qed.

Lemma after_equals_safe {B} (arg : string) (k : string -> M B) :
  (exists x, forall w, after_equals arg w = (Ok x, w)) ->
  (forall x, safe used_is_dict is_internal (k x)) ->
  safe used_is_dict is_internal (bind (after_equals arg) k).
Proof.
  intros (x & E) Hk w Hw. rewrite (bind_ok _ _ _ _ _ (E w)).
  now apply Hk.
Qed.

Lemma after_equals_total (arg : string) :
  PyStr.startswith "--stats=" arg = true
  \/ PyStr.startswith "--print=" arg = true ->
  exists x, forall w, after_equals arg w = (Ok x, w).
Proof.
  intros H.
  assert (E : exists x, after_equals arg init_world = (Ok x, init_world))
    by (destruct H as [H|H];
        [now apply UsageFacts.after_equals_stats
        | now apply UsageFacts.after_equals_print]).
  destruct E as (x & E). exists x. intros w.
  unfold after_equals in *.
  destruct (nth_error (PyStr.split_on "=" arg) 1); [|discriminate].
  inversion E; subst. reflexivity.
Qed.

Ltac quiet := apply safe_quiet; [never_auto | keeps_auto].

Lemma write_stats_safe (args : list string) :
  forall f counts,
    safe used_is_dict is_internal (write_stats f counts args).
Proof.
  induction args as [|arg rest IH]; intros f counts; cbn [write_stats].
  - quiet.
  - destruct (PyStr.startswith "--stats=" arg) eqn:Hs.
    + apply after_equals_safe; [apply after_equals_total; now left|].
      intros filename. apply safe_bind; [quiet | intros _; apply IH].
    + apply safe_bind; [|intros _; apply IH].
      repeat lazymatch goal with
             | |- safe _ _ (if ?b then _ else _) => destruct b eqn:?
             end;
        try solve [quiet].
      * apply after_equals_safe; [apply after_equals_total; now right|].
        intros x. quiet.
      * apply safe_bind; [apply frequent_safe | intros buffer]. quiet.
Qed.

Lemma report_safe (args : list string) (counts : option (nat * nat * nat)) :
  safe used_is_dict is_internal (report args counts).
Proof.
  unfold report. destruct args as [|arg0 rest]; [quiet|].
  destruct (PyStr.startswith "--stats=" arg0) eqn:Hs; [|quiet].
  apply after_equals_safe; [apply after_equals_total; now left|].
  intros filename. apply safe_bind; [quiet | intros _].
  apply write_stats_safe.
Qed.

Lemma main_safe (args stdin : list string) :
  safe used_is_dict is_internal (main args stdin).
Proof.
  unfold main.
  apply safe_bind.
  { apply safe_quiet; [apply check_arguments_internal|].
    unfold check_arguments, check_help, check_duplicates. keeps_auto.
    apply keeps_of_state. intros w. apply MainFacts.collect_stats_files_state. }
  intros _. apply safe_bind.
  { apply safe_of; [apply scan_input_internal|].
    unfold scan_input.
    repeat first
      [ apply DictFacts.read_lines_dict
      | apply LabelFacts.preserves_bind; [|intros ?]
      | apply DictFacts.preserves_dict_of_keeps; solve [keeps_auto] ]. }
  intros _. apply safe_bind; [|intros counts; apply report_safe].
  unfold analyse_jumps, classify_jumps. quiet.
Qed.

End SafetyFacts.

(* ================================================================== *)
(** * The counts of the used instructions *)
(* ================================================================== *)

Module TallyFacts.
Import MonadFacts ScanFacts.

Lemma total_set (k : string) (d : dict) :
  total (Dict.set k (match Dict.lookup k d with
                     | Some n => n + 1
                     | None => 1
                     end) d)
  = S (total d).
Proof.
  unfold total, Dict.values.
  induction d as [|[k' v'] d IH]; [reflexivity|]. cbn [Dict.lookup Dict.set].
  destruct (String.eqb k k').
  - simpl. lia.
  - simpl in *. rewrite IH. lia.
Qed.

Lemma count_usage_total (opcode : string) (w : World) :
  exists d,
    count_usage opcode w = (Ok tt, with_used d w)
    /\ total d = S (total (used w)).
Proof.
  pose proof (total_set opcode (used w)) as T.
  unfold count_usage, bind, get, set_used, set_stats, modify.
  fold (used w). destruct (Dict.lookup opcode (used w)); eexists; split;
    first [reflexivity | exact T].
Qed.

(** Printing an instruction counts it once, whatever happens next. *)
Lemma print_xml_total (ia : instruction_array) (w : World) :
  total (used (snd (print_xml ia w))) = S (total (used w)).
Proof.
  destruct ia as [opcode tokens]. unfold print_xml.
  unfold bind at 1, incr_order at 1, modify at 1.
  set (w1 := mkWorld (stats w) (S (order w)) (stdout w) (files w)).
  destruct (count_usage_total opcode w1) as (d & C & T).
  rewrite (bind_ok _ _ _ _ _ C).
  match goal with
  | |- total (used (snd (?k ?w2))) = _ =>
      assert (K : keeps used k); [| now rewrite K]
  end.
  unfold record_label, record_jump. keeps_auto.
  all: apply print_args_keeps; reflexivity.
Qed.

Lemma print_xml_tallied (ia : instruction_array) :
  preserves tallied (print_xml ia).
Proof.
  intros w H. unfold tallied in *.
  now rewrite print_xml_total, print_xml_order, H.
Qed.

Lemma preserves_tallied_of_keeps {A} (c : M A) :
  keeps used c -> keeps order c -> preserves tallied c.
Proof. intros K1 K2 w H. unfold tallied in *. now rewrite K1, K2. Qed.

Ltac tallied_auto :=
  repeat first
    [ apply print_xml_tallied
    | apply LabelFacts.preserves_bind; [|intros ?]
    | apply preserves_tallied_of_keeps;
      first [ apply match_all_keeps | apply check_patterns_keeps
            | solve [keeps_auto] ]
    | lazymatch goal with
      | |- preserves _ (if ?b then _ else _) => destruct b
      | |- preserves _ (match ?x with _ => _ end) => destruct x
      end ].

Lemma instruction_scan_tallied (instruction : string) :
  preserves tallied (instruction_scan instruction).
Proof. unfold instruction_scan, validate, parse_instruction. tallied_auto. Qed.

Lemma read_lines_tallied (lines : list string) :
  forall first_line, preserves tallied (read_lines first_line lines).
Proof.
  induction lines as [|raw rest IH]; intros first_line; cbn [read_lines].
  - apply preserves_tallied_of_keeps; apply keeps_ret.
  - repeat first
      [ apply IH
      | apply instruction_scan_tallied
      | apply LabelFacts.preserves_bind; [|intros ?]
      | apply preserves_tallied_of_keeps; solve [keeps_auto]
      | lazymatch goal with
        | |- preserves _ (if ?b then _ else _) => destruct b
        end ].
Qed.

Lemma scan_input_tallied (stdin : list string) :
  preserves tallied (scan_input stdin).
Proof.
  unfold scan_input.
  repeat first
    [ apply read_lines_tallied
    | apply LabelFacts.preserves_bind; [|intros ?]
    | apply preserves_tallied_of_keeps; solve [keeps_auto] ].
Qed.

(** After a scan that ends well, the counts of the map add up to the
    instruction count. *)
Lemma scan_input_total (stdin : list string) (w : World) :
  scan_input stdin init_world = (Ok tt, w) ->
  total (used w) = loc (stats w).
Proof.
  intros H.
  pose proof (scan_input_tallied stdin init_world eq_refl) as T.
  rewrite H in T. cbn [snd] in T. unfold tallied in T.
  apply scan_input_ok in H as (O & L & _). cbn in O, L. congruence.
Qed.

End TallyFacts.

(* ================================================================== *)
(** * When an unknown argument is found *)
(* ================================================================== *)

Module ArgumentOrderFacts.
Import MonadFacts.

Abbreviation known := (never is_unknown_argument).

Lemma check_arguments_known (args : list string) :
  known (check_arguments args).
Proof.
  unfold check_arguments, check_help, check_duplicates. never_auto.
  revert a. generalize (@nil string).
  induction args as [|arg rest IH]; intros acc a; cbn [collect_stats_files];
    never_auto; apply IH; exact a.
Qed.

Lemma print_args_known (tokens : list Token) :
  forall n prev, known (print_args n prev tokens).
Proof.
  induction tokens as [|t tokens IH]; intros n prev; cbn [print_args];
    never_auto.
  apply IH.
Qed.

Lemma check_patterns_known (pats : list role) (tokens : list Token) :
  forall i, known (check_patterns i pats tokens).
Proof.
  induction pats as [|p pats IH]; intros i; cbn [check_patterns]; never_auto.
  apply IH.
Qed.

Lemma match_all_known (args : list string) : known (match_all args).
Proof.
  induction args as [|a args IH]; cbn [match_all]; unfold match_pattern;
    never_auto.
Qed.

Lemma instruction_scan_known (instruction : string) :
  known (instruction_scan instruction).
Proof.
  unfold instruction_scan, validate, parse_instruction, print_xml,
    count_usage, record_label, record_jump.
  never_auto;
    first [apply match_all_known | apply check_patterns_known
          | apply print_args_known].
Qed.

Lemma read_lines_known (lines : list string) :
  forall first_line, known (read_lines first_line lines).
Proof.
  induction lines as [|raw rest IH]; intros first_line; cbn [read_lines];
    never_auto; first [apply IH | apply instruction_scan_known].
Qed.

Lemma scan_input_known (stdin : list string) : known (scan_input stdin).
Proof. unfold scan_input. never_auto. apply read_lines_known. Qed.

(** An unknown argument is found by the report, after the scan. *)
Lemma unknown_argument_is_late (args stdin : list string) :
  raises is_unknown_argument (run args stdin) = true ->
  PyStr.startswith "--stats=" (hd EmptyString args) = true
  /\ exists w,
       scan_input stdin init_world = (Ok tt, w)
       /\ stdout (snd (run args stdin)) = stdout w.
Proof.
  intros H. unfold run, main in *.
  destruct (check_arguments args init_world) as [[[]|e] w0] eqn:E0.
  2:{ rewrite (bind_raise _ _ _ _ _ E0) in H.
      pose proof (check_arguments_known args init_world) as K.
      unfold raises in *. rewrite E0 in K. cbn in *. congruence. }
  pose proof (MainFacts.check_arguments_ok _ _ _ E0); subst w0.
  rewrite (bind_ok _ _ _ _ _ E0) in *.
  destruct (scan_input stdin init_world) as [[[]|e] w1] eqn:E1.
  2:{ rewrite (bind_raise _ _ _ _ _ E1) in H.
      pose proof (scan_input_known stdin init_world) as K.
      unfold raises in *. rewrite E1 in K. cbn in *. congruence. }
  rewrite (bind_ok _ _ _ _ _ E1) in *.
  destruct (analyse_jumps args w1) as [[counts|e] w2] eqn:E2.
  2:{ exfalso. unfold analyse_jumps, classify_jumps in E2.
      destruct args as [|a rest]; [discriminate|].
      destruct (negb (PyStr.startswith "--help" a)); discriminate. }
  pose proof (MainFacts.analyse_jumps_state args w1) as S2.
  rewrite E2 in S2. cbn in S2. subst w2.
  rewrite (bind_ok _ _ _ _ _ E2) in *.
  split.
  - destruct (PyStr.startswith "--stats=" (hd EmptyString args)) eqn:Hs;
      [reflexivity|].
    rewrite (FilesFacts.report_without_stats args counts w1 Hs) in H.
    discriminate.
  - exists w1. split; [reflexivity|].
    apply (MainFacts.report_keeps _ MainFacts.stdout_ignores_report
             args counts w1).
Qed.

End ArgumentOrderFacts.

(* ================================================================== *)
(** * The classifier on text of every code point *)
(* ================================================================== *)

Module UniFacts.
Import Re Uni UShape.





(** ** The matcher accepts texts of the language only *)














(** ** What the database has below 256 *)




(** ** A text that matches a pattern has the shape *)



















End UniFacts.

(* ================================================================== *)
(** * The classifier of the scanner is the classifier on code points *)
(* ================================================================== *)

Module RestrictFacts.







Lemma unicode_14_latin1 : Uni.latin1 Uni.unicode_14 = true.
Proof. vm_compute. reflexivity. Qed.

End RestrictFacts.

(* ================================================================== *)
(** * The properties of the specification *)
(* ================================================================== *)

(** C1. On an input that raises no error, the orders of the instructions
    printed are 1, 2, ..., N in this order, where N is the number of lines
    after the header that are neither empty after trimming nor comment
    lines; N is also the instruction count of the statistics. This holds
    for the scan of the input and for a whole run. *)
Theorem C1_positions_are_1_to_N :
  (forall (stdin : list string) (w : World),
      scan_input stdin init_world = (Ok tt, w) ->
      instruction_orders (stdout w) = seq 1 (length (instruction_lines stdin))
      /\ order w = length (instruction_lines stdin)
      /\ loc (stats w) = length (instruction_lines stdin))
  /\ (forall (args stdin : list string) (w : World),
         run args stdin = (Ok tt, w) ->
         instruction_orders (stdout w)
         = seq 1 (length (instruction_lines stdin))
         /\ order w = length (instruction_lines stdin)
         /\ loc (stats w) = length (instruction_lines stdin)).
Proof.
  assert (S : forall stdin w,
             scan_input stdin init_world = (Ok tt, w) ->
             instruction_orders (stdout w)
             = seq 1 (length (instruction_lines stdin))
             /\ order w = length (instruction_lines stdin)
             /\ loc (stats w) = length (instruction_lines stdin)).
  { intros stdin w H.
    apply ScanFacts.scan_input_ok in H as (O & L & P).
    unfold printed_orders in P. simpl in O, L, P. auto. }
  split; [exact S|].
  intros args stdin w H.
  apply MainFacts.run_ok in H as (w1 & counts & H1 & H2).
  apply S in H1 as (P & O & L).
  pose proof (MainFacts.report_keeps stdout MainFacts.stdout_ignores_report
                args counts w1) as K1.
  pose proof (MainFacts.report_keeps order MainFacts.order_ignores_report
                args counts w1) as K2.
  pose proof (MainFacts.report_keeps _ MainFacts.loc_ignores_report
                args counts w1) as K3.
  rewrite H2 in K1, K2, K3. simpl in K1, K2, K3.
  now rewrite K1, K2, K3.
Qed.

Lemma C1_witness :
  instruction_orders
    (stdout (snd (run [] [".IPPcode24"; "DEFVAR GF@a"; "# note"; "";
                          "MOVE GF@a int@5 # set"; "WRITE GF@a"])))
  = [1; 2; 3].
Proof.
  apply (proj2 C1_positions_are_1_to_N []
           [".IPPcode24"; "DEFVAR GF@a"; "# note"; "";
            "MOVE GF@a int@5 # set"; "WRITE GF@a"]).
  vm_compute. reflexivity.
Defined.

(** C2, on the code. The program JUMP x, LABEL x, JUMP x has two jumps,
    the first forward and the second backward, and the scan counts the
    opcode JUMP twice. But [print_xml] records a jump in a map from the
    label to the order, so the jump of position 3 overwrites the jump of
    position 1: the jump map has the one entry of x at 3. The analysis
    goes through the jump map and counts this one backward jump and no
    forward jump, and the run writes 0 for [--fwjumps], 1 for
    [--backjumps] and 1 for [--jumps], which the usage text of the program
    gives as the numbers of forward jumps, of backward jumps and of jumps.
    In every state the three counts together are at most the number of
    entries of the jump map, which has one entry for each label jumped
    to. *)
Theorem C2_jump_scenario :
  (exists w,
      jump_analysis scenario_jumps = (Ok (0, 1, 0), w)
      /\ instruction_orders (stdout w) = [1; 2; 3]
      /\ used w = [("JUMP", 2); ("LABEL", 1)]
      /\ labels (stats w) = [("x", 2)]
      /\ jumps (stats w) = [("x", 3)])
  /\ jumps (stats (scanned [".IPPcode24"; "JUMP x"])) = [("x", 1)]
  /\ files (snd (run ["--stats=out"; "--fwjumps"; "--backjumps"; "--badjumps";
                      "--labels"; "--jumps"] scenario_jumps))
     = [FOpen "out"; FWrite "out" ("0" ++ nl); FWrite "out" ("1" ++ nl);
        FWrite "out" ("0" ++ nl); FWrite "out" ("1" ++ nl);
        FWrite "out" ("1" ++ nl)]
  /\ (forall (w w' : World) (fw back bad : nat),
         classify_jumps w = (Ok (fw, back, bad), w') ->
         fw + back + bad <= length (jumps (stats w))).
Proof.
  split; [|split; [|split]].
  - eexists. unfold jump_analysis. vm_compute. repeat split.
  - reflexivity.
  - reflexivity.
  - exact AnalysisFacts.classify_jumps_bound.
Qed.

Lemma C2_witness : 0 + 1 + 0 <= length (jumps (stats (scanned scenario_jumps))).
Proof.
  apply (proj2 (proj2 (proj2 C2_jump_scenario))
           (scanned scenario_jumps) (scanned scenario_jumps) 0 1 0).
  reflexivity.
Defined.

(** C3, on the code. The classifier accepts nil@nil as a constant and
    keeps the whole operand as its value. The decoding tests that value
    against the text nil, so the constant takes no branch: it is given no
    sub-kind and no value of its own. As the first operand this is an
    unbound local ([PUSHS nil@nil] stops the run), as a later operand the
    type and value of the operand before it are printed again. The other
    constants are decoded as the specification says
    ([DecodeFacts.decode_round_trip]). *)
Theorem C3_nil_constant_is_not_decoded :
  fst (match_pattern "nil@nil" init_world) = Ok (mkToken Tconst "nil@nil")
  /\ decode_token None (mkToken Tconst "nil@nil") = None
  /\ decode_token (Some ("var", "GF@a")) (mkToken Tconst "nil@nil")
     = Some ("var", "GF@a")
  /\ fst (run [] [".IPPcode24"; "PUSHS nil@nil"]) = Raise UnboundLocalError
  /\ stdout (snd (run [] [".IPPcode24"; "MOVE GF@a nil@nil"]))
     = [XmlDecl; ProgramOpen; InstructionOpen 1 "MOVE";
        ArgLine 1 "var" "GF@a"; ArgLine 2 "var" "GF@a";
        InstructionClose; ProgramClose].
Proof. repeat split. Qed.

(** C4. The frequency selector makes the greedy selection: while the
    running total is below the threshold [stats.loc * 0.35] it takes an
    opcode with the greatest count out of the map of used instructions and
    adds the count to the total; it stops when the total is not below the
    threshold, and it returns the opcodes taken in the order of [str]. It
    returns whenever the counts of the map reach the threshold together,
    and the fuel of the model never runs out. The map has every key once
    at the end of every scan and after every selection. The comparison is
    the one of the source, in binary64; up to 120 instructions it is the
    comparison of 20 * total with 7 * loc. For 10 instructions and the map
    A:5, B:3, C:2 the result is the list of A alone. *)
Theorem C4_frequent_selection :
  (forall (w w' : World) (buffer : list string),
      NoDup (Dict.keys (used w)) ->
      frequent w = (Ok buffer, w') ->
      exists picks cap',
        greedy (threshold_of (loc (stats w))) (used w) 0 picks (used w') cap'
        /\ below cap' (threshold_of (loc (stats w))) = false
        /\ buffer = sort picks
        /\ Permutation buffer picks
        /\ Sorted str_le buffer)
  /\ (forall w : World,
         NoDup (Dict.keys (used w)) ->
         below (total (used w)) (threshold_of (loc (stats w))) = false ->
         exists buffer w', frequent w = (Ok buffer, w'))
  /\ (forall w : World,
         NoDup (Dict.keys (used w)) ->
         raises is_out_of_fuel (frequent w) = false
         /\ NoDup (Dict.keys (used (snd (frequent w)))))
  /\ (forall stdin : list string, NoDup (Dict.keys (used (scanned stdin))))
  /\ (forall loc cap : nat,
         loc <= 120 -> cap <= loc ->
         below cap (threshold_of loc) = (20 * cap <? 7 * loc)%nat)
  /\ (forall w : World,
         loc (stats w) = 10 ->
         used w = [("A", 5); ("B", 3); ("C", 2)] ->
         fst (frequent w) = Ok ["A"]).
Proof.
  split; [exact FrequentFacts.frequent_spec|].
  split; [exact FrequentFacts.frequent_total|].
  split.
  { intros w Hw. split; [now apply FrequentFacts.frequent_fuel|].
    now apply DictFacts.frequent_dict. }
  split; [exact DictFacts.scanned_dict|].
  split; [exact FrequentFacts.below_exact|].
  intros [[l c lb j u e] o out fs]. unfold used. simpl.
  intros -> ->. vm_compute. reflexivity.
Qed.

Lemma C4_witness :
  exists picks cap',
    greedy (threshold_of 10) [("A", 5); ("B", 3); ("C", 2)] 0 picks
           [("B", 3); ("C", 2)] cap'
    /\ below cap' (threshold_of 10) = false
    /\ ["A"] = sort picks
    /\ Permutation ["A"] picks
    /\ Sorted str_le ["A"].
Proof.
  apply (proj1 C4_frequent_selection scenario_ABC
           (with_used [("B", 3); ("C", 2)] scenario_ABC) ["A"]).
  - unfold used, Dict.keys; simpl.
    repeat constructor; simpl; intuition discriminate.
  - vm_compute. reflexivity.
Defined.

(** C5, on the code. The names of the statistics files are collected in a
    set, and the test for duplicates compares the size of this set with the
    size of a copy of it: it never fails. So the checks of the arguments
    never raise [ConfigurationError], and a run that names the file out
    twice goes on to read its input, opens the file twice and ends with
    status 0. *)
Theorem C5_duplicate_destination_is_not_detected :
  (forall (args : list string) (w : World),
      raises is_configuration_error (check_arguments args w) = false)
  /\ check_arguments ["--stats=out"; "--loc"; "--stats=out"; "--eol"] init_world
     = (Ok tt, init_world)
  /\ run ["--stats=out"; "--loc"; "--stats=out"; "--eol"]
         [".IPPcode24"; "BREAK"]
     = (Ok tt,
        mkWorld (mkStats 1 0 [] [] [("BREAK", 1)] 2) 1
                [XmlDecl; ProgramOpen; InstructionOpen 1 "BREAK";
                 InstructionClose; ProgramClose]
                [FOpen "out"; FWrite "out" ("1" ++ nl);
                 FOpen "out"; FWrite "out" ("2" ++ nl)]).
Proof.
  split; [exact ArgumentFacts.check_arguments_no_configuration_error|].
  split; reflexivity.
Qed.




(** C7, as the code has it. The header is looked for on the first line of
    the input, trimmed. When the first line is the header .IPPcode24, no
    header error is raised, by the scan or by the run. When the first line
    that is neither empty after trimming nor a comment line differs from
    the header, the scan stops with the header error, exit status 22,
    after it has printed the two opening lines and counted one line: no
    instruction is processed. So does the run, when the arguments pass
    their checks, which come before the input is read. *)
Theorem C7_header_is_checked_on_first_line :
  (forall (stdin : list string) (w : World),
      first_line_of stdin = Some ".IPPcode24" ->
      raises is_header_error (scan_input stdin w) = false)
  /\ (forall (args stdin : list string),
         first_line_of stdin = Some ".IPPcode24" ->
         raises is_header_error (run args stdin) = false)
  /\ (forall (stdin : list string) (line : string),
         first_kept_line stdin = Some line ->
         line <> ".IPPcode24" ->
         scan_input stdin init_world
         = (Raise HeaderError,
            mkWorld (mkStats 0 0 [] [] [] 1) 0 [XmlDecl; ProgramOpen] []))
  /\ (forall (args stdin : list string) (line : string),
         fst (check_arguments args init_world) = Ok tt ->
         first_kept_line stdin = Some line ->
         line <> ".IPPcode24" ->
         run args stdin
         = (Raise HeaderError,
            mkWorld (mkStats 0 0 [] [] [] 1) 0 [XmlDecl; ProgramOpen] []))
  /\ exit_status HeaderError = 22.
Proof.
  assert (S : forall stdin line,
             first_kept_line stdin = Some line -> line <> ".IPPcode24" ->
             scan_input stdin init_world
             = (Raise HeaderError,
                mkWorld (mkStats 0 0 [] [] [] 1) 0 [XmlDecl; ProgramOpen] [])).
  { intros stdin line Hkept Hne.
    destruct (HeaderFacts.first_kept_is_not_header stdin line Hkept Hne)
      as (first & Hfirst & Hne').
    exact (HeaderFacts.scan_input_header_error stdin first init_world
             Hfirst Hne'). }
  split; [|split; [|split; [exact S | split; [|reflexivity]]]].
  - intros stdin w H. now apply HeaderFacts.scan_input_no_header.
  - intros args stdin H. unfold run, main.
    apply MonadFacts.never_bind;
      [apply HeaderFacts.check_arguments_no_header | intros _].
    apply MonadFacts.never_bind;
      [now apply HeaderFacts.scan_input_no_header | intros _].
    apply MonadFacts.never_bind;
      [apply HeaderFacts.analyse_jumps_no_header | intros counts].
    apply HeaderFacts.report_no_header.
  - intros args stdin line Hargs Hkept Hne.
    unfold run, main.
    destruct (check_arguments args init_world) as [[[]|e] w0] eqn:E;
      [|discriminate].
    pose proof (MainFacts.check_arguments_ok _ _ _ E); subst w0.
    rewrite (MonadFacts.bind_ok _ _ _ _ _ E).
    apply MonadFacts.bind_raise. now apply (S stdin line).
Qed.

Lemma C7_witness :
  scan_input ["# a program"; "BREAK"; ".IPPcode24"] init_world
  = (Raise HeaderError,
     mkWorld (mkStats 0 0 [] [] [] 1) 0 [XmlDecl; ProgramOpen] []).
Proof.
  apply (proj1 (proj2 (proj2 C7_header_is_checked_on_first_line))
           ["# a program"; "BREAK"; ".IPPcode24"] "BREAK").
  - reflexivity.
  - discriminate.
Defined.

(** C7 as the specification words it fails: here the first line that is
    not discarded is the header, and the header error is raised all the
    same, because an empty line comes before it. *)
Lemma C7_counterexample :
  first_kept_line [""; ".IPPcode24"] = Some ".IPPcode24"
  /\ raises is_header_error (run [] [""; ".IPPcode24"]) = true.
Proof. split; reflexivity. Qed.

(** C8. For every opcode that is not in the instruction table and every
    text of operands, well-formed or not, the validator stops with
    [UnknownOpcodeError], whose exit status is 22, and the state is as it
    was: no operand is classified and no arity is checked. The same holds
    for a whole instruction line whose first word is such an opcode. *)
Theorem C8_unknown_opcode_is_rejected_first :
  (forall (opcode args : string) (w : World),
      ~ In opcode (map fst instruction_dict) ->
      validate opcode args w = (Raise UnknownOpcodeError, w))
  /\ (forall (instruction opcode : string) (more : list string) (w : World),
         PyStr.startswith "#" instruction = false ->
         is_empty (PyStr.strip instruction) = false ->
         PyStr.split_ws1
           (PyStr.strip (hd EmptyString (PyStr.split1 "#" instruction)))
         = opcode :: more ->
         ~ In opcode (map fst instruction_dict) ->
         fst (instruction_scan instruction w) = Raise UnknownOpcodeError)
  /\ exit_status UnknownOpcodeError = 22
  /\ exit_status PatternMismatchError = 23
  /\ exit_status ArityTooFew = 23 /\ exit_status ArityTooMany = 23.
Proof.
  split; [exact ValidatorFacts.validate_unknown|].
  split; [exact ValidatorFacts.instruction_scan_unknown|].
  repeat split.
Qed.

Lemma C8_witness :
  fst (instruction_scan "FOO GF@1bad @@ int@x one two three" init_world)
  = Raise UnknownOpcodeError.
Proof.
  apply (proj1 (proj2 C8_unknown_opcode_is_rejected_first)
           "FOO GF@1bad @@ int@x one two three" "FOO"
           ["GF@1bad @@ int@x one two three"] init_world).
  - reflexivity.
  - reflexivity.
  - reflexivity.
  - simpl. intros H.
    repeat (destruct H as [H|H]; [discriminate|]). exact H.
Defined.



(** C10. The operands int, bool and string are classified as type
    keywords, never as labels. The opcodes with a label in their signature
    are LABEL, CALL, JUMP, JUMPIFEQ and JUMPIFNEQ; for each of them a type
    keyword in the place of the label fails the role check with
    [RoleMismatchError] (exit status 23), whatever the other tokens are, and
    so does the whole instruction when its other operands are well-formed.
    Hence, for all arguments and inputs and however the run ends, no type
    keyword is a key of the label map or of the jump map. *)
Theorem C10_type_keywords_are_never_labels :
  (forall (x : string) (w : World),
      In x type_keywords -> match_pattern x w = (Ok (mkToken Ttype x), w))
  /\ (forall opcode : string,
         In opcode label_opcodes <->
         exists pats i,
           signature opcode = Some pats /\ nth_error pats i = Some Rlabel)
  /\ (forall (opcode : string) (pats : list role) (i : nat) (x : string)
             (tokens : list Token) (w : World),
         signature opcode = Some pats -> nth_error pats i = Some Rlabel ->
         In x type_keywords ->
         nth_error tokens i = Some (mkToken Ttype x) ->
         parse_instruction (opcode, tokens) w
         = (Raise (RoleMismatchError (i + 1) Rlabel), w))
  /\ (forall (opcode x args : string) (others : list string)
             (tokens : list Token) (w : World),
         In opcode label_opcodes -> In x type_keywords ->
         PyStr.split_ws args = x :: others ->
         fst (match_all others w) = Ok tokens ->
         validate opcode args w = (Raise (RoleMismatchError 1 Rlabel), w))
  /\ (forall i pattern, exit_status (RoleMismatchError i pattern) = 23)
  /\ (forall (args stdin : list string) (x : string),
         In x type_keywords ->
         Dict.mem x (labels (stats (snd (run args stdin)))) = false
         /\ Dict.mem x (jumps (stats (snd (run args stdin)))) = false).
Proof.
  split; [exact LabelFacts.keyword_is_type|].
  split; [exact LabelFacts.label_opcodes_spec|].
  split; [exact LabelFacts.role_mismatch_on_keyword|].
  split; [exact LabelFacts.validate_keyword_label|].
  split; [reflexivity|].
  intros args stdin x Hx. exact (LabelFacts.run_clean args stdin x Hx).
Qed.

Lemma C10_witness :
  validate "JUMPIFEQ" "string GF@a int@1" init_world
  = (Raise (RoleMismatchError 1 Rlabel), init_world).
Proof.
  apply (proj1 (proj2 (proj2 (proj2 C10_type_keywords_are_never_labels)))
           "JUMPIFEQ" "string" "string GF@a int@1" ["GF@a"; "int@1"]
           [mkToken Tvar "GF@a"; mkToken Tconst "int@1"] init_world).
  - simpl; tauto.
  - simpl; tauto.
  - reflexivity.
  - reflexivity.
Defined.

(* ================================================================== *)
(** * Further properties of the code *)
(* ================================================================== *)

(** X1. The order of the tests of [match_pattern] matters for the type
    keywords only: an operand that matches the pattern of constants
    matches no other pattern, one that matches [VAR] matches neither
    [TYPE] nor [LABEL], and one that matches [TYPE] matches [LABEL]
    too. *)
Theorem X1_patterns_overlap_on_keywords_only (operand : string) :
  (Re.fullmatch Pat.const_pattern operand = true ->
   Re.fullmatch Pat.TYPE operand = false
   /\ Re.fullmatch Pat.VAR operand = false
   /\ Re.fullmatch Pat.LABEL operand = false)
  /\ (Re.fullmatch Pat.VAR operand = true ->
      Re.fullmatch Pat.TYPE operand = false
      /\ Re.fullmatch Pat.LABEL operand = false)
  /\ (Re.fullmatch Pat.TYPE operand = true ->
      Re.fullmatch Pat.LABEL operand = true).
Proof. exact (OverlapFacts.patterns_overlap operand). Qed.

Lemma X1_witness :
  Re.fullmatch Pat.TYPE "string@a" = false
  /\ Re.fullmatch Pat.VAR "string@a" = false
  /\ Re.fullmatch Pat.LABEL "string@a" = false.
Proof.
  apply (proj1 (X1_patterns_overlap_on_keywords_only "string@a")).
  reflexivity.
Defined.

(** X2. An instruction whose opcode is in the table is accepted by
    [parse_instruction], and handed to [print_xml], exactly when its tokens
    satisfy the patterns of the signature one by one. Otherwise the state
    is left as it is and the first fault from the left is reported: a token
    that does not satisfy its pattern, with its position counted from 1;
    else too few arguments; else too many. *)
Theorem X2_signature_decides_acceptance (opcode : string) (pats : list role)
  (tokens : list Token) (w : World) :
  signature opcode = Some pats ->
  (Forall2 role_ok pats tokens ->
   parse_instruction (opcode, tokens) w = print_xml (opcode, tokens) w)
  /\ (forall (i : nat) (p : role) (t : Token),
         nth_error pats i = Some p -> nth_error tokens i = Some t ->
         role_accepts p (token_type t) = false ->
         Forall2 role_ok (firstn i pats) (firstn i tokens) ->
         parse_instruction (opcode, tokens) w
         = (Raise (RoleMismatchError (i + 1) p), w))
  /\ (length tokens < length pats ->
      Forall2 role_ok (firstn (length tokens) pats) tokens ->
      parse_instruction (opcode, tokens) w = (Raise ArityTooFew, w))
  /\ (length pats < length tokens ->
      Forall2 role_ok pats (firstn (length pats) tokens) ->
      parse_instruction (opcode, tokens) w = (Raise ArityTooMany, w)).
Proof.
  intros Hs. rewrite (AcceptFacts.parse_instruction_check opcode pats tokens w Hs).
  split; [|split; [|split]].
  - intros H.
    pose proof (AcceptFacts.zip_all_ok pats tokens H 0 []) as Z.
    rewrite app_nil_r in Z. rewrite Z.
    apply Forall2_length in H. rewrite H, Nat.ltb_irrefl. reflexivity.
  - intros i p t Hp Ht Hno H.
    now rewrite (AcceptFacts.zip_mismatch i pats tokens 0 p t Hp Ht Hno H).
  - intros Hlen H. now rewrite (AcceptFacts.zip_too_few pats tokens 0 Hlen H).
  - intros Hlen H.
    pose proof (AcceptFacts.zip_all_ok pats _ H 0
                  (skipn (length pats) tokens)) as Z.
    rewrite firstn_skipn in Z. rewrite Z.
    apply Nat.ltb_lt in Hlen. now rewrite Hlen.
Qed.

Lemma X2_witness :
  parse_instruction ("MOVE", [mkToken Tvar "GF@a"; mkToken Tlabel "x"]) init_world
  = (Raise (RoleMismatchError (1 + 1) Rsymb), init_world).
Proof.
  apply (proj1 (proj2 (X2_signature_decides_acceptance "MOVE" [Rvar; Rsymb]
                         [mkToken Tvar "GF@a"; mkToken Tlabel "x"] init_world
                         eq_refl))
           1 Rsymb (mkToken Tlabel "x")); try reflexivity.
  repeat constructor.
Defined.

(** X3. A label is defined once. When [LABEL name] is validated in a state
    whose label map has [name] already, the run stops with
    [DuplicateLabelError], exit status 23: the label map is as it was, but
    the order counter has been incremented and the message is on the
    standard output. When the label map does not have [name], the
    instruction is accepted, printed with the next order, and the label map
    gives [name] that order. *)
Theorem X3_label_is_defined_once (name args : string) (w : World) :
  PyStr.split_ws args = [name] ->
  Shape.is_label name = true ->
  Shape.is_type_keyword name = false ->
  (Dict.mem name (labels (stats w)) = true ->
   exists w',
     validate "LABEL" args w = (Raise DuplicateLabelError, w')
     /\ labels (stats w') = labels (stats w)
     /\ order w' = S (order w)
     /\ stdout w' = (stdout w ++ [DuplicateLabelText])%list)
  /\ (Dict.mem name (labels (stats w)) = false ->
      exists w',
        validate "LABEL" args w = (Ok tt, w')
        /\ Dict.lookup name (labels (stats w')) = Some (S (order w))
        /\ order w' = S (order w)
        /\ stdout w'
           = (stdout w ++ [InstructionOpen (S (order w)) "LABEL";
                           ArgLine 1 "label" name; InstructionClose])%list)
  /\ exit_status DuplicateLabelError = 23.
Proof.
  intros Hargs HL HT.
  rewrite (LabelDefFacts.validate_label name args w Hargs HL HT).
  split; [|split; [|reflexivity]].
  - intros Hm.
    destruct (LabelDefFacts.print_label_again name w Hm)
      as (w' & H & L & _ & O & P).
    now exists w'.
  - intros Hm.
    destruct (LabelDefFacts.print_label_first name w Hm)
      as (w' & H & L & _ & O & P).
    exists w'. repeat split; try assumption.
    rewrite L. apply LabelDefFacts.lookup_set_same.
Qed.

Lemma X3_witness :
  exists w',
    validate "LABEL" "loop" (scanned [".IPPcode24"; "LABEL loop"])
    = (Raise DuplicateLabelError, w')
    /\ labels (stats w') = labels (stats (scanned [".IPPcode24"; "LABEL loop"]))
    /\ order w' = S (order (scanned [".IPPcode24"; "LABEL loop"]))
    /\ stdout w'
       = (stdout (scanned [".IPPcode24"; "LABEL loop"])
          ++ [DuplicateLabelText])%list.
Proof.
  apply (proj1 (X3_label_is_defined_once "loop" "loop"
                  (scanned [".IPPcode24"; "LABEL loop"])
                  eq_refl eq_refl eq_refl)).
  reflexivity.
Defined.

(** X4. What [print_xml] prints for a token of the classifier, whatever
    the tokens before it were. For a variable, a type or a label: the kind
    of the token and the operand as it is. For a constant other than
    nil@nil: one of int, bool and string as the type and the text after
    the prefix as the value, so that type, [@] and value give the operand
    back. *)
Theorem X4_tokens_are_decoded (operand : string) (t : Token) (w w' : World)
  (prev : option (string * string)) :
  match_pattern operand w = (Ok t, w') ->
  operand <> "nil@nil" ->
  exists type value,
    decode_token prev t = Some (type, value)
    /\ match token_type t with
       | Tconst =>
           (type ++ "@" ++ value)%string = operand
           /\ In type ["int"; "bool"; "string"]
       | kind => type = ttype_str kind /\ value = operand
       end.
Proof.
  intros H Hn.
  apply Classifier.match_pattern_ok in H as (Hv & _ & _ & Hc).
  destruct t as [ty v]. simpl in *. subst v.
  destruct ty.
  - destruct (DecodeFacts.decode_round_trip operand prev (Hc eq_refl) Hn)
      as (kind & value & D & R & _ & K).
    exists kind, value. auto.
  - exists "type", operand. auto.
  - exists "var", operand. auto.
  - exists "label", operand. auto.
Qed.

Lemma X4_witness :
  exists type value,
    decode_token None (mkToken Tconst "string@a\032b") = Some (type, value)
    /\ (type ++ "@" ++ value)%string = "string@a\032b"
    /\ In type ["int"; "bool"; "string"].
Proof.
  apply (X4_tokens_are_decoded "string@a\032b"
           (mkToken Tconst "string@a\032b") init_world init_world None).
  - reflexivity.
  - discriminate.
Defined.

(** X5. The argument [--help] stops the run before any input is read.
    Alone, it prints the usage text and the run ends with status 0. With
    any other argument, before it or after it, the run ends with status 10
    and nothing is printed. *)
Theorem X5_help_stops_the_run (args stdin : list string) :
  In "--help" args ->
  (args = ["--help"] ->
   run args stdin = (Raise HelpShown, mkWorld init_stats 0 [UsageText] []))
  /\ (args <> ["--help"] -> run args stdin = (Raise HelpCombined, init_world))
  /\ exit_status HelpShown = 0 /\ exit_status HelpCombined = 10.
Proof.
  intros Hin. split; [|split; [|split; reflexivity]].
  - intros ->. reflexivity.
  - intros Hne. unfold run, main, check_arguments.
    do 2 apply MonadFacts.bind_raise.
    now apply UsageFacts.help_combined.
Qed.

Lemma X5_witness :
  run ["--stats=out"; "--help"] [".IPPcode24"; "BREAK"]
  = (Raise HelpCombined, init_world).
Proof.
  apply (proj1 (proj2 (X5_help_stops_the_run ["--stats=out"; "--help"]
                         [".IPPcode24"; "BREAK"]
                         (or_intror (or_introl eq_refl))))).
  discriminate.
Defined.

(** X6. An argument that is [--stats] alone, with no file name, stops the
    run with status 10 before any input is read and before anything is
    printed, wherever it stands among the arguments (when [--help] is not
    one of them). *)
Theorem X6_stats_needs_a_file_name (args stdin : list string) :
  ~ In "--help" args -> In "--stats" args ->
  run args stdin = (Raise StatsMissingFile, init_world)
  /\ exit_status StatsMissingFile = 10.
Proof.
  intros Hno Hin. split; [|reflexivity].
  unfold run, main, check_arguments. apply MonadFacts.bind_raise.
  assert (H : check_help args init_world = (Ok tt, init_world)).
  { unfold check_help. now rewrite (UsageFacts.index_of_not_in _ _ Hno). }
  rewrite (MonadFacts.bind_ok _ _ _ _ _ H).
  apply MonadFacts.bind_raise.
  now apply UsageFacts.collect_missing_file.
Qed.

Lemma X6_witness :
  run ["--stats=out"; "--loc"; "--stats"] [".IPPcode24"]
  = (Raise StatsMissingFile, init_world)
  /\ exit_status StatsMissingFile = 10.
Proof.
  apply (X6_stats_needs_a_file_name ["--stats=out"; "--loc"; "--stats"]
           [".IPPcode24"]).
  - simpl. intros [H | [H | [H | []]]]; discriminate.
  - simpl. auto.
Defined.

(** X7. The statistics are written only when the first argument starts
    with [--stats=]. Otherwise no file is opened or written, whatever the
    other arguments are, and, when the arguments pass the checks made
    before the input is read, they are not looked at again: the run is the
    scan of the input and ends as the scan ends, so an unknown argument
    or a statistic asked for without a file is no error. *)
Theorem X7_no_statistics_without_stats_first (args stdin : list string) :
  PyStr.startswith "--stats=" (hd EmptyString args) = false ->
  files (snd (run args stdin)) = []
  /\ (fst (check_arguments args init_world) = Ok tt ->
      run args stdin = scan_input stdin init_world).
Proof.
  intros Hs. split.
  - now apply FilesFacts.run_files_without_stats.
  - now apply FilesFacts.run_is_the_scan.
Qed.

Lemma X7_witness :
  files (snd (run ["--loc"; "--stats=out"; "--bogus"] [".IPPcode24"; "BREAK"]))
  = []
  /\ (fst (check_arguments ["--loc"; "--stats=out"; "--bogus"] init_world)
      = Ok tt ->
      run ["--loc"; "--stats=out"; "--bogus"] [".IPPcode24"; "BREAK"]
      = scan_input [".IPPcode24"; "BREAK"] init_world).
Proof.
  apply (X7_no_statistics_without_stats_first
           ["--loc"; "--stats=out"; "--bogus"] [".IPPcode24"; "BREAK"]).
  reflexivity.
Defined.

(** X8. The scan raises the header error exactly when the input has a
    first line and this line, trimmed, is not the header. An input with no
    line at all is accepted without a header: the scan prints the opening
    and closing lines of the program and counts nothing. *)
Theorem X8_header_error_exactly (stdin : list string) (w : World) :
  (raises is_header_error (scan_input stdin w) = true <->
   exists line, first_line_of stdin = Some line /\ line <> ".IPPcode24")
  /\ scan_input [] w
     = (Ok tt,
        mkWorld (stats w) (order w)
                (stdout w ++ [XmlDecl; ProgramOpen; ProgramClose]) (files w)).
Proof.
  split.
  - split.
    + intros H. destruct stdin as [|raw rest]; [discriminate H|].
      destruct (string_dec (PyStr.strip raw) ".IPPcode24") as [E|Hne].
      * assert (F : first_line_of (raw :: rest) = Some ".IPPcode24")
          by (simpl; now rewrite E).
        pose proof (HeaderFacts.scan_input_no_header _ F w) as N.
        congruence.
      * now exists (PyStr.strip raw).
    + intros (line & Hl & Hne).
      now rewrite (HeaderFacts.scan_input_header_error stdin line w Hl Hne).
  - unfold scan_input, bind, print, modify. cbn.
    now rewrite <- !app_assoc.
Qed.

(** X9. The opcodes that [--frequent] lists are keys of the map of used
    instructions, and none is listed twice. When no instruction was
    counted, the list is empty and the state is as it was. *)
Theorem X9_frequent_lists_distinct_opcodes (w w' : World)
  (buffer : list string) :
  (NoDup (Dict.keys (used w)) ->
   frequent w = (Ok buffer, w') ->
   NoDup buffer /\ (forall k, In k buffer -> In k (Dict.keys (used w))))
  /\ (loc (stats w) = 0 -> frequent w = (Ok [], w)).
Proof.
  split.
  - apply SelectionFacts.frequent_picks.
  - apply SelectionFacts.frequent_of_nothing.
Qed.

Lemma X9_witness :
  NoDup ["A"]
  /\ (forall k, In k ["A"] -> In k (Dict.keys (used scenario_ABC))).
Proof.
  apply (proj1 (X9_frequent_lists_distinct_opcodes scenario_ABC
                  (with_used [("B", 3); ("C", 2)] scenario_ABC) ["A"])).
  - unfold used, Dict.keys; simpl.
    repeat constructor; simpl; intuition discriminate.
  - vm_compute. reflexivity.
Defined.

(** X10. In a run that ends well, the count of line ends is the number of
    lines of the input, the header line among them, and the count of
    comments is the number of lines after the first one that have the
    character [#]: a comment line and an instruction followed by a
    comment count alike, once each. *)
Theorem X10_lines_and_comments_are_counted (args stdin : list string)
  (w : World) :
  run args stdin = (Ok tt, w) ->
  eol (stats w) = length stdin
  /\ comments (stats w) = length (comment_lines stdin).
Proof.
  intros H. apply MainFacts.run_ok in H as (w1 & counts & H1 & H2).
  apply CountFacts.scan_input_counts in H1 as [E C]. simpl in E, C.
  pose proof (ScanFacts.keeps_run _ _ _ _ _
                (MainFacts.report_keeps _ AnalysisFacts.eol_ignores_report
                   args counts) H2) as E2.
  pose proof (ScanFacts.keeps_run _ _ _ _ _
                (MainFacts.report_keeps _ AnalysisFacts.comments_ignore_report
                   args counts) H2) as C2.
  simpl in E2, C2. split; congruence.
Qed.

Lemma X10_witness :
  eol (stats (snd (run ["--stats=out"; "--comments"]
                       [".IPPcode24"; "# one"; ""; "BREAK # two"; "RETURN"])))
  = 5
  /\ comments (stats (snd (run ["--stats=out"; "--comments"]
                            [".IPPcode24"; "# one"; ""; "BREAK # two";
                             "RETURN"])))
     = 2.
Proof.
  apply (X10_lines_and_comments_are_counted ["--stats=out"; "--comments"]
           [".IPPcode24"; "# one"; ""; "BREAK # two"; "RETURN"]).
  vm_compute. reflexivity.
Defined.

(** X11. The jump analysis never counts a bad jump. A jump is counted as
    bad when its position is the position of its label, and no position is
    given to a label and to a jump; a jump whose label is not defined is
    left out of the three counts. So after every scan that ends well the
    bad jumps are 0, and the forward and backward jumps together are the
    entries of the jump map whose label is defined. *)
Theorem X11_no_jump_is_counted_as_bad (stdin : list string)
  (fw back bad : nat) (w : World) :
  jump_analysis stdin = (Ok (fw, back, bad), w) ->
  bad = 0 /\ fw + back = length (resolved_jumps w).
Proof.
  unfold jump_analysis. intros H.
  apply MonadFacts.bind_inv_ok in H as ([] & w1 & H1 & H).
  rewrite AnalysisFacts.classify_jumps_reads in H.
  injection H as E Ew. subst w1.
  pose proof (JumpFacts.scan_input_apart stdin init_world JumpFacts.init_apart)
    as (_ & _ & HD).
  rewrite H1 in HD. cbn [snd] in HD.
  pose proof (JumpFacts.count_jumps_apart
                (labels (stats w)) (jumps (stats w)) HD 0 0 0) as C.
  rewrite E in C. exact C.
Qed.

Lemma X11_witness :
  0 = 0
  /\ 0 + 1
     = length (resolved_jumps
                 (scanned [".IPPcode24"; "LABEL a"; "JUMP a"; "JUMP b"])).
Proof.
  apply (X11_no_jump_is_counted_as_bad
           [".IPPcode24"; "LABEL a"; "JUMP a"; "JUMP b"] 0 1 0).
  vm_compute. reflexivity.
Defined.

(** X12. The output of a run that ends well is the declaration, the
    opening line of the program, a body of instructions and the closing
    line of the program. In the body every instruction has its opening
    line, with the orders 1, 2, ... from one instruction to the next and
    an opcode of the table, then its operands numbered from 1, as many as
    the signature of the opcode has, then its closing line. *)
Theorem X12_output_is_well_formed (args stdin : list string) (w : World) :
  run args stdin = (Ok tt, w) ->
  exists body,
    stdout w = XmlDecl :: ProgramOpen :: body ++ [ProgramClose]
    /\ well_formed 1 None body = true.
Proof.
  intros H. apply MainFacts.run_ok in H as (w1 & counts & H1 & H2).
  pose proof (ScanFacts.keeps_run _ _ _ _ _
                (MainFacts.report_keeps _ MainFacts.stdout_ignores_report
                   args counts) H2) as E.
  rewrite E. exact (OutputFacts.scan_input_out stdin w1 H1).
Qed.

Lemma X12_witness :
  exists body,
    stdout (snd (run ["--stats=out"; "--loc"]
                     [".IPPcode24"; "DEFVAR GF@a"; "ADD GF@a int@1 int@2"]))
    = XmlDecl :: ProgramOpen :: body ++ [ProgramClose]
    /\ well_formed 1 None body = true.
Proof.
  apply (X12_output_is_well_formed ["--stats=out"; "--loc"]
           [".IPPcode24"; "DEFVAR GF@a"; "ADD GF@a int@1 int@2"]).
  vm_compute. reflexivity.
Defined.

(** X13. The frequency selector fails when the counts of the map of used
    instructions do not reach the threshold together: it takes every
    opcode out of the map and then stops the run with the [ValueError] of
    the greatest of no values, exit status 1. Since a selection deletes
    what it selects, this is what a later [--frequent] of the same run can
    meet. The comparison with the threshold is in binary64; the statement
    is for up to 120 instructions, where it is the comparison of
    20 * total with 7 * loc. *)
Theorem X13_frequent_fails_below_the_threshold (w : World) :
  NoDup (Dict.keys (used w)) ->
  loc (stats w) <= 120 ->
  20 * total (used w) < 7 * loc (stats w) ->
  frequent w = (Raise ValueError, with_used [] w)
  /\ exit_status ValueError = 1.
Proof.
  intros Hnd Hloc Hsum. split; [|reflexivity].
  now apply StarveFacts.frequent_starves.
Qed.

Lemma X13_witness :
  frequent (snd (frequent (scanned [".IPPcode24"; "BREAK"])))
  = (Raise ValueError,
     with_used [] (snd (frequent (scanned [".IPPcode24"; "BREAK"]))))
  /\ exit_status ValueError = 1.
Proof.
  apply (X13_frequent_fails_below_the_threshold
           (snd (frequent (scanned [".IPPcode24"; "BREAK"])))).
  - vm_compute. constructor.
  - vm_compute. lia.
  - vm_compute. lia.
Defined.

(** X14. A comment after an instruction is counted and has no other
    effect: for a text [i] without [#] that is not empty after trimming,
    the scan of [i], [#] and any comment is the scan of [i] alone after the
    comment count has been incremented: the same result, the same output,
    the same statistics but for that count. *)
Theorem X14_comment_after_instruction (i c : string) (w : World) :
  occurs "#" i = false ->
  is_empty (PyStr.strip i) = false ->
  instruction_scan (i ++ String "#" c) w
  = (incr_comments ;; instruction_scan i) w.
Proof. exact (CommentFacts.instruction_scan_comment i c w). Qed.

Lemma X14_witness :
  instruction_scan ("MOVE GF@a int@1 " ++ String "#" " GF@a nil@nil") init_world
  = (incr_comments ;; instruction_scan "MOVE GF@a int@1 ") init_world.
Proof.
  apply (X14_comment_after_instruction "MOVE GF@a int@1 " " GF@a nil@nil"
           init_world); reflexivity.
Defined.

(** X15. In every run, however it ends, the file events are in order:
    nothing is written before a file is opened, and every write goes to
    the file that was opened last, the one of the nearest [--stats=]
    before the argument that asks for the statistic. *)
Theorem X15_writes_go_to_the_file_opened_last (args stdin : list string) :
  writes_follow_opens None (files (snd (run args stdin))) = true.
Proof. exact (EventFacts.run_events args stdin). Qed.

(** X16. No run stops with an index out of range, whatever the arguments
    and the input are: a line handed to [instruction_scan] has an opcode,
    the tokens that [parse_instruction] tests are there, an instruction
    whose first token [print_xml] reads has one, an argument that is split
    at [=] has a text after it, and the map of used instructions has a key
    with the greatest count. Nor does a run take the branch of
    [parse_instruction] for an opcode that is not in the table, and the
    loop of [--frequent] always ends, within the bound that the model puts
    on it. *)
Theorem X16_no_index_error (args stdin : list string) :
  raises is_internal (run args stdin) = false
  /\ fst (run args stdin) <> Raise IndexError
  /\ fst (run args stdin) <> Raise UnknownOpcodeInParse
  /\ fst (run args stdin) <> Raise OutOfFuel.
Proof.
  assert (H : raises is_internal (run args stdin) = false).
  { apply (SafetyFacts.main_safe args stdin init_world). constructor. }
  split; [exact H|]. unfold raises in H.
  repeat split; intros E; rewrite E in H; discriminate.
Qed.

(** X17. After a scan that ends well the counts of the map of used
    instructions add up to the instruction count. So the first
    [--frequent] of a run finds enough in the map and returns a list
    (for up to 120 instructions, where the comparison in binary64 is
    known to be the exact one). *)
Theorem X17_counts_add_up_to_loc (stdin : list string) (w : World) :
  scan_input stdin init_world = (Ok tt, w) ->
  total (used w) = loc (stats w)
  /\ (loc (stats w) <= 120 -> exists buffer w', frequent w = (Ok buffer, w')).
Proof.
  intros H. pose proof (TallyFacts.scan_input_total stdin w H) as T.
  split; [exact T|]. intros Hloc.
  apply FrequentFacts.frequent_total.
  - pose proof (DictFacts.scanned_dict stdin) as D.
    unfold scanned in D. now rewrite H in D.
  - rewrite T, FrequentFacts.below_exact by lia. apply Nat.ltb_ge. lia.
Qed.

Lemma X17_witness :
  total (used (scanned [".IPPcode24"; "BREAK"; "RETURN"; "BREAK"]))
  = loc (stats (scanned [".IPPcode24"; "BREAK"; "RETURN"; "BREAK"]))
  /\ (loc (stats (scanned [".IPPcode24"; "BREAK"; "RETURN"; "BREAK"])) <= 120 ->
      exists buffer w',
        frequent (scanned [".IPPcode24"; "BREAK"; "RETURN"; "BREAK"])
        = (Ok buffer, w')).
Proof.
  apply (X17_counts_add_up_to_loc [".IPPcode24"; "BREAK"; "RETURN"; "BREAK"]).
  vm_compute. reflexivity.
Defined.

(** X18. The arguments after the first one are read when the statistics
    are written, not before. A run that stops for an unknown argument,
    with status 10, has [--stats=] at the start of its first argument and
    has scanned its whole input without error: the whole output for the
    input is printed before the argument is found. *)
Theorem X18_unknown_argument_is_found_late (args stdin : list string) :
  raises is_unknown_argument (run args stdin) = true ->
  PyStr.startswith "--stats=" (hd EmptyString args) = true
  /\ (exists w,
         scan_input stdin init_world = (Ok tt, w)
         /\ stdout (snd (run args stdin)) = stdout w)
  /\ exit_status UnknownArgument = 10.
Proof.
  intros H.
  destruct (ArgumentOrderFacts.unknown_argument_is_late args stdin H)
    as [Hs Hw].
  split; [exact Hs|]. split; [exact Hw | reflexivity].
Qed.

Lemma X18_witness :
  PyStr.startswith "--stats=" (hd EmptyString ["--stats=out"; "--loc"; "--locs"])
  = true
  /\ (exists w,
         scan_input [".IPPcode24"; "BREAK"] init_world = (Ok tt, w)
         /\ stdout (snd (run ["--stats=out"; "--loc"; "--locs"]
                             [".IPPcode24"; "BREAK"]))
            = stdout w)
  /\ exit_status UnknownArgument = 10.
Proof.
  apply (X18_unknown_argument_is_found_late ["--stats=out"; "--loc"; "--locs"]
           [".IPPcode24"; "BREAK"]).
  vm_compute. reflexivity.
Defined.
